(** * Invoice memory automation: a shallow embedding of the decision pipeline

    The development embeds the TypeScript sources of the invoice pipeline
    (RecallEngine, ApplyEngine, DecisionEngine, LearningEngine, OutputEngine
    and the parts of MemoryStore they call) and proves properties of the
    embedded functions.

    Conventions of the embedding.
    - A JavaScript [number] is an exact rational extended with the two
      infinities and NaN.  Binary64 rounding and the sign of zero are not
      modelled there; comparisons, NaN propagation and division by zero
      are.  The overall confidence, whose value depends on the rounding,
      is embedded over binary64 as well, in [Binary64].
    - A JavaScript string is a [string]; its characters stand for the
      UTF-16 code units that [length] and indexing see.
    - A value of type [any] is one of the primitive shapes the pipeline
      handles (null, undefined, boolean, number, string, Date).  Other
      objects appear where the code meets them: the members of
      [Object.prototype] that a property lookup finds ([FieldValue]), and
      the objects that [AnyValue.sanitizeValue] copies.
    - A method that can throw returns a [result]; a method that mutates
      the store or an engine threads the state explicitly.
    - The relational store is embedded as lists of rows; a DECIMAL(3,2)
      column is an integer number of hundredths. *)

From Stdlib Require Import QArith Qminmax Qabs Qround Lqa Lia ZArith Ascii String SpecFloat.
From stdpp Require Import base list strings gmap pretty.

(** ** Results of fallible computations *)

Inductive result (A : Type) : Type :=
| Ok (a : A)
| Err (message : string).
Arguments Ok {A} a.
Arguments Err {A} message.

Definition result_bind {A B} (r : result A) (k : A -> result B) : result B :=
  match r with
  | Ok a => k a
  | Err e => Err e
  end.

(** A thrown value is an [Error] with a message; [errorToString e] is the
    text of [`${error}`] for the error of message [e]. *)
Definition errorToString (e : string) : string := "Error: " +:+ e.

Fixpoint result_mapM {A B} (f : A -> result B) (l : list A) : result (list B) :=
  match l with
  | [] => Ok []
  | x :: xs =>
      result_bind (f x) (fun y =>
      result_bind (result_mapM f xs) (fun ys => Ok (y :: ys)))
  end.

(** ** JavaScript numbers *)

Inductive number : Type :=
| Fin (q : Q)
| PosInf
| NegInf
| NaN.

Definition Qltb (x y : Q) : bool := negb (Qle_bool y x).

Definition of_nat (n : nat) : number := Fin (inject_Z (Z.of_nat n)).
Definition of_Z (z : Z) : number := Fin (inject_Z z).

(** [a < b], [a <= b], [a > b], [a >= b]: every comparison with NaN is false. *)
Definition num_lt (a b : number) : bool :=
  match a, b with
  | NaN, _ | _, NaN => false
  | Fin x, Fin y => Qltb x y
  | Fin _, PosInf => true
  | Fin _, NegInf => false
  | PosInf, _ => false
  | NegInf, NegInf => false
  | NegInf, _ => true
  end.

Definition num_le (a b : number) : bool :=
  match a, b with
  | NaN, _ | _, NaN => false
  | Fin x, Fin y => Qle_bool x y
  | Fin _, PosInf => true
  | Fin _, NegInf => false
  | PosInf, PosInf => true
  | PosInf, _ => false
  | NegInf, _ => true
  end.

Definition num_gt (a b : number) : bool := num_lt b a.
Definition num_ge (a b : number) : bool := num_le b a.

Definition num_isNaN (a : number) : bool :=
  match a with NaN => true | _ => false end.

(** Truthiness of a number: [0] and [NaN] are falsy. *)
Definition num_truthy (a : number) : bool :=
  match a with
  | NaN => false
  | Fin q => negb (Qeq_bool q 0)
  | _ => true
  end.

(** [a || b] on numbers. *)
Definition num_or (a b : number) : number := if num_truthy a then a else b.

Definition num_neg (a : number) : number :=
  match a with
  | Fin q => Fin (- q)
  | PosInf => NegInf
  | NegInf => PosInf
  | NaN => NaN
  end.

Definition num_add (a b : number) : number :=
  match a, b with
  | NaN, _ | _, NaN => NaN
  | Fin x, Fin y => Fin (x + y)
  | PosInf, NegInf | NegInf, PosInf => NaN
  | PosInf, _ | _, PosInf => PosInf
  | NegInf, _ | _, NegInf => NegInf
  end.

Definition num_sub (a b : number) : number := num_add a (num_neg b).

(** The infinity whose sign is that of [s * t], NaN when the product is 0. *)
Definition signed_inf (s t : comparison) : number :=
  match s, t with
  | Eq, _ | _, Eq => NaN
  | Gt, Gt | Lt, Lt => PosInf
  | _, _ => NegInf
  end.

Definition num_sgn (a : number) : comparison :=
  match a with
  | Fin q => (q ?= 0)%Q
  | PosInf => Gt
  | NegInf => Lt
  | NaN => Eq
  end.

Definition num_mul (a b : number) : number :=
  match a, b with
  | NaN, _ | _, NaN => NaN
  | Fin x, Fin y => Fin (x * y)
  | _, _ => signed_inf (num_sgn a) (num_sgn b)
  end.

Definition num_div (a b : number) : number :=
  match a, b with
  | NaN, _ | _, NaN => NaN
  | Fin x, Fin y =>
      if Qeq_bool y 0 then signed_inf (x ?= 0)%Q Gt else Fin (x / y)
  | Fin _, _ => Fin 0
  | _, Fin y => signed_inf (num_sgn a) (if Qeq_bool y 0 then Gt else (y ?= 0)%Q)
  | _, _ => NaN
  end.

Definition num_abs (a : number) : number :=
  match a with
  | Fin q => Fin (Qabs q)
  | PosInf | NegInf => PosInf
  | NaN => NaN
  end.

(** [Math.min] and [Math.max]: NaN if either argument is NaN. *)
Definition num_min (a b : number) : number :=
  match a, b with
  | NaN, _ | _, NaN => NaN
  | _, _ => if num_le a b then a else b
  end.

Definition num_max (a b : number) : number :=
  match a, b with
  | NaN, _ | _, NaN => NaN
  | _, _ => if num_le a b then b else a
  end.

(** Equality of numbers as values ([===], except that it relates NaN to
    itself): rationals are compared by [Qeq]. *)
Definition num_eq (a b : number) : Prop :=
  match a, b with
  | Fin x, Fin y => (x == y)%Q
  | PosInf, PosInf | NegInf, NegInf | NaN, NaN => True
  | _, _ => False
  end.

(** A number that is a rational in the closed unit interval. *)
Definition in_unit (a : number) : Prop :=
  match a with
  | Fin q => (0 <= q <= 1)%Q
  | _ => False
  end.

(** [x.toFixed(digits)], for the magnitudes the pipeline prints (below 1e21). *)
Definition pad_left (width : nat) (s : string) : string :=
  String.concat "" (replicate (width - String.length s) "0") +:+ s.

Definition toFixed (x : number) (digits : nat) : string :=
  match x with
  | NaN => "NaN"
  | PosInf => "Infinity"
  | NegInf => "-Infinity"
  | Fin q =>
      let scale := (10 ^ Z.of_nat digits)%Z in
      let n := Qfloor (Qabs q * inject_Z scale + (1 # 2)) in
      let body :=
        pretty (n / scale)%Z +:+
        match digits with
        | O => ""
        | _ => "." +:+ pad_left digits (pretty (n mod scale)%Z)
        end in
      if Qltb q 0 then "-" +:+ body else body
  end.

(** ** Values of type [any] and dates *)

(** A [Date] wraps a time value in milliseconds; [None] is the invalid date. *)
Definition Date : Type := option Z.

Inductive any : Type :=
| ANull
| AUndefined
| ABool (b : bool)
| ANum (n : number)
| AStr (s : string)
| ADate (d : Date).

Definition isNumber (v : any) : bool :=
  match v with ANum _ => true | _ => false end.

(** [arr.join(sep)] on an array of strings. *)
Definition join (sep : string) (l : list string) : string := String.concat sep l.

(** [arr.includes(x)] on an array of strings. *)
Definition includes (l : list string) (x : string) : bool := bool_decide (x ∈ l).

(** ** interfaces/Invoice.ts, interfaces/Memory.ts *)

Record LineItem := {
  li_description : string;
  li_quantity : number;
  li_unitPrice : number;
  li_totalPrice : number;
  li_category : option string
}.

Record Invoice := {
  inv_id : string;
  inv_vendorName : string;
  inv_invoiceNumber : string;
  inv_amount : number;
  inv_date : Date;
  inv_lineItems : list LineItem;
  inv_rawFields : list (string * any)
}.

Record ProposedCorrection := {
  field : string;
  originalValue : any;
  correctedValue : any;
  confidence : number;
  memorySourceId : string;
  pc_reasoning : string
}.

Record NormalizationRule := {
  nr_fieldName : string;
  nr_pattern : string;
  nr_replacement : string;
  nr_confidenceScore : number
}.

Record VendorMemory := {
  vm_id : string;
  vm_vendorName : string;
  vm_fieldMappings : list (string * string);
  vm_normalizationRules : list NormalizationRule;
  vm_confidenceScore : number;
  vm_usageCount : number;
  vm_lastUsed : Date;
  vm_createdAt : Date
}.

Record CorrectionMemory := {
  cm_id : string;
  cm_originalValue : string;
  cm_correctedValue : string;
  cm_fieldName : string;
  cm_vendorName : option string;
  cm_confidenceScore : number;
  cm_approvalCount : number;
  cm_rejectionCount : number;
  cm_createdAt : Date
}.

Inductive DecisionType : Type := AutoAccept | AutoCorrect | HumanReview.

Definition DecisionType_to_string (a : DecisionType) : string :=
  match a with
  | AutoAccept => "auto-accept"
  | AutoCorrect => "auto-correct"
  | HumanReview => "human-review"
  end.

Global Instance DecisionType_eq_dec : EqDecision DecisionType.
Proof. solve_decision. Defined.

Record ResolutionMemory := {
  rm_id : string;
  rm_invoicePattern : string;
  rm_decision : DecisionType;
  rm_confidenceScore : number;
  rm_outcomeSuccess : bool;
  rm_reasoning : string;
  rm_createdAt : Date
}.

Record MemoryInsights := {
  vendorPatterns : list VendorMemory;
  suggestedCorrections : list CorrectionMemory;
  historicalResolutions : list ResolutionMemory;
  overallConfidence : number;
  mi_reasoning : list string
}.

(** ** engines/DecisionEngine *)

Record ThresholdAnalysis := {
  autoAcceptThreshold : number;
  autoCorrectThreshold : number;
  humanReviewThreshold : number;
  actualConfidence : number;
  exceedsAutoAccept : bool;
  exceedsAutoCorrect : bool
}.

Record ProcessingDecision := {
  action : DecisionType;
  pd_confidenceScore : number;
  pd_reasoning : string;
  pd_appliedCorrections : list ProposedCorrection;
  memorySourceIds : list string;
  safetyConstraints : list string;
  thresholdAnalysis : ThresholdAnalysis
}.

Record DecisionThresholds := {
  autoAccept : number;
  autoCorrect : number;
  humanReview : number
}.

(** [Partial<DecisionThresholds>]: the constructor's optional overrides. *)
Record PartialThresholds := {
  p_autoAccept : option number;
  p_autoCorrect : option number;
  p_humanReview : option number
}.

Definition no_overrides : PartialThresholds :=
  {| p_autoAccept := None; p_autoCorrect := None; p_humanReview := None |}.

(** The engine's only field is [thresholds]. *)
Record DecisionEngine := { thresholds : DecisionThresholds }.

Definition DecisionEngine_new (overrides : PartialThresholds) : DecisionEngine :=
  {| thresholds :=
       {| autoAccept := default (Fin 0.85) (p_autoAccept overrides);
          autoCorrect := default (Fin 0.65) (p_autoCorrect overrides);
          humanReview := default (Fin 0.65) (p_humanReview overrides) |} |}.

(** [new DecisionEngine()]: the thresholds of the design. *)
Definition defaultDecisionEngine : DecisionEngine := DecisionEngine_new no_overrides.

Definition criticalFields : list string := ["amount"; "vendorName"; "invoiceNumber"].

Definition blockingConstraints : list string :=
  ["too-many-corrections"; "critical-field-protection"; "large-value-change";
   "overall-low-confidence"; "error-fallback"].

Section DecisionEngineMethods.
Variable this : DecisionEngine.

Definition evaluateConfidenceThresholds (confidenceScore : number) : ThresholdAnalysis :=
  {| autoAcceptThreshold := autoAccept (thresholds this);
     autoCorrectThreshold := autoCorrect (thresholds this);
     humanReviewThreshold := humanReview (thresholds this);
     actualConfidence := confidenceScore;
     exceedsAutoAccept := num_ge confidenceScore (autoAccept (thresholds this));
     exceedsAutoCorrect := num_ge confidenceScore (autoCorrect (thresholds this)) |}.

(** The predicate of the [largeValueChanges] filter: the field is amount
    and both values are numbers ([typeof ... === 'number']). *)
Definition isLargeValueChange (c : ProposedCorrection) : bool :=
  match originalValue c, correctedValue c with
  | ANum o, ANum n =>
      if bool_decide (field c = "amount") then
        let changePercent := num_div (num_abs (num_sub n o)) o in
        num_gt changePercent (Fin 0.2)
      else false
  | _, _ => false
  end.

Definition applySafetyConstraints
    (proposedCorrections : list ProposedCorrection) (confidenceScore : number)
  : list string :=
  let constraints0 : list string := [] in
  let lowConfidenceCorrections :=
    List.filter (fun c => num_lt (confidence c) (autoCorrect (thresholds this)))
           proposedCorrections in
  let constraints1 :=
    if (0 <? length lowConfidenceCorrections)%nat
    then constraints0 ++ ["low-confidence-corrections-blocked"] else constraints0 in
  let highConfidenceCorrections :=
    List.filter (fun c => num_ge (confidence c) (autoAccept (thresholds this)))
           proposedCorrections in
  let constraints2 :=
    if (5 <? length highConfidenceCorrections)%nat
    then constraints1 ++ ["too-many-corrections"] else constraints1 in
  let criticalFieldCorrections :=
    List.filter (fun c => includes criticalFields (field c) &&
                     num_lt (confidence c) (autoAccept (thresholds this)))
           proposedCorrections in
  let constraints3 :=
    if (0 <? length criticalFieldCorrections)%nat
    then constraints2 ++ ["critical-field-protection"] else constraints2 in
  let largeValueChanges :=
    List.filter (fun c => isLargeValueChange c) proposedCorrections in
  let constraints4 :=
    if (0 <? length largeValueChanges)%nat
    then constraints3 ++ ["large-value-change"] else constraints3 in
  if num_lt confidenceScore (humanReview (thresholds this))
  then constraints4 ++ ["overall-low-confidence"] else constraints4.

Definition determineAction
    (analysis : ThresholdAnalysis) (constraints : list string)
    (proposedCorrections : list ProposedCorrection) : DecisionType :=
  if existsb (fun constraint => includes blockingConstraints constraint) constraints
  then HumanReview
  else
    let autoAccepted :=
      if exceedsAutoAccept analysis then
        let safeCorrections :=
          List.filter (fun c => num_ge (confidence c) (autoAccept (thresholds this)) &&
                           negb (includes criticalFields (field c)))
                 proposedCorrections in
        (length proposedCorrections =? 0)%nat ||
        (0 <? length safeCorrections)%nat
      else false in
    if autoAccepted then AutoAccept
    else if exceedsAutoCorrect analysis then AutoCorrect
    else HumanReview.

Definition filterCorrectionsForAction
    (act : DecisionType) (proposedCorrections : list ProposedCorrection)
    (constraints : list string) : list ProposedCorrection :=
  match act with
  | AutoAccept =>
      List.filter (fun c => num_ge (confidence c) (autoAccept (thresholds this)) &&
                       negb (includes criticalFields (field c)) &&
                       negb (includes constraints "low-confidence-corrections-blocked"))
             proposedCorrections
  | AutoCorrect =>
      List.filter (fun c => num_ge (confidence c) (autoCorrect (thresholds this)) &&
                       negb (includes constraints "critical-field-protection") &&
                       negb (includes constraints "large-value-change"))
             proposedCorrections
  | HumanReview => []
  end.

(** [Array.from(new Set(ids))]: first occurrences, in insertion order. *)
Fixpoint dedup_first (seen l : list string) : list string :=
  match l with
  | [] => []
  | x :: xs =>
      if bool_decide (x ∈ seen) then dedup_first seen xs
      else x :: dedup_first (x :: seen) xs
  end.

Definition extractMemorySourceIds
    (insights : MemoryInsights) (corrections : list ProposedCorrection) : list string :=
  dedup_first []
    (map vm_id (vendorPatterns insights) ++
     map cm_id (suggestedCorrections insights) ++
     map rm_id (historicalResolutions insights) ++
     map memorySourceId corrections).

Definition percent (x : number) (digits : nat) : string :=
  toFixed (num_mul x (Fin 100)) digits.

Definition generateExplanation
    (act : DecisionType) (confidenceScore : number) (analysis : ThresholdAnalysis)
    (constraints : list string) (appliedCorrections : list ProposedCorrection)
    (insights : MemoryInsights) (proposedCorrections : list ProposedCorrection)
  : string :=
  let part1 :=
    ["Confidence Analysis: Overall confidence score is " +:+ percent confidenceScore 1 +:+
     "% (Auto-accept: ≥" +:+ percent (autoAcceptThreshold analysis) 0 +:+
     "%, Auto-correct: ≥" +:+ percent (autoCorrectThreshold analysis) 0 +:+
     "%, Human review: <" +:+ percent (humanReviewThreshold analysis) 0 +:+ "%)"] in
  let part2 :=
    ["Memory Insights: Found " +:+ pretty (length (vendorPatterns insights)) +:+
     " vendor pattern(s), " +:+ pretty (length (suggestedCorrections insights)) +:+
     " correction suggestion(s), " +:+ pretty (length (historicalResolutions insights)) +:+
     " historical resolution(s)"] in
  let part3 :=
    if exceedsAutoAccept analysis then
      ["✓ Exceeds auto-accept threshold (" +:+
       percent (autoAcceptThreshold analysis) 0 +:+ "%)"]
    else if exceedsAutoCorrect analysis then
      ["✓ Exceeds auto-correct threshold (" +:+
       percent (autoCorrectThreshold analysis) 0 +:+ "%)"]
    else ["✗ Below auto-correct threshold, requires human review"] in
  let part4 :=
    if (0 <? length constraints)%nat
    then ["Safety Constraints Applied: " +:+ join ", " constraints] else [] in
  let part5 :=
    if (0 <? length proposedCorrections)%nat then
      let highConfidenceCorrections :=
        List.filter (fun c => num_ge (confidence c) (autoAccept (thresholds this)))
               proposedCorrections in
      let mediumConfidenceCorrections :=
        List.filter (fun c => num_ge (confidence c) (autoCorrect (thresholds this)) &&
                         num_lt (confidence c) (autoAccept (thresholds this)))
               proposedCorrections in
      ["Corrections: " +:+ pretty (length proposedCorrections) +:+ " proposed (" +:+
       pretty (length highConfidenceCorrections) +:+ " high-confidence, " +:+
       pretty (length mediumConfidenceCorrections) +:+ " medium-confidence)"]
    else [] in
  let part6 :=
    match act with
    | AutoAccept =>
        ["Decision: AUTO-ACCEPT - High confidence (" +:+ percent confidenceScore 1 +:+
         "%) with " +:+ pretty (length appliedCorrections) +:+
         " applied correction(s). Processing automatically."]
    | AutoCorrect =>
        ["Decision: AUTO-CORRECT - Medium confidence (" +:+ percent confidenceScore 1 +:+
         "%) with " +:+ pretty (length appliedCorrections) +:+
         " proposed correction(s). Corrections applied, human review recommended."]
    | HumanReview =>
        ["Decision: HUMAN-REVIEW - Low confidence (" +:+ percent confidenceScore 1 +:+
         "%) or safety constraints require human oversight."]
    end in
  let part7 :=
    if (0 <? length (mi_reasoning insights))%nat
    then ["Memory Analysis: " +:+ join "; " (mi_reasoning insights)] else [] in
  join " | " (part1 ++ part2 ++ part3 ++ part4 ++ part5 ++ part6 ++ part7).

(** The body of the [try] block of [makeProcessingDecision].  No statement
    of it throws on values of the declared types, so it always returns. *)
Definition makeProcessingDecision_try
    (_invoice : Invoice) (insights : MemoryInsights)
    (proposedCorrections : list ProposedCorrection) : result ProcessingDecision :=
  let confidenceScore := overallConfidence insights in
  let sourceIds := extractMemorySourceIds insights proposedCorrections in
  let analysis := evaluateConfidenceThresholds confidenceScore in
  let constraints := applySafetyConstraints proposedCorrections confidenceScore in
  let act := determineAction analysis constraints proposedCorrections in
  let appliedCorrections :=
    filterCorrectionsForAction act proposedCorrections constraints in
  let reasoning :=
    generateExplanation act confidenceScore analysis constraints appliedCorrections
                        insights proposedCorrections in
  Ok {| action := act;
        pd_confidenceScore := confidenceScore;
        pd_reasoning := reasoning;
        pd_appliedCorrections := appliedCorrections;
        memorySourceIds := sourceIds;
        safetyConstraints := constraints;
        thresholdAnalysis := analysis |}.

(** The [catch] block: fall back to human review. *)
Definition makeProcessingDecision_catch (error : string) : ProcessingDecision :=
  {| action := HumanReview;
     pd_confidenceScore := Fin 0;
     pd_reasoning := "Error in decision processing: " +:+ errorToString error +:+
                     ". Defaulting to human review for safety.";
     pd_appliedCorrections := [];
     memorySourceIds := [];
     safetyConstraints := ["error-fallback"];
     thresholdAnalysis :=
       {| autoAcceptThreshold := autoAccept (thresholds this);
          autoCorrectThreshold := autoCorrect (thresholds this);
          humanReviewThreshold := humanReview (thresholds this);
          actualConfidence := Fin 0;
          exceedsAutoAccept := false;
          exceedsAutoCorrect := false |} |}.

Definition makeProcessingDecision
    (_invoice : Invoice) (insights : MemoryInsights)
    (proposedCorrections : list ProposedCorrection) : ProcessingDecision :=
  match makeProcessingDecision_try _invoice insights proposedCorrections with
  | Ok decision => decision
  | Err error => makeProcessingDecision_catch error
  end.

End DecisionEngineMethods.

(** ** engines/RecallEngine: the computations on retrieved memory *)

Definition getAmountRange (amount : number) : string :=
  if num_lt amount (Fin 100) then "small"
  else if num_lt amount (Fin 1000) then "medium"
  else if num_lt amount (Fin 10000) then "large"
  else "very-large".

Definition calculateOverallConfidence
    (vendorPatterns : list VendorMemory) (corrections : list CorrectionMemory)
    (resolutions : list ResolutionMemory) : number :=
  let totalWeight := Fin 0 in
  let weightedSum := Fin 0 in
  (* Vendor patterns contribute 50% of confidence *)
  let '(weightedSum, totalWeight) :=
    if (0 <? length vendorPatterns)%nat then
      let vendorConfidence :=
        num_div
          (fold_left (fun sum pattern =>
                        num_add sum (num_mul (vm_confidenceScore pattern)
                                             (vm_usageCount pattern)))
                     vendorPatterns (Fin 0))
          (fold_left (fun sum pattern => num_add sum (vm_usageCount pattern))
                     vendorPatterns (Fin 1)) in
      (num_add weightedSum (num_mul vendorConfidence (Fin 0.5)),
       num_add totalWeight (Fin 0.5))
    else (weightedSum, totalWeight) in
  (* Correction patterns contribute 30% of confidence *)
  let '(weightedSum, totalWeight) :=
    if (0 <? length corrections)%nat then
      let correctionConfidence :=
        num_div
          (fold_left (fun sum correction => num_add sum (cm_confidenceScore correction))
                     corrections (Fin 0))
          (of_nat (length corrections)) in
      (num_add weightedSum (num_mul correctionConfidence (Fin 0.3)),
       num_add totalWeight (Fin 0.3))
    else (weightedSum, totalWeight) in
  (* Resolution patterns contribute 20% of confidence *)
  let '(weightedSum, totalWeight) :=
    if (0 <? length resolutions)%nat then
      let resolutionConfidence :=
        num_div
          (fold_left (fun sum resolution => num_add sum (rm_confidenceScore resolution))
                     resolutions (Fin 0))
          (of_nat (length resolutions)) in
      (num_add weightedSum (num_mul resolutionConfidence (Fin 0.2)),
       num_add totalWeight (Fin 0.2))
    else (weightedSum, totalWeight) in
  (* Return weighted average, or 0.1 if no memory available *)
  if num_gt totalWeight (Fin 0)
  then num_min (Fin 1) (num_div weightedSum totalWeight)
  else Fin 0.1.

(** [generateInsightReasoning]; the total usage, a sum of integers, is
    printed without decimals. *)
Definition generateInsightReasoning
    (vendorPatterns : list VendorMemory) (corrections : list CorrectionMemory)
    (resolutions : list ResolutionMemory) (overall : number) : list string :=
  let r1 :=
    if (0 <? length vendorPatterns)%nat then
      let avgConfidence :=
        num_div (fold_left (fun sum p => num_add sum (vm_confidenceScore p))
                           vendorPatterns (Fin 0))
                (of_nat (length vendorPatterns)) in
      let totalUsage :=
        fold_left (fun sum p => num_add sum (vm_usageCount p)) vendorPatterns (Fin 0) in
      ["Found " +:+ pretty (length vendorPatterns) +:+
       " vendor pattern(s) with average confidence " +:+ toFixed avgConfidence 2 +:+
       " and total usage count " +:+ toFixed totalUsage 0]
    else ["No vendor-specific patterns found - using default processing"] in
  let r2 :=
    if (0 <? length corrections)%nat then
      let highConfidenceCorrections :=
        length (List.filter (fun c => num_ge (cm_confidenceScore c) (Fin 0.7))
                            corrections) in
      ["Found " +:+ pretty (length corrections) +:+ " relevant correction(s), " +:+
       pretty highConfidenceCorrections +:+ " with high confidence (≥0.7)"]
    else ["No relevant correction patterns found"] in
  let r3 :=
    if (0 <? length resolutions)%nat then
      let successfulResolutions :=
        length (List.filter (fun r => rm_outcomeSuccess r) resolutions) in
      ["Found " +:+ pretty (length resolutions) +:+ " similar resolution(s), " +:+
       pretty successfulResolutions +:+ " were successful"]
    else ["No similar resolution patterns found"] in
  let r4 :=
    if num_ge overall (Fin 0.85) then ["High confidence - suitable for auto-processing"]
    else if num_ge overall (Fin 0.65) then ["Medium confidence - corrections may be proposed"]
    else ["Low confidence - human review recommended"] in
  r1 ++ r2 ++ r3 ++ r4.

(** The part of [getConfidenceWeightedInsights] that follows the three
    retrievals: the insights computed from what Recall found. *)
Definition insightsFromMemory
    (vendorPatterns : list VendorMemory) (corrections : list CorrectionMemory)
    (resolutions : list ResolutionMemory) : MemoryInsights :=
  let overall := calculateOverallConfidence vendorPatterns corrections resolutions in
  let reasoning :=
    generateInsightReasoning vendorPatterns corrections resolutions overall in
  {| vendorPatterns := vendorPatterns;
     suggestedCorrections := corrections;
     historicalResolutions := resolutions;
     overallConfidence := overall;
     mi_reasoning := reasoning |}.

(** ** Services of the JavaScript runtime

    The built-ins below are not part of the repository; the engines that
    call them are parameterised by an instance of this class. *)

Class JsRuntime := {
  (** [s.replace(new RegExp(pattern, 'g'), replacement)] as
      [regexReplaceAll pattern replacement s]; [None] when the pattern
      does not compile. *)
  regexReplaceAll : string -> string -> string -> option string;
  (** [String(n)] on a number. *)
  numberToString : number -> string;
  (** [Number(s)] on a string. *)
  stringToNumber : string -> number;
  (** [new Date(s)] on a string. *)
  dateParse : string -> Date;
  (** [d.toISOString()] on a valid time value. *)
  toISOString : Z -> string;
  (** [String(d)] on a valid time value. *)
  dateToString : Z -> string
}.

(** ** interfaces/Audit.ts, interfaces/Output.ts *)

Record AuditLog := {
  al_id : string;
  al_operation : string;
  al_entityType : string;
  al_entityId : string;
  al_beforeState : option any;
  al_afterState : option any;
  al_reasoning : string;
  al_confidenceScore : option number;
  al_timestamp : Date
}.

Record AppliedCorrectionOut := {
  ac_field : string;
  ac_originalValue : any;
  ac_correctedValue : any;
  ac_confidence : number
}.

Record MemoryInsightsOut := {
  vendorPatternsUsed : number;
  correctionsApplied : number;
  historicalAccuracy : number
}.

Record AuditTrailEntry := {
  operationId : string;
  timestamp : string;
  at_reasoning : string
}.

Record InvoiceProcessingResult := {
  invoiceId : string;
  decision : DecisionType;
  confidenceScore : number;
  reasoning : string;
  appliedCorrections : list AppliedCorrectionOut;
  memoryInsights : MemoryInsightsOut;
  auditTrail : list AuditTrailEntry
}.

Record OutputValidationResult := {
  isValid : bool;
  errors : list string;
  warnings : list string
}.

(** ** engines/OutputEngine *)

(** The characters of [/[\u0000-\u001F\u007F-\u009F]/]. *)
Definition isControlChar (c : ascii) : bool :=
  let n := nat_of_ascii c in
  (n <=? 31)%nat || ((127 <=? n)%nat && (n <=? 159)%nat).

Fixpoint removeChars (drop : ascii -> bool) (s : string) : string :=
  match s with
  | EmptyString => EmptyString
  | String c rest =>
      if drop c then removeChars drop rest else String c (removeChars drop rest)
  end.

Fixpoint mapChars (f : ascii -> ascii) (s : string) : string :=
  match s with
  | EmptyString => EmptyString
  | String c rest => String (f c) (mapChars f rest)
  end.

Definition doubleQuote : ascii := ascii_of_nat 34.
Definition singleQuote : ascii := ascii_of_nat 39.

Definition sanitizeErrorMessage (message : string) : string :=
  mapChars (fun c => if bool_decide (c = doubleQuote) then singleQuote else c)
           (substring 0 200 (removeChars isControlChar message)).

Definition validateConfidenceScore (score : number) : number :=
  if num_isNaN score then Fin 0
  else num_max (Fin 0) (num_min (Fin 1) score).

Definition calculateMemoryInsights
    (insights : MemoryInsights) (applied : list ProposedCorrection)
  : MemoryInsightsOut :=
  let totalPatterns :=
    (length (vendorPatterns insights) + length (suggestedCorrections insights) +
     length (historicalResolutions insights))%nat in
  let successfulResolutions :=
    length (List.filter (fun r => rm_outcomeSuccess r) (historicalResolutions insights)) in
  let accuracy :=
    if (0 <? totalPatterns)%nat then
      num_or (num_div (of_nat successfulResolutions)
                      (of_nat (length (historicalResolutions insights))))
             (Fin 0)
    else Fin 0 in
  {| vendorPatternsUsed := of_nat (length (vendorPatterns insights));
     correctionsApplied := of_nat (length applied);
     historicalAccuracy := validateConfidenceScore accuracy |}.

Definition DecisionType_upper (a : DecisionType) : string :=
  match a with
  | AutoAccept => "AUTO-ACCEPT"
  | AutoCorrect => "AUTO-CORRECT"
  | HumanReview => "HUMAN-REVIEW"
  end.

Definition createStructuredReasoning
    (d : ProcessingDecision) (insights : MemoryInsights) : string :=
  let reasoningParts :=
    ["Decision: " +:+ DecisionType_upper (action d);
     "Confidence: " +:+ percent (pd_confidenceScore d) 1 +:+ "%";
     "Memory Sources: " +:+ pretty (length (memorySourceIds d)) +:+ " pattern(s)";
     "Applied Corrections: " +:+ pretty (length (pd_appliedCorrections d));
     pd_reasoning d] in
  let reasoningParts :=
    if (0 <? length (safetyConstraints d))%nat
    then reasoningParts ++ ["Safety Constraints: " +:+ join ", " (safetyConstraints d)]
    else reasoningParts in
  let reasoningParts :=
    if (0 <? length (mi_reasoning insights))%nat
    then reasoningParts ++ ["Memory Analysis: " +:+ join "; " (mi_reasoning insights)]
    else reasoningParts in
  join " | " reasoningParts.

Section OutputEngine.
Context {rt : JsRuntime}.

(** The clock reading of the call: [Date.now()] and [new Date()]. *)
Variable now : Z.

(** [sanitizeValue] on the values of [any]; converting an invalid Date
    throws a RangeError.  The branch of the other objects and the last
    [return value] are in [AnyValue.sanitizeValue]. *)
Definition sanitizeValue (value : any) : result any :=
  match value with
  | ANull | AUndefined => Ok ANull
  | AStr s => Ok (AStr (substring 0 1000 (removeChars isControlChar s)))
  | ANum n => Ok (if num_isNaN n then ANull else ANum n)
  | ADate (Some t) => Ok (AStr (toISOString t))
  | ADate None => Err "Invalid time value"
  | ABool b => Ok (ABool b)
  end.

Definition createErrorOutput (id : string) (errorMessage : string)
  : InvoiceProcessingResult :=
  {| invoiceId := if bool_decide (id = "") then "unknown" else id;
     decision := HumanReview;
     confidenceScore := Fin 0;
     reasoning := "Error occurred during processing: " +:+
                  sanitizeErrorMessage errorMessage +:+
                  ". Defaulting to human review for safety.";
     appliedCorrections := [];
     memoryInsights :=
       {| vendorPatternsUsed := Fin 0;
          correctionsApplied := Fin 0;
          historicalAccuracy := Fin 0 |};
     auditTrail :=
       [{| operationId := "error_" +:+ pretty now;
           timestamp := toISOString now;
           at_reasoning := "Processing error: " +:+ sanitizeErrorMessage errorMessage |}] |}.

(** [formatAuditTrail]; [toISOString] on an invalid Date throws. *)
Definition formatAuditTrail (auditLogs : list AuditLog) (d : ProcessingDecision)
  : result (list AuditTrailEntry) :=
  result_bind
    (result_mapM
       (fun log =>
          match al_timestamp log with
          | Some t => Ok {| operationId := al_id log;
                            timestamp := toISOString t;
                            at_reasoning := al_reasoning log |}
          | None => Err "Invalid time value"
          end)
       auditLogs)
    (fun trail =>
       Ok (trail ++
           [{| operationId := "decision_" +:+ pretty now;
               timestamp := toISOString now;
               at_reasoning := "Decision made: " +:+ DecisionType_to_string (action d) +:+
                               " with confidence " +:+ percent (pd_confidenceScore d) 1 +:+
                               "%" |}])).

Definition outOfUnit (x : number) : bool := num_lt x (Fin 0) || num_gt x (Fin 1).

Definition validateCorrection (index : nat) (c : AppliedCorrectionOut) : list string :=
  (if bool_decide (ac_field c = "")
   then ["appliedCorrections[" +:+ pretty index +:+ "].field must be a non-empty string"]
   else []) ++
  (if outOfUnit (ac_confidence c)
   then ["appliedCorrections[" +:+ pretty index +:+
         "].confidence must be a number between 0 and 1"]
   else []).

Definition validateAuditEntry (index : nat) (e : AuditTrailEntry) : list string :=
  (if bool_decide (operationId e = "")
   then ["auditTrail[" +:+ pretty index +:+ "].operationId must be a non-empty string"]
   else []) ++
  (if bool_decide (timestamp e = "")
   then ["auditTrail[" +:+ pretty index +:+ "].timestamp must be a non-empty string"]
   else match dateParse (timestamp e) with
        | None => ["auditTrail[" +:+ pretty index +:+
                   "].timestamp must be a valid ISO timestamp"]
        | Some _ => []
        end) ++
  (if bool_decide (at_reasoning e = "")
   then ["auditTrail[" +:+ pretty index +:+ "].reasoning must be a non-empty string"]
   else []).

(** [validateOutput].  The [typeof] and [Array.isArray] tests hold of every
    value of the record type and are left out; the decision is one of the
    three actions by its type. *)
Definition validateOutput (r : InvoiceProcessingResult) : OutputValidationResult :=
  let errs :=
    (if bool_decide (invoiceId r = "")
     then ["invoiceId must be a non-empty string"] else []) ++
    (if outOfUnit (confidenceScore r)
     then ["confidenceScore must be a number between 0 and 1"] else []) ++
    (if bool_decide (reasoning r = "")
     then ["reasoning must be a non-empty string"] else []) ++
    concat (imap validateCorrection (appliedCorrections r)) ++
    (if num_lt (vendorPatternsUsed (memoryInsights r)) (Fin 0)
     then ["memoryInsights.vendorPatternsUsed must be a non-negative number"] else []) ++
    (if num_lt (correctionsApplied (memoryInsights r)) (Fin 0)
     then ["memoryInsights.correctionsApplied must be a non-negative number"] else []) ++
    (if outOfUnit (historicalAccuracy (memoryInsights r))
     then ["memoryInsights.historicalAccuracy must be a number between 0 and 1"]
     else []) ++
    concat (imap validateAuditEntry (auditTrail r)) in
  let warns :=
    (if (0 <? length (appliedCorrections r))%nat &&
        bool_decide (decision r = HumanReview)
     then ["Applied corrections present but decision is human-review"] else []) ++
    (if num_gt (confidenceScore r) (Fin 0.8) && bool_decide (decision r = HumanReview)
     then ["High confidence score but decision is human-review"] else []) in
  {| isValid := (length errs =? 0)%nat; errors := errs; warnings := warns |}.

(** The body of the [try] block of [createInvoiceProcessingResult]. *)
Definition createInvoiceProcessingResult_try
    (invoice : Invoice) (d : ProcessingDecision) (insights : MemoryInsights)
    (auditLogs : list AuditLog) : result InvoiceProcessingResult :=
  let validatedConfidenceScore := validateConfidenceScore (pd_confidenceScore d) in
  result_bind
    (result_mapM
       (fun correction =>
          result_bind (sanitizeValue (originalValue correction)) (fun o =>
          result_bind (sanitizeValue (correctedValue correction)) (fun c =>
          Ok {| ac_field := field correction;
                ac_originalValue := o;
                ac_correctedValue := c;
                ac_confidence := validateConfidenceScore (confidence correction) |})))
       (pd_appliedCorrections d))
    (fun applied =>
  let insightsOut := calculateMemoryInsights insights (pd_appliedCorrections d) in
  result_bind (formatAuditTrail auditLogs d) (fun trail =>
  let structuredReasoning := createStructuredReasoning d insights in
  let r :=
    {| invoiceId := inv_id invoice;
       decision := action d;
       confidenceScore := validatedConfidenceScore;
       reasoning := structuredReasoning;
       appliedCorrections := applied;
       memoryInsights := insightsOut;
       auditTrail := trail |} in
  let validation := validateOutput r in
  if negb (isValid validation)
  then Err ("Output validation failed: " +:+ join ", " (errors validation))
  else Ok r)).

(** [createInvoiceProcessingResult]: the [catch] block turns every error
    of the [try] block into the error output. *)
Definition createInvoiceProcessingResult
    (invoice : Invoice) (d : ProcessingDecision) (insights : MemoryInsights)
    (auditLogs : list AuditLog) : InvoiceProcessingResult :=
  match createInvoiceProcessingResult_try invoice d insights auditLogs with
  | Ok r => r
  | Err errorMessage => createErrorOutput (inv_id invoice) errorMessage
  end.

End OutputEngine.

(** ** [sanitizeValue] on every value

    The type [any] has the primitive values and the Dates.  It leaves out
    the objects that are not Dates, arrays among them, and the functions,
    symbols and bigints.  What [JSON.parse(JSON.stringify(o))] and
    [String(o)] make of an object is the runtime's and is taken as given;
    either may throw. *)
Module AnyValue.
Section SanitizeValue.
Context {rt : JsRuntime}.
Variable object : Type.
Variable other : Type.

Inductive value : Type :=
| Primitive (v : any)
| Object (o : object)
| Other (x : other).

(** [JSON.parse(JSON.stringify(o))], [None] when either throws. *)
Variable jsonCopy : object -> option value.

(** [String(o)]. *)
Variable toString : object -> result string.

Definition sanitizeValue (v : value) : result value :=
  match v with
  | Primitive p => result_bind (sanitizeValue p) (fun clean => Ok (Primitive clean))
  | Object o =>
      match jsonCopy o with
      | Some copy => Ok copy
      | None =>
          result_bind (toString o) (fun s => Ok (Primitive (AStr (substring 0 100 s))))
      end
  | Other x => Ok (Other x)
  end.

End SanitizeValue.

Arguments Primitive {object other} v.
Arguments Object {object other} o.
Arguments Other {object other} x.
Arguments sanitizeValue {rt object other} jsonCopy toString v.

End AnyValue.

(** ** engines/ApplyEngine: string similarity *)

(** The matrix of [levenshteinDistance] is an array of rows, each row an
    array of its own ([map] builds a fresh row per index).  [matrix[j][i]]
    is [matrixGet matrix j i]; [matrix[j][i] = v] is [matrixSet matrix j i v].
    Every index the function uses is in range. *)
Definition matrixGet (matrix : list (list nat)) (j i : nat) : nat :=
  default 0 (matrix !! j ≫= (fun row => row !! i)).

Definition matrixSet (matrix : list (list nat)) (j i v : nat) : list (list nat) :=
  alter (fun row => <[i := v]> row) j matrix.

Section Levenshtein.
Context {A : Type} `{EqDecision A}.

(** [levenshteinDistance] on the code units of the two strings. *)
Definition levenshteinDistance (str1 str2 : list A) : nat :=
  let matrix : list (list nat) :=
    replicate (length str2 + 1) (replicate (length str1 + 1) 0) in
  let matrix :=
    fold_left (fun matrix i => matrixSet matrix 0 i i)
              (seq 0 (length str1 + 1)) matrix in
  let matrix :=
    fold_left (fun matrix j => matrixSet matrix j 0 j)
              (seq 0 (length str2 + 1)) matrix in
  let matrix :=
    fold_left
      (fun matrix j =>
         fold_left
           (fun matrix i =>
              let indicator :=
                if decide (str1 !! (i - 1) = str2 !! (j - 1)) then 0 else 1 in
              matrixSet matrix j i
                (Nat.min (Nat.min (matrixGet matrix j (i - 1) + 1)
                                  (matrixGet matrix (j - 1) i + 1))
                         (matrixGet matrix (j - 1) (i - 1) + indicator)))
           (seq 1 (length str1)) matrix)
      (seq 1 (length str2)) matrix in
  matrixGet matrix (length str2) (length str1).

(** The standard edit distance.  One edit inserts, deletes or substitutes
    a single character anywhere in the string; a script is a sequence of
    edits; the distance is the length of a shortest script. *)
Inductive edit_step : list A -> list A -> Prop :=
| step_insert p b q : edit_step (p ++ q) (p ++ b :: q)
| step_delete p a q : edit_step (p ++ a :: q) (p ++ q)
| step_substitute p a b q : edit_step (p ++ a :: q) (p ++ b :: q).

Inductive edit_script : list A -> list A -> nat -> Prop :=
| script_done s : edit_script s s 0
| script_step s t u n : edit_step s t -> edit_script t u n -> edit_script s u (S n).

Definition is_edit_distance (s t : list A) (d : nat) : Prop :=
  edit_script s t d /\ forall n, edit_script s t n -> d <= n.

(** Alignments: [edits s t n] aligns [s] with [t] from left to right at
    the cost of [n] insertions, deletions and substitutions. *)
Inductive edits : list A -> list A -> nat -> Prop :=
| edits_nil : edits [] [] 0
| edits_keep a s t n : edits s t n -> edits (a :: s) (a :: t) n
| edits_substitute a b s t n : edits s t n -> edits (a :: s) (b :: t) (S n)
| edits_delete a s t n : edits s t n -> edits (a :: s) t (S n)
| edits_insert b s t n : edits s t n -> edits s (b :: t) (S n).

(** The textbook recurrence of the distance, on the heads of the lists. *)
Fixpoint lev (s t : list A) : nat :=
  match s with
  | [] => length t
  | a :: s' =>
      (fix lev_a (t : list A) : nat :=
         match t with
         | [] => length s
         | b :: t' =>
             Nat.min (Nat.min (lev s' t + 1) (lev_a t' + 1))
                     (lev s' t' + (if decide (a = b) then 0 else 1))
         end) t
  end.

End Levenshtein.

Definition chars (s : string) : list ascii := list_ascii_of_string s.

Definition calculateStringSimilarity (str1 str2 : string) : number :=
  let longer :=
    if (String.length str2 <? String.length str1)%nat then str1 else str2 in
  let shorter :=
    if (String.length str2 <? String.length str1)%nat then str2 else str1 in
  if (String.length longer =? 0)%nat then Fin 1
  else
    let editDistance := levenshteinDistance (chars longer) (chars shorter) in
    num_div (num_sub (of_nat (String.length longer)) (of_nat editDistance))
            (of_nat (String.length longer)).

(** ** models/MemoryStore: the relational store

    A table is the list of its rows.  A DECIMAL(3,2) column holds an
    integer number of hundredths; PostgreSQL computes on such values
    exactly.  Timestamps are time values.  Identifiers of audit rows and
    learning events are built from the clock and a counter of the draws of
    [Math.random]; a clash of primary keys is not modelled. *)

Record VendorRow := {
  vr_id : string;
  vr_vendor_name : string;
  vr_field_mappings : list (string * string);
  vr_normalization_rules : list NormalizationRule;
  vr_confidence_score : Z;
  vr_usage_count : Z;
  vr_last_used : Z;
  vr_created_at : Z
}.

Record CorrectionRow := {
  cr_id : string;
  cr_original_value : string;
  cr_corrected_value : string;
  cr_field_name : string;
  cr_vendor_name : option string;
  cr_confidence_score : Z;
  cr_approval_count : Z;
  cr_rejection_count : Z;
  cr_created_at : Z
}.

Record ResolutionRow := {
  rr_id : string;
  rr_invoice_pattern : string;
  rr_decision : DecisionType;
  rr_confidence_score : Z;
  rr_outcome_success : bool;
  rr_reasoning : string;
  rr_created_at : Z
}.

(** The JSON snapshots the modelled operations store in an audit row. *)
Inductive Snapshot : Type :=
| SnapCorrectionRow (row : CorrectionRow).

Record AuditRow := {
  ar_id : string;
  ar_operation : string;
  ar_entity_type : string;
  ar_entity_id : string;
  ar_before_state : option Snapshot;
  ar_after_state : option Snapshot;
  ar_reasoning : string;
  ar_confidence_score : option Z;
  ar_timestamp : Z
}.

Record Database := {
  vendor_memory : list VendorRow;
  correction_memory : list CorrectionRow;
  resolution_memory : list ResolutionRow;
  audit_logs : list AuditRow
}.

(** The store object shared by the engines, with the environment its
    methods read: [pool] is [this.pool !== null]. *)
Record World := {
  pool : bool;
  db : Database;
  clock : Z;
  draws : nat;
  console : list string
}.

Definition set_db (d : Database) (w : World) : World :=
  {| pool := pool w; db := d; clock := clock w; draws := draws w;
     console := console w |}.

Definition set_draws (n : nat) (w : World) : World :=
  {| pool := pool w; db := db w; clock := clock w; draws := n;
     console := console w |}.

Definition set_console (c : list string) (w : World) : World :=
  {| pool := pool w; db := db w; clock := clock w; draws := draws w;
     console := c |}.

Definition set_correction_memory (rows : list CorrectionRow) (d : Database) : Database :=
  {| vendor_memory := vendor_memory d; correction_memory := rows;
     resolution_memory := resolution_memory d; audit_logs := audit_logs d |}.

Definition set_vendor_memory (rows : list VendorRow) (d : Database) : Database :=
  {| vendor_memory := rows; correction_memory := correction_memory d;
     resolution_memory := resolution_memory d; audit_logs := audit_logs d |}.

Definition set_audit_logs (rows : list AuditRow) (d : Database) : Database :=
  {| vendor_memory := vendor_memory d; correction_memory := correction_memory d;
     resolution_memory := resolution_memory d; audit_logs := rows |}.

(** An asynchronous method of the store or of an engine: it may change
    the world and either returns or throws. *)
Definition M (A : Type) : Type := World -> World * result A.

Definition M_ret {A} (a : A) : M A := fun w => (w, Ok a).
Definition M_throw {A} (e : string) : M A := fun w => (w, Err e).
Definition M_bind {A B} (m : M A) (k : A -> M B) : M B :=
  fun w => match m w with
           | (w', Ok a) => k a w'
           | (w', Err e) => (w', Err e)
           end.
Definition M_catch {A} (m : M A) (handler : string -> M A) : M A :=
  fun w => match m w with
           | (w', Ok a) => (w', Ok a)
           | (w', Err e) => handler e w'
           end.
Definition M_get {A} (f : World -> A) : M A := fun w => (w, Ok (f w)).
Definition M_modify (f : World -> World) : M unit := fun w => (f w, Ok tt).

Notation "x <- m ;; k" := (M_bind m (fun x => k))
  (at level 100, m at next level, right associativity).
Notation "m ;;; k" := (M_bind m (fun _ => k))
  (at level 100, right associativity).

Definition console_write (line : string) : M unit :=
  M_modify (fun w => set_console (console w ++ [line]) w).

(** [`audit_${Date.now()}_${Math.random()...}`] and the like. *)
Definition freshId (prefix : string) : M string :=
  fun w => (set_draws (S (draws w)) w,
            Ok (prefix +:+ "_" +:+ pretty (clock w) +:+ "_" +:+ pretty (draws w))).

Definition getClient : M unit :=
  fun w => if pool w then (w, Ok tt)
           else (w, Err "Database pool not initialized. Call initialize() first.").

(** BEGIN; operation; COMMIT, or ROLLBACK and rethrow. *)
Definition runInTransaction {A} (operation : M A) : M A :=
  getClient ;;;
  fun w => match operation w with
           | (w', Ok a) => (w', Ok a)
           | (w', Err e) => (set_db (db w) w', Err e)
           end.

Definition insertAuditRow (row : AuditRow) : M unit :=
  M_modify (fun w => set_db (set_audit_logs (audit_logs (db w) ++ [row]) (db w)) w).

(** [auditLog.confidenceScore || null] *)
Definition truthyScore (c : Z) : option Z := if (c =? 0)%Z then None else Some c.

Definition logAuditEntry
    (operation entityType entityId : string) (before after : option Snapshot)
    (why : string) (score : option Z) : M unit :=
  id <- freshId "audit" ;;
  now <- M_get clock ;;
  insertAuditRow
    {| ar_id := id; ar_operation := operation; ar_entity_type := entityType;
       ar_entity_id := entityId; ar_before_state := before; ar_after_state := after;
       ar_reasoning := why; ar_confidence_score := score; ar_timestamp := now |}.

(** [logMemoryAccess]: a failure to write the audit row is only warned about. *)
Definition logMemoryAccess (entityType searchKey : string) (resultCount : nat) : M unit :=
  M_catch
    (id <- freshId "audit" ;;
     now <- M_get clock ;;
     connected <- M_get pool ;;
     if connected then
       insertAuditRow
         {| ar_id := id; ar_operation := "memory_access"; ar_entity_type := entityType;
            ar_entity_id := searchKey; ar_before_state := None; ar_after_state := None;
            ar_reasoning := "Retrieved " +:+ pretty resultCount +:+ " " +:+ entityType +:+
                            " records for key: " +:+ searchKey;
            ar_confidence_score := None; ar_timestamp := now |}
     else M_ret tt)
    (fun e => console_write ("Failed to log memory access: " +:+ errorToString e)).

(** ORDER BY: a stable insertion sort; [before a b] when [a] may precede [b]. *)
Fixpoint insertSorted {A} (before : A -> A -> bool) (x : A) (l : list A) : list A :=
  match l with
  | [] => [x]
  | y :: ys => if before x y then x :: l else y :: insertSorted before x ys
  end.

Definition orderBy {A} (before : A -> A -> bool) (l : list A) : list A :=
  foldr (insertSorted before) [] l.

(** [parseFloat(row.confidence_score)] *)
Definition scoreOfRow (hundredths : Z) : number := Fin (inject_Z hundredths / 100).

Definition correctionOfRow (row : CorrectionRow) : CorrectionMemory :=
  {| cm_id := cr_id row;
     cm_originalValue := cr_original_value row;
     cm_correctedValue := cr_corrected_value row;
     cm_fieldName := cr_field_name row;
     cm_vendorName := cr_vendor_name row;
     cm_confidenceScore := scoreOfRow (cr_confidence_score row);
     cm_approvalCount := of_Z (cr_approval_count row);
     cm_rejectionCount := of_Z (cr_rejection_count row);
     cm_createdAt := Some (cr_created_at row) |}.

Definition vendorOfRow (row : VendorRow) : VendorMemory :=
  {| vm_id := vr_id row;
     vm_vendorName := vr_vendor_name row;
     vm_fieldMappings := vr_field_mappings row;
     vm_normalizationRules := vr_normalization_rules row;
     vm_confidenceScore := scoreOfRow (vr_confidence_score row);
     vm_usageCount := of_Z (vr_usage_count row);
     vm_lastUsed := Some (vr_last_used row);
     vm_createdAt := Some (vr_created_at row) |}.

(** [if (vendorName)] on an optional string. *)
Definition truthyString (s : option string) : option string :=
  match s with
  | Some "" | None => None
  | Some v => Some v
  end.

Definition getVendorMemory (vendorName : string) : M (list VendorMemory) :=
  getClient ;;;
  rows <- M_get (fun w =>
    orderBy (fun a b =>
               (vr_confidence_score b <? vr_confidence_score a)%Z ||
               ((vr_confidence_score a =? vr_confidence_score b)%Z &&
                (vr_last_used b <=? vr_last_used a)%Z))
            (List.filter (fun r => bool_decide (vr_vendor_name r = vendorName))
                         (vendor_memory (db w)))) ;;
  let vendorMemories := map vendorOfRow rows in
  logMemoryAccess "vendor_memory" vendorName (length vendorMemories) ;;;
  M_ret vendorMemories.

Definition updateVendorMemoryUsage (vendorMemoryId : string) : M unit :=
  runInTransaction
    (now <- M_get clock ;;
     M_modify (fun w =>
       set_db (set_vendor_memory
                 (map (fun r =>
                         if bool_decide (vr_id r = vendorMemoryId) then
                           {| vr_id := vr_id r; vr_vendor_name := vr_vendor_name r;
                              vr_field_mappings := vr_field_mappings r;
                              vr_normalization_rules := vr_normalization_rules r;
                              vr_confidence_score := vr_confidence_score r;
                              vr_usage_count := vr_usage_count r + 1;
                              vr_last_used := now;
                              vr_created_at := vr_created_at r |}
                         else r)
                      (vendor_memory (db w)))
                 (db w)) w) ;;;
     logAuditEntry "update_vendor_usage" "vendor_memory" vendorMemoryId None None
                   "Updated usage count and last used timestamp" None).

Definition getCorrectionMemory (fieldName : string) (vendorName : option string)
  : M (list CorrectionMemory) :=
  getClient ;;;
  rows <- M_get (fun w =>
    orderBy (fun a b =>
               (cr_confidence_score b <? cr_confidence_score a)%Z ||
               ((cr_confidence_score a =? cr_confidence_score b)%Z &&
                (cr_created_at b <=? cr_created_at a)%Z))
            (List.filter
               (fun r => bool_decide (cr_field_name r = fieldName) &&
                         match truthyString vendorName with
                         | Some v => match cr_vendor_name r with
                                     | Some v' => bool_decide (v' = v)
                                     | None => true
                                     end
                         | None => true
                         end)
               (correction_memory (db w)))) ;;
  let correctionMemories := map correctionOfRow rows in
  logMemoryAccess "correction_memory"
                  (fieldName +:+ ":" +:+ default "any" (truthyString vendorName))
                  (length correctionMemories) ;;;
  M_ret correctionMemories.

(** The two UPDATE statements of [updateCorrectionMemoryFeedback]. *)
Definition approveRow (r : CorrectionRow) : CorrectionRow :=
  {| cr_id := cr_id r; cr_original_value := cr_original_value r;
     cr_corrected_value := cr_corrected_value r; cr_field_name := cr_field_name r;
     cr_vendor_name := cr_vendor_name r;
     cr_confidence_score := Z.min 100 (cr_confidence_score r + 10);
     cr_approval_count := cr_approval_count r + 1;
     cr_rejection_count := cr_rejection_count r;
     cr_created_at := cr_created_at r |}.

Definition rejectRow (r : CorrectionRow) : CorrectionRow :=
  {| cr_id := cr_id r; cr_original_value := cr_original_value r;
     cr_corrected_value := cr_corrected_value r; cr_field_name := cr_field_name r;
     cr_vendor_name := cr_vendor_name r;
     cr_confidence_score := Z.max 0 (cr_confidence_score r - 15);
     cr_approval_count := cr_approval_count r;
     cr_rejection_count := cr_rejection_count r + 1;
     cr_created_at := cr_created_at r |}.

Definition selectCorrection (correctionId : string) (d : Database) : option CorrectionRow :=
  head (List.filter (fun r => bool_decide (cr_id r = correctionId)) (correction_memory d)).

(** CHECK (confidence_score >= 0 AND confidence_score <= 1) *)
Definition checkScore (hundredths : Z) : bool :=
  (0 <=? hundredths)%Z && (hundredths <=? 100)%Z.

(** The UPDATE of the rows whose id is [correctionId]; a new row that
    violates the CHECK constraint of its column aborts the statement. *)
Definition updateCorrectionRows (correctionId : string) (approved : bool) : M unit :=
  fun w =>
    let updated :=
      map (fun r =>
             if bool_decide (cr_id r = correctionId)
             then (if approved then approveRow r else rejectRow r)
             else r)
          (correction_memory (db w)) in
    if forallb (fun r => checkScore (cr_confidence_score r))
               (List.filter (fun r => bool_decide (cr_id r = correctionId)) updated)
    then (set_db (set_correction_memory updated (db w)) w, Ok tt)
    else (w, Err "new row for relation correction_memory violates check constraint").

Definition updateCorrectionMemoryFeedback (correctionId : string) (approved : bool)
  : M unit :=
  runInTransaction
    (beforeState <- M_get (fun w => selectCorrection correctionId (db w)) ;;
     updateCorrectionRows correctionId approved ;;;
     afterState <- M_get (fun w => selectCorrection correctionId (db w)) ;;
     logAuditEntry "update_correction_feedback" "correction_memory" correctionId
                   (SnapCorrectionRow <$> beforeState) (SnapCorrectionRow <$> afterState)
                   ("Updated correction memory based on " +:+
                    (if approved then "positive" else "negative") +:+ " feedback")
                   (truthyScore (default 0%Z (cr_confidence_score <$> afterState)))).


(** ** engines/LearningEngine *)

Record LearningFeedback := {
  fb_invoiceId : string;
  fb_correctionId : option string;
  fb_vendorMemoryId : option string;
  fb_resolutionMemoryId : option string;
  fb_approved : bool;
  fb_reasoning : option string;
  fb_timestamp : Date
}.

Inductive EventType : Type :=
| PositiveReinforcement
| NegativeReinforcement
| NewPattern
| PatternConsolidation.

Inductive MemoryType : Type := VendorType | CorrectionType | ResolutionType.

Record LearningEvent := {
  le_id : string;
  le_invoiceId : string;
  le_eventType : EventType;
  le_memoryType : MemoryType;
  le_memoryId : string;
  le_confidenceChange : number;
  le_reasoning : string;
  le_timestamp : Date
}.

(** The engine's own fields; [memoryStore] is the shared store of the world. *)
Record LearningEngine := {
  processedInvoices : gset string;
  learningEvents : list LearningEvent
}.

(** A method of the learning engine: it may also change the engine. *)
Definition L (A : Type) : Type := LearningEngine -> M (LearningEngine * A).

Definition reinforceCorrectionMemory (correctionId : string) (approved : bool) : M number :=
  originalCorrections <- getCorrectionMemory "" None ;;
  match List.find (fun c => bool_decide (cm_id c = correctionId)) originalCorrections with
  | None => M_throw ("Correction memory " +:+ correctionId +:+ " not found")
  | Some targetCorrection =>
      let originalConfidence := cm_confidenceScore targetCorrection in
      updateCorrectionMemoryFeedback correctionId approved ;;;
      updatedCorrections <- getCorrectionMemory "" None ;;
      match List.find (fun c => bool_decide (cm_id c = correctionId)) updatedCorrections with
      | Some updatedCorrection =>
          M_ret (num_sub (cm_confidenceScore updatedCorrection) originalConfidence)
      | None => M_ret (Fin 0)
      end
  end.

Definition reinforceVendorMemory (vendorMemoryId : string) (approved : bool) : M number :=
  M_catch
    (updateVendorMemoryUsage vendorMemoryId ;;;
     M_ret (if approved then Fin 0.05 else Fin (-0.1)))
    (fun e =>
       console_write ("Failed to reinforce vendor memory: " +:+ errorToString e) ;;;
       M_ret (Fin 0)).

Definition reinforceResolutionMemory (_resolutionMemoryId : string) (approved : bool)
  : M number :=
  M_ret (if approved then Fin 0.05 else Fin (-0.1)).

Definition reinforcementEvent
    (feedback : LearningFeedback) (memoryType : MemoryType) (memoryId : string)
    (confidenceChange : number) (what : string) : M LearningEvent :=
  id <- freshId "learning" ;;
  M_ret {| le_id := id;
           le_invoiceId := fb_invoiceId feedback;
           le_eventType := if fb_approved feedback then PositiveReinforcement
                           else NegativeReinforcement;
           le_memoryType := memoryType;
           le_memoryId := memoryId;
           le_confidenceChange := confidenceChange;
           le_reasoning :=
             default ((if fb_approved feedback then "Approved" else "Rejected") +:+ what)
                     (truthyString (fb_reasoning feedback));
           le_timestamp := fb_timestamp feedback |}.

(** The body of the [try] block of [reinforceMemory], after the guard. *)
Definition reinforceMemory_learn (feedback : LearningFeedback) : M (list LearningEvent) :=
  events1 <-
    match truthyString (fb_correctionId feedback) with
    | Some correctionId =>
        confidenceChange <-
          reinforceCorrectionMemory correctionId (fb_approved feedback) ;;
        event <- reinforcementEvent feedback CorrectionType correctionId
                                    confidenceChange " correction" ;;
        M_ret [event]
    | None => M_ret []
    end ;;
  events2 <-
    match truthyString (fb_vendorMemoryId feedback) with
    | Some vendorMemoryId =>
        confidenceChange <- reinforceVendorMemory vendorMemoryId (fb_approved feedback) ;;
        event <- reinforcementEvent feedback VendorType vendorMemoryId
                                    confidenceChange " vendor pattern" ;;
        M_ret (events1 ++ [event])
    | None => M_ret events1
    end ;;
  match truthyString (fb_resolutionMemoryId feedback) with
  | Some resolutionMemoryId =>
      confidenceChange <-
        reinforceResolutionMemory resolutionMemoryId (fb_approved feedback) ;;
      event <- reinforcementEvent feedback ResolutionType resolutionMemoryId
                                  confidenceChange " resolution" ;;
      M_ret (events2 ++ [event])
  | None => M_ret events2
  end.

Definition reinforceMemory (feedback : LearningFeedback) : L unit :=
  fun this =>
    M_catch
      (if bool_decide (fb_invoiceId feedback ∈ processedInvoices this) then
         (* Prevent duplicate learning from the same invoice *)
         console_write ("Learning already processed for invoice " +:+
                        fb_invoiceId feedback) ;;;
         M_ret (this, tt)
       else
         events <- reinforceMemory_learn feedback ;;
         let this' :=
           {| processedInvoices := {[fb_invoiceId feedback]} ∪ processedInvoices this;
              learningEvents := learningEvents this ++ events |} in
         console_write ("Learning completed for invoice " +:+ fb_invoiceId feedback +:+
                        ": " +:+ pretty (length events) +:+ " events recorded") ;;;
         M_ret (this', tt))
      (fun e => M_throw ("Failed to reinforce memory: " +:+ errorToString e)).

Definition preventDuplicateLearning (invoiceId : string) (this : LearningEngine) : bool :=
  bool_decide (invoiceId ∈ processedInvoices this).

(** ** engines/ApplyEngine: normalization and high-confidence corrections *)

(** A JavaScript object used as a map: insertion order of the keys, and an
    assignment to an existing key keeps its place. *)
Fixpoint objGet {V} (o : list (string * V)) (k : string) : option V :=
  match o with
  | [] => None
  | (k', v) :: rest => if bool_decide (k' = k) then Some v else objGet rest k
  end.

Fixpoint objSet {V} (o : list (string * V)) (k : string) (v : V) : list (string * V) :=
  match o with
  | [] => [(k, v)]
  | (k', v') :: rest =>
      if bool_decide (k' = k) then (k, v) :: rest else (k', v') :: objSet rest k v
  end.

(** The own keys of an ordinary object are enumerated with the array
    indices first, in ascending order, then the other keys in the order of
    their insertion.  An array index is a canonical decimal numeral below
    2^32 - 1. *)
Definition digitOf (c : ascii) : option N :=
  let n := N_of_ascii c in
  if (48 <=? n)%N && (n <=? 57)%N then Some (n - 48)%N else None.

Fixpoint digitsValue (acc : N) (s : string) : option N :=
  match s with
  | EmptyString => Some acc
  | String c rest =>
      match digitOf c with
      | Some d => digitsValue (acc * 10 + d) rest
      | None => None
      end
  end.

Definition arrayIndex (key : string) : option N :=
  match key with
  | EmptyString => None
  | String c rest =>
      if bool_decide (c = "0"%char) && negb (bool_decide (rest = "")) then None
      else match digitsValue 0 key with
           | Some n => if (n <? 4294967295)%N then Some n else None
           | None => None
           end
  end.

(** [Object.entries(o)] and [Object.keys(o)]. *)
Definition objectEntries {V} (o : list (string * V)) : list (string * V) :=
  orderBy (fun a b => match arrayIndex (fst a), arrayIndex (fst b) with
                      | Some m, Some n => (m <=? n)%N
                      | _, _ => true
                      end)
          (List.filter (fun kv => bool_decide (is_Some (arrayIndex (fst kv)))) o) ++
  List.filter (fun kv => negb (bool_decide (is_Some (arrayIndex (fst kv))))) o.

Definition objectKeys {V} (o : list (string * V)) : list string :=
  map fst (objectEntries o).

(** The properties that every ordinary object inherits from
    [Object.prototype]: [o[k]] finds them when [o] has no property [k] of
    its own. *)
Definition objectPrototypeNames : list string :=
  ["constructor"; "__defineGetter__"; "__defineSetter__"; "hasOwnProperty";
   "__lookupGetter__"; "__lookupSetter__"; "isPrototypeOf"; "propertyIsEnumerable";
   "toString"; "valueOf"; "__proto__"; "toLocaleString"].

(** What [fieldsToNormalize[k]] can be: a value of the invoice, or the
    member of [Object.prototype] of that name (a function, and the
    prototype itself for [__proto__]). *)
Inductive FieldValue : Type :=
| Plain (v : any)
| PrototypeMember (name : string).

(** The entries of [normalizedFields]: a field mapping writes [value],
    [originalField], [confidence] and [_weight]; a normalization rule writes
    [value], [originalValue], [originalField], [confidence] and [rule]. *)
Record NormalizedField := {
  nf_value : FieldValue;
  nf_originalValue : option string;
  nf_originalField : string;
  nf_confidence : number;
  nf_weight : option number;
  nf_rule : option string
}.

(** The object [normalizedFields]: its own properties in the order of
    their insertion and, once an entry has been assigned to [__proto__],
    that entry, which the setter of [Object.prototype] has made the
    prototype of the object. *)
Record NormalizedFields := {
  ownFields : list (string * NormalizedField);
  prototypeField : option NormalizedField
}.

Record NormalizedInvoice := {
  ni_invoice : Invoice;
  normalizedFields : NormalizedFields;
  appliedNormalizations : list string
}.

Record CorrectedInvoice := {
  ci_invoice : Invoice;
  ci_normalizedFields : NormalizedFields;
  ci_appliedNormalizations : list string;
  ci_appliedCorrections : list ProposedCorrection
}.

Definition set_invoiceNumber (v : string) (i : Invoice) : Invoice :=
  {| inv_id := inv_id i; inv_vendorName := inv_vendorName i; inv_invoiceNumber := v;
     inv_amount := inv_amount i; inv_date := inv_date i;
     inv_lineItems := inv_lineItems i; inv_rawFields := inv_rawFields i |}.

Definition set_amount (v : number) (i : Invoice) : Invoice :=
  {| inv_id := inv_id i; inv_vendorName := inv_vendorName i;
     inv_invoiceNumber := inv_invoiceNumber i;
     inv_amount := v; inv_date := inv_date i;
     inv_lineItems := inv_lineItems i; inv_rawFields := inv_rawFields i |}.

Definition set_date (v : Date) (i : Invoice) : Invoice :=
  {| inv_id := inv_id i; inv_vendorName := inv_vendorName i;
     inv_invoiceNumber := inv_invoiceNumber i;
     inv_amount := inv_amount i; inv_date := v;
     inv_lineItems := inv_lineItems i; inv_rawFields := inv_rawFields i |}.

Definition set_vendorName (v : string) (i : Invoice) : Invoice :=
  {| inv_id := inv_id i; inv_vendorName := v;
     inv_invoiceNumber := inv_invoiceNumber i;
     inv_amount := inv_amount i; inv_date := inv_date i;
     inv_lineItems := inv_lineItems i; inv_rawFields := inv_rawFields i |}.

Definition set_rawFields (v : list (string * any)) (i : Invoice) : Invoice :=
  {| inv_id := inv_id i; inv_vendorName := inv_vendorName i;
     inv_invoiceNumber := inv_invoiceNumber i;
     inv_amount := inv_amount i; inv_date := inv_date i;
     inv_lineItems := inv_lineItems i; inv_rawFields := v |}.

Definition calculateMemoryWeight (memory : VendorMemory) : number :=
  let confidenceWeight := num_mul (vm_confidenceScore memory) (Fin 0.7) in
  let usageWeight := num_min (num_div (vm_usageCount memory) (Fin 100)) (Fin 0.3) in
  num_add confidenceWeight usageWeight.

(** Time values are integers of magnitude at most 8.64e15. *)
Definition timeClip (n : number) : Date :=
  match n with
  | Fin q =>
      let t := if Qltb q 0 then Qceiling q else Qfloor q in
      if (Z.abs t <=? 8640000000000000)%Z then Some t else None
  | _ => None
  end.

Section ApplyEngine.
Context {rt : JsRuntime}.

(** [String(v)], [Number(v)] and [new Date(v)] on a value of type [any]. *)
Definition toStringAny (v : any) : string :=
  match v with
  | ANull => "null"
  | AUndefined => "undefined"
  | ABool true => "true"
  | ABool false => "false"
  | ANum n => numberToString n
  | AStr s => s
  | ADate (Some t) => dateToString t
  | ADate None => "Invalid Date"
  end.

Definition toNumberAny (v : any) : number :=
  match v with
  | ANull => Fin 0
  | AUndefined => NaN
  | ABool true => Fin 1
  | ABool false => Fin 0
  | ANum n => n
  | AStr s => stringToNumber s
  | ADate (Some t) => of_Z t
  | ADate None => NaN
  end.

Definition newDate (v : any) : Date :=
  match v with
  | ADate d => d
  | AStr s => dateParse s
  | AUndefined => None
  | other => timeClip (toNumberAny other)
  end.

(** Whether a value of type [any] is truthy. *)
Definition truthyAny (v : any) : bool :=
  match v with
  | ANull | AUndefined => false
  | ABool b => b
  | ANum n => num_truthy n
  | AStr s => negb (bool_decide (s = ""))
  | ADate _ => true
  end.

(** [{ ...invoice.rawFields }] with the four standard fields assigned.
    The spread defines every raw field as a property of the new object,
    one named [__proto__] too. *)
Definition fieldsToNormalize (invoice : Invoice) : list (string * any) :=
  let fields :=
    fold_left (fun o kv => objSet o (fst kv) (snd kv))
              (objectEntries (inv_rawFields invoice)) [] in
  let fields := objSet fields "invoiceNumber" (AStr (inv_invoiceNumber invoice)) in
  let fields := objSet fields "amount" (ANum (inv_amount invoice)) in
  let fields := objSet fields "date" (ADate (inv_date invoice)) in
  objSet fields "vendorName" (AStr (inv_vendorName invoice)).

(** [fieldsToNormalize[name]], [None] when it is [undefined]: the
    property of that name, or else what [Object.prototype] has under it. *)
Definition fieldToNormalize (invoice : Invoice) (name : string) : option FieldValue :=
  match objGet (fieldsToNormalize invoice) name with
  | Some AUndefined => None
  | Some value => Some (Plain value)
  | None =>
      if includes objectPrototypeNames name then Some (PrototypeMember name) else None
  end.

(** What [normalizedFields[k]] can be: an entry, a property of the entry
    that is the prototype or a member of [Object.prototype], or
    [undefined]. *)
Inductive Looked : Type :=
| AnEntry (entry : NormalizedField)
| AValue (v : FieldValue)
| Missing.

(** The properties of an entry, as the object literals of the loops have
    them. *)
Definition entryProperty (entry : NormalizedField) (k : string) : option FieldValue :=
  if bool_decide (k = "value") then Some (nf_value entry)
  else if bool_decide (k = "originalValue") then
    (fun s => Plain (AStr s)) <$> nf_originalValue entry
  else if bool_decide (k = "originalField") then Some (Plain (AStr (nf_originalField entry)))
  else if bool_decide (k = "confidence") then Some (Plain (ANum (nf_confidence entry)))
  else if bool_decide (k = "_weight") then (fun w => Plain (ANum w)) <$> nf_weight entry
  else if bool_decide (k = "rule") then (fun s => Plain (AStr s)) <$> nf_rule entry
  else None.

Definition inheritedMember (k : string) : Looked :=
  if includes objectPrototypeNames k then AValue (PrototypeMember k) else Missing.

(** [normalizedFields[k]]: an own property, then the properties of the
    prototype, where [__proto__] reads the prototype itself. *)
Definition lookupField (fields : NormalizedFields) (k : string) : Looked :=
  match objGet (ownFields fields) k with
  | Some entry => AnEntry entry
  | None =>
      match prototypeField fields with
      | Some prototype =>
          match entryProperty prototype k with
          | Some v => AValue v
          | None =>
              if bool_decide (k = "__proto__") then AnEntry prototype
              else inheritedMember k
          end
      | None => inheritedMember k
      end
  end.

Definition isTruthy (x : Looked) : bool :=
  match x with
  | AnEntry _ => true
  | AValue (Plain v) => truthyAny v
  | AValue (PrototypeMember _) => true
  | Missing => false
  end.

(** [x._weight || 0] and [x.confidence || 0] for a truthy [x]: strings,
    numbers, booleans, Dates and the members of [Object.prototype] have
    neither property. *)
Definition weightOr0 (x : Looked) : number :=
  match x with
  | AnEntry entry =>
      match nf_weight entry with
      | Some w => num_or w (Fin 0)
      | None => Fin 0
      end
  | _ => Fin 0
  end.

Definition confidenceOr0 (x : Looked) : number :=
  match x with
  | AnEntry entry => num_or (nf_confidence entry) (Fin 0)
  | _ => Fin 0
  end.

(** [normalizedFields[k] = entry]: an assignment to [__proto__] reaches the
    setter of [Object.prototype], which makes the entry the prototype of
    the object and adds no property. *)
Definition assignField (fields : NormalizedFields) (k : string) (entry : NormalizedField)
  : NormalizedFields :=
  if bool_decide (k = "__proto__") then
    {| ownFields := ownFields fields; prototypeField := Some entry |}
  else
    {| ownFields := objSet (ownFields fields) k entry;
       prototypeField := prototypeField fields |}.

(** The state of the loops of [normalizeInvoiceFields]. *)
Definition NormalizationState : Type := (NormalizedFields * list string)%type.

Definition applyFieldMapping
    (invoice : Invoice) (memory : VendorMemory) (weight : number)
    (st : NormalizationState) (entry : string * string) : NormalizationState :=
  let '(fields, applied) := st in
  let '(originalField, mappedField) := entry in
  match fieldToNormalize invoice originalField with
  | None => st
  | Some value =>
      let existing := lookupField fields mappedField in
      if negb (isTruthy existing) || num_gt weight (weightOr0 existing) then
        (assignField fields mappedField
                     {| nf_value := value; nf_originalValue := None;
                        nf_originalField := originalField;
                        nf_confidence := vm_confidenceScore memory;
                        nf_weight := Some weight; nf_rule := None |},
         applied ++ [originalField +:+ " -> " +:+ mappedField +:+ " (confidence: " +:+
                     toFixed (vm_confidenceScore memory) 2 +:+ ")"])
      else st
  end.

Definition quoted (s : string) : string :=
  String doubleQuote s +:+ String doubleQuote "".

Definition applyNormalizationRule
    (invoice : Invoice) (st : NormalizationState * list string) (rule : NormalizationRule)
  : NormalizationState * list string :=
  let '((fields, applied), warned) := st in
  match fieldToNormalize invoice (nr_fieldName rule) with
  | Some (Plain (AStr fieldValue)) =>
      match regexReplaceAll (nr_pattern rule) (nr_replacement rule) fieldValue with
      | None =>
          (fields, applied,
           warned ++ ["Failed to apply normalization rule for field " +:+
                      nr_fieldName rule +:+ ": SyntaxError: Invalid regular expression"])
      | Some normalizedValue =>
          if bool_decide (normalizedValue = fieldValue) then st
          else
            let normalizedFieldName := nr_fieldName rule +:+ "_normalized" in
            let existing := lookupField fields normalizedFieldName in
            if negb (isTruthy existing) ||
               num_gt (nr_confidenceScore rule) (confidenceOr0 existing) then
              (assignField fields normalizedFieldName
                           {| nf_value := Plain (AStr normalizedValue);
                              nf_originalValue := Some fieldValue;
                              nf_originalField := nr_fieldName rule;
                              nf_confidence := nr_confidenceScore rule;
                              nf_weight := None; nf_rule := Some (nr_pattern rule) |},
               applied ++ [nr_fieldName rule +:+ ": " +:+ quoted fieldValue +:+ " -> " +:+
                           quoted normalizedValue +:+ " (confidence: " +:+
                           toFixed (nr_confidenceScore rule) 2 +:+ ")"],
               warned)
            else st
      end
  | _ => st
  end.

Definition applyVendorMemory
    (invoice : Invoice) (st : NormalizationState * list string) (memory : VendorMemory)
  : NormalizationState * list string :=
  let '(st1, warned) := st in
  let weight := calculateMemoryWeight memory in
  let st2 :=
    fold_left (applyFieldMapping invoice memory weight)
              (objectEntries (vm_fieldMappings memory)) st1 in
  fold_left (applyNormalizationRule invoice) (vm_normalizationRules memory) (st2, warned).

(** [normalizeInvoiceFields]; nothing in its [try] block throws, a rule
    whose pattern does not compile is warned about on the console.  The
    last loop deletes [_weight] from the own properties of
    [normalizedFields]; an entry that has become the prototype keeps it. *)
Definition normalizeInvoiceFields (invoice : Invoice) (vendorMemory : list VendorMemory)
  : M NormalizedInvoice :=
  let '((fields, applied), warned) :=
    fold_left (applyVendorMemory invoice) vendorMemory
              (({| ownFields := []; prototypeField := None |}, []), []) in
  let cleaned :=
    map (fun entry : string * NormalizedField =>
           (fst entry,
            {| nf_value := nf_value (snd entry);
               nf_originalValue := nf_originalValue (snd entry);
               nf_originalField := nf_originalField (snd entry);
               nf_confidence := nf_confidence (snd entry);
               nf_weight := None;
               nf_rule := nf_rule (snd entry) |}))
        (ownFields fields) in
  M_modify (fun w => set_console (console w ++ warned) w) ;;;
  M_ret {| ni_invoice := invoice;
           normalizedFields :=
             {| ownFields := cleaned; prototypeField := prototypeField fields |};
           appliedNormalizations := applied |}.

(** The [switch] of [applyHighConfidenceCorrections]. *)
Definition applyCorrection (invoice : Invoice) (correction : ProposedCorrection) : Invoice :=
  if bool_decide (field correction = "invoiceNumber") then
    set_invoiceNumber (toStringAny (correctedValue correction)) invoice
  else if bool_decide (field correction = "amount") then
    set_amount (toNumberAny (correctedValue correction)) invoice
  else if bool_decide (field correction = "date") then
    set_date (newDate (correctedValue correction)) invoice
  else if bool_decide (field correction = "vendorName") then
    set_vendorName (toStringAny (correctedValue correction)) invoice
  else
    set_rawFields (objSet (inv_rawFields invoice) (field correction)
                          (correctedValue correction)) invoice.

Definition logCorrectionApplication (correction : ProposedCorrection) (invoiceId : string)
  : M unit :=
  console_write ("Applied correction: " +:+ field correction +:+ " changed from " +:+
                 quoted (toStringAny (originalValue correction)) +:+ " to " +:+
                 quoted (toStringAny (correctedValue correction)) +:+
                 " for invoice " +:+ invoiceId).

(** The loop over the high-confidence corrections; its state is the
    corrected invoice and the list of applied corrections. *)
Fixpoint applyCorrections
    (invoiceId : string) (corrections : list ProposedCorrection)
    (st : Invoice * list ProposedCorrection) : M (Invoice * list ProposedCorrection) :=
  match corrections with
  | [] => M_ret st
  | correction :: rest =>
      let st' := (applyCorrection (fst st) correction, snd st ++ [correction]) in
      logCorrectionApplication correction invoiceId ;;;
      applyCorrections invoiceId rest st'
  end.

Definition applyHighConfidenceCorrections
    (invoice : Invoice) (corrections : list ProposedCorrection) : M CorrectedInvoice :=
  M_catch
    (vendorMemory <- getVendorMemory (inv_vendorName invoice) ;;
     normalizedInvoice <- normalizeInvoiceFields invoice vendorMemory ;;
     let highConfidenceCorrections :=
       List.filter (fun correction => num_ge (confidence correction) (Fin 0.85))
                   corrections in
     final <- applyCorrections (inv_id invoice) highConfidenceCorrections
                               (ni_invoice normalizedInvoice, []) ;;
     M_ret {| ci_invoice := fst final;
              ci_normalizedFields := normalizedFields normalizedInvoice;
              ci_appliedNormalizations := appliedNormalizations normalizedInvoice;
              ci_appliedCorrections := snd final |})
    (fun e => M_throw ("Failed to apply corrections: " +:+ errorToString e)).

End ApplyEngine.

(** ** interfaces/validation.ts

    The [typeof], [instanceof] and [Array.isArray] tests hold of every value
    of the record types and are left out; what remains are the tests on
    lengths and ranges. *)

Definition isValidConfidenceScore (score : number) : bool :=
  negb (num_isNaN score) && num_ge score (Fin 0) && num_le score (Fin 1).

Definition isValidVendorMemory (memory : VendorMemory) : bool :=
  (0 <? String.length (vm_id memory))%nat &&
  (0 <? String.length (vm_vendorName memory))%nat &&
  isValidConfidenceScore (vm_confidenceScore memory) &&
  num_ge (vm_usageCount memory) (Fin 0).

Definition isValidCorrectionMemory (memory : CorrectionMemory) : bool :=
  (0 <? String.length (cm_id memory))%nat &&
  (0 <? String.length (cm_fieldName memory))%nat &&
  isValidConfidenceScore (cm_confidenceScore memory) &&
  num_ge (cm_approvalCount memory) (Fin 0) &&
  num_ge (cm_rejectionCount memory) (Fin 0).

Definition isValidResolutionMemory (memory : ResolutionMemory) : bool :=
  (0 <? String.length (rm_id memory))%nat &&
  (0 <? String.length (rm_invoicePattern memory))%nat &&
  isValidConfidenceScore (rm_confidenceScore memory) &&
  (0 <? String.length (rm_reasoning memory))%nat.

Definition isValidProcessingDecision (d : ProcessingDecision) : bool :=
  isValidConfidenceScore (pd_confidenceScore d) &&
  (0 <? String.length (pd_reasoning d))%nat.

Definition isValidInvoiceProcessingResult (r : InvoiceProcessingResult) : bool :=
  (0 <? String.length (invoiceId r))%nat &&
  isValidConfidenceScore (confidenceScore r) &&
  (0 <? String.length (reasoning r))%nat &&
  num_ge (vendorPatternsUsed (memoryInsights r)) (Fin 0) &&
  num_ge (correctionsApplied (memoryInsights r)) (Fin 0) &&
  isValidConfidenceScore (historicalAccuracy (memoryInsights r)).

(** ** engines/ApplyEngine: proposing corrections *)

(** [{ invoiceNumber, amount, date, vendorName, ...invoice.rawFields }] *)
Definition fieldsToCheck (invoice : Invoice) : list (string * any) :=
  fold_left (fun o kv => objSet o (fst kv) (snd kv))
            (objectEntries (inv_rawFields invoice))
            [("invoiceNumber", AStr (inv_invoiceNumber invoice));
             ("amount", ANum (inv_amount invoice));
             ("date", ADate (inv_date invoice));
             ("vendorName", AStr (inv_vendorName invoice))].

(** [proposedCorrections.splice(proposedCorrections.indexOf(existing), 1)]
    for the first proposal on a field. *)
Fixpoint removeFirst {A} (P : A -> bool) (l : list A) : list A :=
  match l with
  | [] => []
  | x :: xs => if P x then xs else x :: removeFirst P xs
  end.

(** [arr.sort((a, b) => b.confidenceScore - a.confidenceScore)]: the sort
    is stable, and [a] stays before [b] unless the comparator is positive. *)
Definition sortByConfidence (l : list CorrectionMemory) : list CorrectionMemory :=
  orderBy (fun a b =>
             negb (num_gt (num_sub (cm_confidenceScore b) (cm_confidenceScore a)) (Fin 0)))
          l.

Section ProposeCorrections.
Context {rt : JsRuntime}.

(** [s.toLowerCase()], a service of the runtime. *)
Variable toLowerCase : string -> string.

Definition isValueSimilar (originalValue currentValue : string) : bool :=
  if bool_decide (originalValue = currentValue) then true
  else if bool_decide (toLowerCase originalValue = toLowerCase currentValue) then true
  else
    let similarity := calculateStringSimilarity originalValue currentValue in
    num_ge similarity (Fin 0.8).

Definition parseValue (correctedValue : string) (originalValue : any) : any :=
  match originalValue with
  | ANum _ =>
      let parsed := stringToNumber correctedValue in
      if num_isNaN parsed then originalValue else ANum parsed
  | ADate _ =>
      match dateParse correctedValue with
      | None => originalValue
      | Some t => ADate (Some t)
      end
  | _ => AStr correctedValue
  end.

Definition generateCorrectionReasoning (correction : CorrectionMemory) (currentValue : any)
  : string :=
  let approvalRate :=
    num_div (cm_approvalCount correction)
            (num_add (num_add (cm_approvalCount correction) (cm_rejectionCount correction))
                     (Fin 1)) in
  "Based on " +:+ numberToString (cm_approvalCount correction) +:+ " previous approvals " +:+
  "(" +:+ percent approvalRate 1 +:+ "% success rate), " +:+
  "suggesting " +:+ quoted (cm_correctedValue correction) +:+
  " for " +:+ quoted (toStringAny currentValue) +:+ " " +:+
  "in field " +:+ quoted (cm_fieldName correction) +:+
  " with " +:+ percent (cm_confidenceScore correction) 1 +:+ "% confidence".

(** The body of the inner loop of [proposeCorrections]. *)
Definition proposeCorrection
    (fieldName : string) (fieldValue : any)
    (proposedCorrections : list ProposedCorrection) (correction : CorrectionMemory)
  : list ProposedCorrection :=
  if num_ge (cm_confidenceScore correction) (Fin 0.5) then
    let proposedCorrection :=
      {| field := fieldName;
         originalValue := fieldValue;
         correctedValue := parseValue (cm_correctedValue correction) fieldValue;
         confidence := cm_confidenceScore correction;
         memorySourceId := cm_id correction;
         pc_reasoning := generateCorrectionReasoning correction fieldValue |} in
    match List.find (fun pc => bool_decide (field pc = fieldName)) proposedCorrections with
    | None => proposedCorrections ++ [proposedCorrection]
    | Some existingCorrection =>
        if num_gt (confidence proposedCorrection) (confidence existingCorrection) then
          removeFirst (fun pc => bool_decide (field pc = fieldName)) proposedCorrections ++
          [proposedCorrection]
        else proposedCorrections
    end
  else proposedCorrections.

(** The body of the outer loop. *)
Definition proposeForField
    (correctionMemory : list CorrectionMemory)
    (proposedCorrections : list ProposedCorrection) (entry : string * any)
  : list ProposedCorrection :=
  let '(fieldName, fieldValue) := entry in
  match fieldValue with
  | AUndefined | ANull => proposedCorrections
  | _ =>
      let relevantCorrections :=
        List.filter (fun correction =>
                       bool_decide (cm_fieldName correction = fieldName) &&
                       isValueSimilar (cm_originalValue correction)
                                      (toStringAny fieldValue))
                    correctionMemory in
      fold_left (proposeCorrection fieldName fieldValue)
                (sortByConfidence relevantCorrections) proposedCorrections
  end.

(** [proposeCorrections]; nothing in its [try] block throws on values of
    the declared types, and it does not touch the store. *)
Definition proposeCorrections (invoice : Invoice) (correctionMemory : list CorrectionMemory)
  : list ProposedCorrection :=
  fold_left (proposeForField correctionMemory)
            (objectEntries (fieldsToCheck invoice)) [].

(** A proposal drawn from the correction memory for a field of the list
    [entries]: its confidence is at least 0.5, its original value is the
    value of the field, which is neither null nor undefined, and some
    pattern of the memory for that field, similar to the value, gives its
    source, its confidence and its corrected value. *)
Definition proposalFrom
    (correctionMemory : list CorrectionMemory) (entries : list (string * any))
    (p : ProposedCorrection) : Prop :=
  num_ge (confidence p) (Fin 0.5) = true /\
  (field p, originalValue p) ∈ entries /\
  originalValue p <> ANull /\ originalValue p <> AUndefined /\
  exists c, c ∈ correctionMemory /\
            cm_fieldName c = field p /\
            cm_id c = memorySourceId p /\
            cm_confidenceScore c = confidence p /\
            isValueSimilar (cm_originalValue c) (toStringAny (originalValue p)) = true /\
            correctedValue p = parseValue (cm_correctedValue c) (originalValue p).

End ProposeCorrections.

(** Some proposal of the list is on the field, with confidence at least [score]. *)
Definition covered (fieldName : string) (score : number) (ps : list ProposedCorrection)
  : Prop :=
  exists p, p ∈ ps /\ field p = fieldName /\ num_ge (confidence p) score = true.

(** ** models/MemoryStore: resolution memory and loops over store calls *)

(** [for (const x of l) { await f(x); }] *)
Fixpoint M_forEach {A} (f : A -> M unit) (l : list A) : M unit :=
  match l with
  | [] => M_ret tt
  | x :: xs => f x ;;; M_forEach f xs
  end.

Definition resolutionOfRow (row : ResolutionRow) : ResolutionMemory :=
  {| rm_id := rr_id row;
     rm_invoicePattern := rr_invoice_pattern row;
     rm_decision := rr_decision row;
     rm_confidenceScore := scoreOfRow (rr_confidence_score row);
     rm_outcomeSuccess := rr_outcome_success row;
     rm_reasoning := rr_reasoning row;
     rm_createdAt := Some (rr_created_at row) |}.


Section ResolutionMemory.

(** [text ILIKE pattern], evaluated by PostgreSQL. *)
Variable ilike : string -> string -> bool.

Definition getResolutionMemory (invoicePattern : string) : M (list ResolutionMemory) :=
  getClient ;;;
  rows <- M_get (fun w =>
    orderBy (fun a b =>
               (rr_confidence_score b <? rr_confidence_score a)%Z ||
               ((rr_confidence_score a =? rr_confidence_score b)%Z &&
                (rr_created_at b <=? rr_created_at a)%Z))
            (List.filter (fun r => ilike (rr_invoice_pattern r)
                                         ("%" +:+ invoicePattern +:+ "%"))
                         (resolution_memory (db w)))) ;;
  let resolutionMemories := map resolutionOfRow rows in
  logMemoryAccess "resolution_memory" invoicePattern (length resolutionMemories) ;;;
  M_ret resolutionMemories.

End ResolutionMemory.

(** ** engines/RecallEngine: retrieval

    The methods of the engine have the names of the methods of the store
    they call; inside the module a name denotes the store's method until
    the engine's own is defined.  An error caught by these methods is an
    [Error], whose message is rethrown with a prefix. *)

Module RecallEngine.

Definition getVendorMemory (vendorName : string) : M (list VendorMemory) :=
  M_catch
    (vendorMemories <- getVendorMemory vendorName ;;
     M_forEach (fun memory => updateVendorMemoryUsage (vm_id memory)) vendorMemories ;;;
     M_ret vendorMemories)
    (fun errorMessage =>
       M_throw ("Failed to retrieve vendor memory for " +:+ vendorName +:+ ": " +:+
                errorMessage)).

Definition getCorrectionMemory (fieldName : string) (vendorName : option string)
  : M (list CorrectionMemory) :=
  M_catch
    (correctionMemories <- getCorrectionMemory fieldName vendorName ;;
     let filteredMemories :=
       List.filter (fun memory => num_ge (cm_confidenceScore memory) (Fin 0.3))
                   correctionMemories in
     M_ret filteredMemories)
    (fun errorMessage =>
       M_throw ("Failed to retrieve correction memory for field " +:+ fieldName +:+ ": " +:+
                errorMessage)).

Definition getResolutionMemory (ilike : string -> string -> bool) (invoicePattern : string)
  : M (list ResolutionMemory) :=
  M_catch
    (resolutionMemories <- getResolutionMemory ilike invoicePattern ;;
     let filteredMemories :=
       List.filter (fun memory => rm_outcomeSuccess memory ||
                                  num_ge (rm_confidenceScore memory) (Fin 0.5))
                   resolutionMemories in
     M_ret filteredMemories)
    (fun errorMessage =>
       M_throw ("Failed to retrieve resolution memory for pattern " +:+ invoicePattern +:+
                ": " +:+ errorMessage)).

(** The key of [deduplicateCorrections]. *)
Definition correctionKey (correction : CorrectionMemory) : string :=
  cm_fieldName correction +:+ ":" +:+ cm_originalValue correction +:+ ":" +:+
  cm_correctedValue correction.

(** The loop of [deduplicateCorrections], from a set [seen] of keys. *)
Fixpoint deduplicateFrom (seen : gset string) (corrections : list CorrectionMemory)
  : list CorrectionMemory :=
  match corrections with
  | [] => []
  | correction :: rest =>
      let key := correctionKey correction in
      if bool_decide (key ∈ seen) then deduplicateFrom seen rest
      else correction :: deduplicateFrom ({[key]} ∪ seen) rest
  end.

Definition deduplicateCorrections (corrections : list CorrectionMemory)
  : list CorrectionMemory :=
  deduplicateFrom ∅ corrections.

(** The loop of [getCorrectionMemoryForInvoice] over the field names. *)
Fixpoint collectCorrections
    (vendorName : string) (fieldNames : list string) (allCorrections : list CorrectionMemory)
  : M (list CorrectionMemory) :=
  match fieldNames with
  | [] => M_ret allCorrections
  | fieldName :: rest =>
      corrections <- getCorrectionMemory fieldName (Some vendorName) ;;
      collectCorrections vendorName rest (allCorrections ++ corrections)
  end.

Definition getCorrectionMemoryForInvoice (invoice : Invoice) : M (list CorrectionMemory) :=
  let fieldNames :=
    ["invoiceNumber"; "amount"; "date"; "vendorName"] ++
    objectKeys (inv_rawFields invoice) in
  allCorrections <- collectCorrections (inv_vendorName invoice) fieldNames [] ;;
  let uniqueCorrections := deduplicateCorrections allCorrections in
  M_ret (sortByConfidence uniqueCorrections).

End RecallEngine.

(** ** Orders of the retrieved lists *)

(** Every element of the list is related to all the later ones. *)
Fixpoint sortedBy {A} (R : A -> A -> Prop) (l : list A) : Prop :=
  match l with
  | [] => True
  | x :: xs => Forall (R x) xs /\ sortedBy R xs
  end.

(** [a] may precede [b]: higher confidence first, then the later date. *)
Definition precedes (confA confB : number) (dateA dateB : Date) : Prop :=
  num_gt confA confB = true \/
  (confA = confB /\
   match dateA, dateB with
   | Some x, Some y => (y <= x)%Z
   | _, _ => False
   end).

Definition vendorOrder (a b : VendorMemory) : Prop :=
  precedes (vm_confidenceScore a) (vm_confidenceScore b) (vm_lastUsed a) (vm_lastUsed b).

Definition correctionOrder (a b : CorrectionMemory) : Prop :=
  precedes (cm_confidenceScore a) (cm_confidenceScore b) (cm_createdAt a) (cm_createdAt b).

Definition resolutionOrder (a b : ResolutionMemory) : Prop :=
  precedes (rm_confidenceScore a) (rm_confidenceScore b) (rm_createdAt a) (rm_createdAt b).

(** The rows a query for [fieldName] and [vendorName] selects. *)
Definition correctionSelected (fieldName : string) (vendorName : option string)
    (r : CorrectionRow) : bool :=
  bool_decide (cr_field_name r = fieldName) &&
  match truthyString vendorName with
  | Some v => match cr_vendor_name r with
              | Some v' => bool_decide (v' = v)
              | None => true
              end
  | None => true
  end.

(** The world after one audit row was written: one more draw of the
    identifier, one more row, nothing else. *)
Definition audited (w w' : World) (rows : list AuditRow) : Prop :=
  pool w' = pool w /\ clock w' = clock w /\ console w' = console w /\
  draws w' = (draws w + length rows)%nat /\
  vendor_memory (db w') = vendor_memory (db w) /\
  correction_memory (db w') = correction_memory (db w) /\
  resolution_memory (db w') = resolution_memory (db w) /\
  audit_logs (db w') = audit_logs (db w) ++ rows.

Definition notConnected : string :=
  "Database pool not initialized. Call initialize() first.".





(** What the engine's [getCorrectionMemory] returns on the tables [d]. *)
Definition recalledCorrections
    (fieldName : string) (vendorName : option string) (d : Database)
  : list CorrectionMemory :=
  List.filter (fun memory => num_ge (cm_confidenceScore memory) (Fin 0.3))
    (map correctionOfRow
       (orderBy (fun a b =>
                   (cr_confidence_score b <? cr_confidence_score a)%Z ||
                   ((cr_confidence_score a =? cr_confidence_score b)%Z &&
                    (cr_created_at b <=? cr_created_at a)%Z))
                (List.filter (correctionSelected fieldName vendorName)
                             (correction_memory d)))).

(** The field names [getCorrectionMemoryForInvoice] asks for. *)
Definition recalledFieldNames (invoice : Invoice) : list string :=
  ["invoiceNumber"; "amount"; "date"; "vendorName"] ++ objectKeys (inv_rawFields invoice).

(** Two patterns that [deduplicateCorrections] cannot tell apart although
    their field names and original values differ. *)
Definition colliding_corrections : list CorrectionMemory :=
  [{| cm_id := "cm-1"; cm_originalValue := "c"; cm_correctedValue := "d";
      cm_fieldName := "a:b"; cm_vendorName := None; cm_confidenceScore := Fin 0.9;
      cm_approvalCount := Fin 1; cm_rejectionCount := Fin 0; cm_createdAt := Some 0%Z |};
   {| cm_id := "cm-2"; cm_originalValue := "b:c"; cm_correctedValue := "d";
      cm_fieldName := "a"; cm_vendorName := None; cm_confidenceScore := Fin 0.9;
      cm_approvalCount := Fin 1; cm_rejectionCount := Fin 0; cm_createdAt := Some 0%Z |}].

(** ** engines/LearningEngine: decay and statistics *)

Global Instance EventType_eq_dec : EqDecision EventType.
Proof. solve_decision. Defined.

Global Instance MemoryType_eq_dec : EqDecision MemoryType.
Proof. solve_decision. Defined.

Section LearningEngineDecay.
Context {rt : JsRuntime}.

Definition updateConsistentConfidenceScores
    (memoryType memoryId : string) (confidenceChange : number) : M unit :=
  console_write ("Updating consistent confidence scores for " +:+ memoryType +:+ " " +:+
                 memoryId +:+ ": " +:+ numberToString confidenceChange).

Definition updateConfidenceScores
    (memoryType memoryId : string) (confidenceChange : number) : M unit :=
  M_catch
    (updateConsistentConfidenceScores memoryType memoryId confidenceChange)
    (fun e => M_throw ("Failed to update confidence scores: " +:+ errorToString e)).


End LearningEngineDecay.

(** The [Map] of [calculateConfidenceEvolution]: the memory types in the
    order of their first event, each with the changes of its events. *)
Definition pushChange
    (evolutionByType : list (MemoryType * list number)) (event : LearningEvent)
  : list (MemoryType * list number) :=
  let evolutionByType :=
    if bool_decide (le_memoryType event ∈ map fst evolutionByType) then evolutionByType
    else evolutionByType ++ [(le_memoryType event, [])] in
  map (fun entry : MemoryType * list number =>
         if bool_decide (fst entry = le_memoryType event)
         then (fst entry, snd entry ++ [le_confidenceChange event])
         else entry)
      evolutionByType.

(** [changes.reduce((sum, change) => sum + change, 0) / changes.length] *)
Definition averageChange (changes : list number) : number :=
  num_div (fold_left num_add changes (Fin 0)) (of_nat (length changes)).

Definition calculateConfidenceEvolution (this : LearningEngine)
  : list (MemoryType * number) :=
  map (fun entry : MemoryType * list number => (fst entry, averageChange (snd entry)))
      (fold_left pushChange (learningEvents this) []).

Record LearningStatistics := {
  totalLearningEvents : nat;
  positiveReinforcements : nat;
  negativeReinforcements : nat;
  newPatterns : nat;
  st_processedInvoices : nat;
  confidenceEvolution : list (MemoryType * number)
}.

Definition getLearningStatistics (this : LearningEngine) : LearningStatistics :=
  {| totalLearningEvents := length (learningEvents this);
     positiveReinforcements :=
       length (List.filter (fun e => bool_decide (le_eventType e = PositiveReinforcement))
                           (learningEvents this));
     negativeReinforcements :=
       length (List.filter (fun e => bool_decide (le_eventType e = NegativeReinforcement))
                           (learningEvents this));
     newPatterns :=
       length (List.filter (fun e => bool_decide (le_eventType e = NewPattern))
                           (learningEvents this));
     st_processedInvoices := size (processedInvoices this);
     confidenceEvolution := calculateConfidenceEvolution this |}.

(** The changes of the events of one memory type, in the order of the events. *)
Definition changesOf (memoryType : MemoryType) (events : list LearningEvent)
  : list number :=
  map le_confidenceChange
      (List.filter (fun e => bool_decide (le_memoryType e = memoryType)) events).

(** ** index.ts: learning through the system *)

(** [InvoiceMemorySystem.learnFromCorrections]; [initialized] is the flag
    of the system and the learning engine is the one it owns.  Of the
    error that [console.error] prints, the stack trace is left out. *)
Definition learnFromCorrections
    (initialized : bool) (invoiceId : string) (corrections : list ProposedCorrection)
  : L unit :=
  fun learningEngine =>
    if negb initialized then M_throw "System not initialized. Call initialize() first."
    else
      M_catch
        (now <- M_get clock ;;
         let feedback :=
           {| fb_invoiceId := invoiceId;
              fb_correctionId :=
                Some (default ("correction_" +:+ pretty now)
                              (truthyString (memorySourceId <$> head corrections)));
              fb_vendorMemoryId := None;
              fb_resolutionMemoryId := None;
              fb_approved := true;
              fb_reasoning := Some ("Learning from " +:+ pretty (length corrections) +:+
                                    " human corrections");
              fb_timestamp := Some now |} in
         result <- reinforceMemory feedback learningEngine ;;
         console_write ("✅ Learned from " +:+ pretty (length corrections) +:+
                        " corrections for invoice " +:+ invoiceId) ;;;
         M_ret result)
        (fun e =>
           console_write ("❌ Error learning from corrections: " +:+ errorToString e) ;;;
           M_throw e).

(** ** Invariant of the normalization *)



(** ** The specification's wording of the decision rule *)

(** The flags the specification calls forcing. *)
Definition forcingFlags : list string :=
  ["too-many-corrections"; "critical-field-protection"; "large-value-change";
   "overall-low-confidence"; "error-fallback"].

Definition protectedFields : list string := ["amount"; "vendorName"; "invoiceNumber"].

Definition forcing_flag_present (flags : list string) : Prop :=
  exists f, f ∈ flags /\ f ∈ forcingFlags.

(** A proposal at or above 0.85 on a field that is not protected. *)
Definition safe_high_proposal (p : ProposedCorrection) : Prop :=
  num_ge (confidence p) (Fin 0.85) = true /\ field p ∉ protectedFields.

Definition auto_accept_condition
    (conf : number) (proposals : list ProposedCorrection) : Prop :=
  num_ge conf (Fin 0.85) = true /\
  (proposals = [] \/ exists p, p ∈ proposals /\ safe_high_proposal p).

(** The action the specification selects, as a relation: the four cases
    are tried in order. *)
Definition spec_selects
    (flags : list string) (conf : number) (proposals : list ProposedCorrection)
    (a : DecisionType) : Prop :=
  (forcing_flag_present flags -> a = HumanReview) /\
  (~ forcing_flag_present flags -> auto_accept_condition conf proposals ->
   a = AutoAccept) /\
  (~ forcing_flag_present flags -> ~ auto_accept_condition conf proposals ->
   num_ge conf (Fin 0.65) = true -> a = AutoCorrect) /\
  (~ forcing_flag_present flags -> ~ auto_accept_condition conf proposals ->
   num_ge conf (Fin 0.65) = false -> a = HumanReview).

(** ** Exact values and ranges of recalled memory *)

(** The rational a finite number denotes (0 for the others). *)
Definition val (a : number) : Q :=
  match a with Fin q => q | _ => 0%Q end.


Definition Qsum (l : list Q) : Q := fold_right Qplus 0%Q l.

Definition mean (l : list Q) : Q := (Qsum l / inject_Z (Z.of_nat (length l)))%Q.

(** The usage-weighted sum divided by one more than the total usage. *)
Definition damped_usage_mean (vp : list VendorMemory) : Q :=
  (Qsum (map (fun p => val (vm_confidenceScore p) * val (vm_usageCount p)) vp) /
   (1 + Qsum (map (fun p => val (vm_usageCount p)) vp)))%Q.

(** The ranges assumed of recalled memory. *)
Definition nonneg (a : number) : Prop :=
  match a with Fin q => (0 <= q)%Q | _ => False end.

Definition vendor_in_range (p : VendorMemory) : Prop :=
  in_unit (vm_confidenceScore p) /\ nonneg (vm_usageCount p).

(** ** The overall confidence in binary64

    JavaScript computes on binary64 values and rounds every arithmetic
    result to the nearest one, ties to even.  Comparisons and clamps do not
    see that rounding; the value of a quotient of sums does.  The overall
    confidence is therefore embedded a second time, over the binary64
    format of IEEE 754 as [SpecFloat] specifies it. *)
Module Binary64.

Definition prec : Z := 53.
Definition emax : Z := 1024.

Definition add : spec_float -> spec_float -> spec_float := SFadd prec emax.
Definition mul : spec_float -> spec_float -> spec_float := SFmul prec emax.
Definition div : spec_float -> spec_float -> spec_float := SFdiv prec emax.

(** [a < b]: false when either is NaN. *)
Definition ltb : spec_float -> spec_float -> bool := SFltb.

Definition Z2SF (z : Z) : spec_float :=
  match z with
  | Z0 => S754_zero false
  | Zpos m => S754_finite false m 0
  | Zneg m => S754_finite true m 0
  end.

(** The binary64 value of a number: a rational is read as a decimal
    literal or [parseFloat] reads it, as the nearest binary64 value. *)
Definition binary64 (a : number) : spec_float :=
  match a with
  | Fin q => div (Z2SF (Qnum q)) (Z2SF (Zpos (Qden q)))
  | PosInf => S754_infinity false
  | NegInf => S754_infinity true
  | NaN => S754_nan
  end.

Definition is_nan (a : spec_float) : bool :=
  match a with S754_nan => true | _ => false end.

Definition negative (a : spec_float) : bool :=
  match a with
  | S754_zero s | S754_infinity s | S754_finite s _ _ => s
  | S754_nan => false
  end.

(** [Math.min(a, b)]: NaN if either is NaN, and [-0] is below [+0]. *)
Definition Math_min (a b : spec_float) : spec_float :=
  if is_nan a || is_nan b then S754_nan
  else if ltb a b then a
  else if ltb b a then b
  else if negative a then a else b.

Definition calculateOverallConfidence
    (vendorPatterns : list VendorMemory) (corrections : list CorrectionMemory)
    (resolutions : list ResolutionMemory) : spec_float :=
  let totalWeight := binary64 (Fin 0) in
  let weightedSum := binary64 (Fin 0) in
  (* Vendor patterns contribute 50% of confidence *)
  let '(weightedSum, totalWeight) :=
    if (0 <? length vendorPatterns)%nat then
      let vendorConfidence :=
        div (fold_left (fun sum pattern =>
                          add sum (mul (binary64 (vm_confidenceScore pattern))
                                       (binary64 (vm_usageCount pattern))))
                       vendorPatterns (binary64 (Fin 0)))
            (fold_left (fun sum pattern => add sum (binary64 (vm_usageCount pattern)))
                       vendorPatterns (binary64 (Fin 1))) in
      (add weightedSum (mul vendorConfidence (binary64 (Fin 0.5))),
       add totalWeight (binary64 (Fin 0.5)))
    else (weightedSum, totalWeight) in
  (* Correction patterns contribute 30% of confidence *)
  let '(weightedSum, totalWeight) :=
    if (0 <? length corrections)%nat then
      let correctionConfidence :=
        div (fold_left (fun sum correction =>
                          add sum (binary64 (cm_confidenceScore correction)))
                       corrections (binary64 (Fin 0)))
            (binary64 (of_nat (length corrections))) in
      (add weightedSum (mul correctionConfidence (binary64 (Fin 0.3))),
       add totalWeight (binary64 (Fin 0.3)))
    else (weightedSum, totalWeight) in
  (* Resolution patterns contribute 20% of confidence *)
  let '(weightedSum, totalWeight) :=
    if (0 <? length resolutions)%nat then
      let resolutionConfidence :=
        div (fold_left (fun sum resolution =>
                          add sum (binary64 (rm_confidenceScore resolution)))
                       resolutions (binary64 (Fin 0)))
            (binary64 (of_nat (length resolutions))) in
      (add weightedSum (mul resolutionConfidence (binary64 (Fin 0.2))),
       add totalWeight (binary64 (Fin 0.2)))
    else (weightedSum, totalWeight) in
  (* Return weighted average, or 0.1 if no memory available *)
  if ltb (binary64 (Fin 0)) totalWeight
  then Math_min (binary64 (Fin 1)) (div weightedSum totalWeight)
  else binary64 (Fin 0.1).

(** *** The specification's wording, every operation rounded *)

(** The sum of a list from left to right, starting from [start]. *)
Definition sum_from (start : spec_float) (l : list spec_float) : spec_float :=
  fold_left add l start.

Definition mean (l : list spec_float) : spec_float :=
  div (sum_from (binary64 (Fin 0)) l) (binary64 (of_nat (length l))).

(** The usage-weighted mean of the vendor patterns' confidence scores. *)
Definition usage_weighted_mean (vp : list VendorMemory) : spec_float :=
  div (sum_from (binary64 (Fin 0))
                (map (fun p => mul (binary64 (vm_confidenceScore p))
                                   (binary64 (vm_usageCount p))) vp))
      (sum_from (binary64 (Fin 0)) (map (fun p => binary64 (vm_usageCount p)) vp)).

(** The usage-weighted sum divided by one more than the total usage. *)
Definition damped_usage_mean (vp : list VendorMemory) : spec_float :=
  div (sum_from (binary64 (Fin 0))
                (map (fun p => mul (binary64 (vm_confidenceScore p))
                                   (binary64 (vm_usageCount p))) vp))
      (sum_from (binary64 (Fin 1)) (map (fun p => binary64 (vm_usageCount p)) vp)).

(** A sub-confidence with its weight, included when its list is not empty. *)
Definition component {A} (l : list A) (sub weight : spec_float)
  : list (spec_float * spec_float) :=
  match l with [] => [] | _ => [(sub, weight)] end.

(** The blend of the three sub-confidences with weights 0.5 / 0.3 / 0.2,
    renormalized over the non-empty lists and clamped to at most 1. *)
Definition confidence_blend
    (vendorSub : spec_float) (vp : list VendorMemory) (cs : list CorrectionMemory)
    (rs : list ResolutionMemory) : spec_float :=
  let included :=
    component vp vendorSub (binary64 (Fin 0.5)) ++
    component cs (mean (map (fun c => binary64 (cm_confidenceScore c)) cs))
              (binary64 (Fin 0.3)) ++
    component rs (mean (map (fun r => binary64 (rm_confidenceScore r)) rs))
              (binary64 (Fin 0.2)) in
  Math_min (binary64 (Fin 1))
           (div (sum_from (binary64 (Fin 0)) (map (fun c => mul (fst c) (snd c)) included))
                (sum_from (binary64 (Fin 0)) (map snd included))).

(** The overall confidence as the specification states it. *)
Definition spec_overallConfidence
    (vp : list VendorMemory) (cs : list CorrectionMemory) (rs : list ResolutionMemory)
  : spec_float :=
  confidence_blend (usage_weighted_mean vp) vp cs rs.

(** The same blend with the vendor sub-confidence the code computes. *)
Definition damped_overallConfidence
    (vp : list VendorMemory) (cs : list CorrectionMemory) (rs : list ResolutionMemory)
  : spec_float :=
  confidence_blend (damped_usage_mean vp) vp cs rs.

End Binary64.

(** ** The specification's wording of the error-shaped result *)

(** The standard error-shaped result for a failure described by [e]. *)
Definition error_shaped (r : InvoiceProcessingResult) (e : string) : Prop :=
  decision r = HumanReview /\
  confidenceScore r = Fin 0 /\
  reasoning r <> "" /\
  appliedCorrections r = [] /\
  memoryInsights r =
    {| vendorPatternsUsed := Fin 0; correctionsApplied := Fin 0;
       historicalAccuracy := Fin 0 |} /\
  exists entry,
    auditTrail r = [entry] /\
    at_reasoning entry = "Processing error: " +:+ sanitizeErrorMessage e.

(** ** Sample inputs *)

Definition sample_invoice : Invoice :=
  {| inv_id := "INV-001";
     inv_vendorName := "Acme Corp";
     inv_invoiceNumber := "A-17";
     inv_amount := Fin 1250;
     inv_date := Some 0%Z;
     inv_lineItems := [];
     inv_rawFields := [] |}.

Definition sample_insights (conf : number) : MemoryInsights :=
  {| vendorPatterns := [];
     suggestedCorrections := [];
     historicalResolutions := [];
     overallConfidence := conf;
     mi_reasoning := [] |}.

Definition sample_correction (f : string) (v : any) (conf : number)
  : ProposedCorrection :=
  {| field := f;
     originalValue := AStr "old";
     correctedValue := v;
     confidence := conf;
     memorySourceId := "cm-1";
     pc_reasoning := "seen before" |}.

Definition sample_vendor (conf usage : number) : VendorMemory :=
  {| vm_id := "vm-1";
     vm_vendorName := "Acme Corp";
     vm_fieldMappings := [];
     vm_normalizationRules := [];
     vm_confidenceScore := conf;
     vm_usageCount := usage;
     vm_lastUsed := Some 0%Z;
     vm_createdAt := Some 0%Z |}.

(** A runtime for closed examples: no regular expression matches, numbers
    print as integers, no string is a number, every non-empty string is a
    date, and dates print as their time value. *)
Definition example_runtime : JsRuntime :=
  {| regexReplaceAll := fun _ _ s => Some s;
     numberToString := fun n => toFixed n 0;
     stringToNumber := fun _ => NaN;
     dateParse := fun s => if bool_decide (s = "") then None else Some 0%Z;
     toISOString := fun t => pretty t;
     dateToString := fun t => pretty t |}.

Definition unnamed_invoice : Invoice :=
  {| inv_id := "";
     inv_vendorName := "Acme Corp";
     inv_invoiceNumber := "A-17";
     inv_amount := Fin 1250;
     inv_date := Some 0%Z;
     inv_lineItems := [];
     inv_rawFields := [] |}.

Definition sample_decision : ProcessingDecision :=
  makeProcessingDecision defaultDecisionEngine sample_invoice
                         (insightsFromMemory [] [] []) [].

Definition sample_correction_row (hundredths : Z) : CorrectionRow :=
  {| cr_id := "cm-1";
     cr_original_value := "Acme Corp";
     cr_corrected_value := "ACME Corporation";
     cr_field_name := "vendorName";
     cr_vendor_name := Some "Acme Corp";
     cr_confidence_score := hundredths;
     cr_approval_count := 1;
     cr_rejection_count := 0;
     cr_created_at := 0 |}.

Definition sample_world (rows : list CorrectionRow) : World :=
  {| pool := true;
     db := {| vendor_memory := []; correction_memory := rows;
              resolution_memory := []; audit_logs := [] |};
     clock := 1700000000000;
     draws := 0;
     console := [] |}.

(** A vendor pattern with field mappings and no rule. *)
Definition sample_mapping_vendor (mappings : list (string * string)) (conf usage : number)
  : VendorMemory :=
  {| vm_id := "vm-1";
     vm_vendorName := "Acme Corp";
     vm_fieldMappings := mappings;
     vm_normalizationRules := [];
     vm_confidenceScore := conf;
     vm_usageCount := usage;
     vm_lastUsed := Some 0%Z;
     vm_createdAt := Some 0%Z |}.

(** The names and values of the properties of [normalizedFields], and the
    value of the entry that has become its prototype. *)
Definition normalizedValues `{rt : JsRuntime}
    (invoice : Invoice) (vendorMemory : list VendorMemory)
  : option (list (string * FieldValue) * option FieldValue) :=
  match snd (normalizeInvoiceFields invoice vendorMemory (sample_world [])) with
  | Ok normalized =>
      Some (map (fun entry => (fst entry, nf_value (snd entry)))
                (ownFields (normalizedFields normalized)),
            nf_value <$> prototypeField (normalizedFields normalized))
  | Err _ => None
  end.

Definition new_LearningEngine : LearningEngine :=
  {| processedInvoices := ∅; learningEvents := [] |}.

Definition sample_feedback : LearningFeedback :=
  {| fb_invoiceId := "INV-001";
     fb_correctionId := None;
     fb_vendorMemoryId := Some "vm-1";
     fb_resolutionMemoryId := None;
     fb_approved := true;
     fb_reasoning := None;
     fb_timestamp := Some 1700000000000%Z |}.

(** ** Invariants and abbreviations of the proofs *)

(** A matrix of [rows] rows of [cols] cells each. *)
Definition rect (matrix : list (list nat)) (rows cols : nat) : Prop :=
  length matrix = rows /\
  forall j row, matrix !! j = Some row -> length row = cols.

Section MatrixInvariants.
Context {A : Type} `{EqDecision A}.
Variables str1 str2 : list A.

(** The distance between the prefix of length [i] of [str1] and the prefix
    of length [j] of [str2], computed on the reversed prefixes, whose heads
    are the last characters of the prefixes. *)
Definition prefix_distance (i j : nat) : nat :=
  lev (reverse (take i str1)) (reverse (take j str2)).

(** What the matrix holds when the main loop is about to fill row [j]:
    rows above [j] are complete and column 0 is initialised. *)
Definition rows_done (j : nat) (matrix : list (list nat)) : Prop :=
  rect matrix (length str2 + 1) (length str1 + 1) /\
  (forall j' i, j' < j -> i <= length str1 ->
                matrixGet matrix j' i = prefix_distance i j') /\
  (forall j', j' <= length str2 -> matrixGet matrix j' 0 = prefix_distance 0 j').

(** What it holds when the inner loop is about to fill cell [i] of row [j]. *)
Definition cells_done (j i : nat) (matrix : list (list nat)) : Prop :=
  rows_done j matrix /\
  (forall i', i' < i -> matrixGet matrix j i' = prefix_distance i' j).

End MatrixInvariants.


(** The confidence of the stored pattern [cid] as the engines read it. *)
Definition storedConfidence (cid : string) (w : World) : option number :=
  (fun row => scoreOfRow (cr_confidence_score row)) <$> selectCorrection cid (db w).

(** The console line of a skipped learning call. *)
Definition skipWarning (feedback : LearningFeedback) : string :=
  "Learning already processed for invoice " +:+ fb_invoiceId feedback.

(** * Properties *)

(** ** Lists and filters *)

Lemma existsb_includes (l flags : list string) :
  existsb (fun c => includes l c) flags = true <->
  exists f, f ∈ flags /\ f ∈ l.
Proof.
  rewrite existsb_exists. split.
  - intros (f & Hin & Hf). exists f. split.
    + by apply list_elem_of_In.
    + unfold includes in Hf. by apply bool_decide_eq_true in Hf.
  - intros (f & Hin & Hf). exists f. split.
    + by apply list_elem_of_In.
    + unfold includes. by apply bool_decide_eq_true.
Qed.

Lemma includes_true (l : list string) (x : string) :
  includes l x = true <-> x ∈ l.
Proof. unfold includes. apply bool_decide_eq_true. Qed.

Lemma includes_false (l : list string) (x : string) :
  includes l x = false <-> x ∉ l.
Proof. unfold includes. apply bool_decide_eq_false. Qed.

Lemma filter_nonempty {A} (P : A -> bool) (l : list A) :
  (0 <? length (List.filter P l))%nat = true <-> exists x, x ∈ l /\ P x = true.
Proof.
  rewrite Nat.ltb_lt. split.
  - intros Hlen. destruct (List.filter P l) as [|x xs] eqn:E; [simpl in Hlen; lia|].
    assert (Hx : In x (List.filter P l)) by (rewrite E; left; reflexivity).
    apply filter_In in Hx as [Hx HP]. exists x. split; [by apply list_elem_of_In | done].
  - intros (x & Hx & HP).
    assert (Hin : In x (List.filter P l)).
    { apply filter_In. split; [by apply list_elem_of_In | done]. }
    destruct (List.filter P l); [destruct Hin | simpl; lia].
Qed.

Lemma filter_empty {A} (P : A -> bool) (l : list A) :
  (0 <? length (List.filter P l))%nat = false <-> forall x, x ∈ l -> P x = false.
Proof.
  split.
  - intros Hf x Hx. destruct (P x) eqn:HP; [|done].
    assert (Ht : (0 <? length (List.filter P l))%nat = true).
    { apply filter_nonempty. eauto. }
    congruence.
  - intros Hall. destruct (0 <? length (List.filter P l))%nat eqn:E; [|done].
    apply filter_nonempty in E as (x & Hx & HP). rewrite Hall in HP; done.
Qed.

(** ** The decision rule *)

Lemma action_makeProcessingDecision this inv ins ps :
  action (makeProcessingDecision this inv ins ps) =
  determineAction this
    (evaluateConfidenceThresholds this (overallConfidence ins))
    (applySafetyConstraints this ps (overallConfidence ins)) ps.
Proof. reflexivity. Qed.

Lemma safetyConstraints_makeProcessingDecision this inv ins ps :
  safetyConstraints (makeProcessingDecision this inv ins ps) =
  applySafetyConstraints this ps (overallConfidence ins).
Proof. reflexivity. Qed.

Lemma determineAction_blocked this analysis flags ps :
  forcing_flag_present flags ->
  determineAction this analysis flags ps = HumanReview.
Proof.
  intros Hf. unfold determineAction.
  assert (H : existsb (fun c => includes blockingConstraints c) flags = true)
    by (apply existsb_includes; exact Hf).
  by rewrite H.
Qed.

Lemma determineAction_free this analysis flags ps :
  ~ forcing_flag_present flags ->
  determineAction this analysis flags ps =
  if exceedsAutoAccept analysis &&
     ((length ps =? 0)%nat ||
      (0 <? length (List.filter
                      (fun c => num_ge (confidence c) (autoAccept (thresholds this)) &&
                                negb (includes criticalFields (field c))) ps))%nat)
  then AutoAccept
  else if exceedsAutoCorrect analysis then AutoCorrect else HumanReview.
Proof.
  intros Hf. unfold determineAction.
  destruct (existsb _ flags) eqn:E.
  - apply existsb_includes in E. contradiction.
  - by destruct (exceedsAutoAccept analysis).
Qed.

Lemma auto_accept_condition_bool conf ps :
  auto_accept_condition conf ps <->
  num_ge conf (Fin 0.85) &&
  ((length ps =? 0)%nat ||
   (0 <? length (List.filter
                   (fun c => num_ge (confidence c) (Fin 0.85) &&
                             negb (includes criticalFields (field c))) ps))%nat) = true.
Proof.
  unfold auto_accept_condition, safe_high_proposal.
  rewrite andb_true_iff, orb_true_iff, Nat.eqb_eq, filter_nonempty.
  split.
  - intros [Hc [-> | (p & Hp & Hconf & Hfield)]]; split; auto.
    right. exists p. split; [done|]. rewrite Hconf. simpl.
    apply negb_true_iff, includes_false. exact Hfield.
  - intros [Hc [Hlen | (p & Hp & HP)]]; split; auto.
    + left. by destruct ps.
    + right. exists p. split; [done|].
      apply andb_true_iff in HP as [Hconf Hfield].
      split; [done|]. by apply negb_true_iff, includes_false in Hfield.
Qed.

(** C1. With the default thresholds, [makeProcessingDecision] selects its
    action by the priority of the specification, read on the flags the
    decision reports, the overall confidence of the insights and the
    proposals: a forcing flag gives human-review; otherwise confidence at
    or above 0.85 with no proposal, or with a proposal at or above 0.85 on
    an unprotected field, gives auto-accept; otherwise confidence at or
    above 0.65 gives auto-correct; otherwise human-review. *)
Theorem makeProcessingDecision_priority
    (inv : Invoice) (ins : MemoryInsights) (ps : list ProposedCorrection) :
  let d := makeProcessingDecision defaultDecisionEngine inv ins ps in
  spec_selects (safetyConstraints d) (overallConfidence ins) ps (action d).
Proof.
  cbv zeta. rewrite safetyConstraints_makeProcessingDecision.
  rewrite action_makeProcessingDecision.
  set (flags := applySafetyConstraints _ _ _).
  set (analysis := evaluateConfidenceThresholds _ _).
  unfold spec_selects. repeat split.
  - apply determineAction_blocked.
  - intros Hf Hacc. rewrite determineAction_free by exact Hf.
    apply auto_accept_condition_bool in Hacc.
    change (exceedsAutoAccept analysis) with (num_ge (overallConfidence ins) (Fin 0.85)).
    change (autoAccept (thresholds defaultDecisionEngine)) with (Fin 0.85).
    by rewrite Hacc.
  - intros Hf Hacc Hcorr. rewrite determineAction_free by exact Hf.
    change (exceedsAutoAccept analysis) with (num_ge (overallConfidence ins) (Fin 0.85)).
    change (exceedsAutoCorrect analysis) with (num_ge (overallConfidence ins) (Fin 0.65)).
    change (autoAccept (thresholds defaultDecisionEngine)) with (Fin 0.85).
    destruct (_ && _) eqn:E.
    + apply auto_accept_condition_bool in E. contradiction.
    + by rewrite Hcorr.
  - intros Hf Hacc Hcorr. rewrite determineAction_free by exact Hf.
    change (exceedsAutoAccept analysis) with (num_ge (overallConfidence ins) (Fin 0.85)).
    change (exceedsAutoCorrect analysis) with (num_ge (overallConfidence ins) (Fin 0.65)).
    change (autoAccept (thresholds defaultDecisionEngine)) with (Fin 0.85).
    destruct (_ && _) eqn:E.
    + apply auto_accept_condition_bool in E. contradiction.
    + by rewrite Hcorr.
Qed.

Lemma spec_selects_functional flags conf ps a b :
  spec_selects flags conf ps a -> spec_selects flags conf ps b -> a = b.
Proof.
  intros (Ha1 & Ha2 & Ha3 & Ha4) (Hb1 & Hb2 & Hb3 & Hb4).
  destruct (existsb (fun c => includes forcingFlags c) flags) eqn:Ef.
  - apply existsb_includes in Ef. rewrite Ha1, Hb1; done.
  - assert (Hnf : ~ forcing_flag_present flags).
    { intros H. apply existsb_includes in H. congruence. }
    destruct (num_ge conf (Fin 0.85) &&
              ((length ps =? 0)%nat ||
               (0 <? length (List.filter
                  (fun c => num_ge (confidence c) (Fin 0.85) &&
                            negb (includes criticalFields (field c))) ps))%nat)) eqn:Ea.
    + apply auto_accept_condition_bool in Ea. rewrite Ha2, Hb2; done.
    + assert (Hna : ~ auto_accept_condition conf ps).
      { intros H. apply auto_accept_condition_bool in H. congruence. }
      destruct (num_ge conf (Fin 0.65)) eqn:Ec.
      * rewrite Ha3, Hb3; done.
      * rewrite Ha4, Hb4; done.
Qed.

(** ** Safety flags *)

Lemma pd_appliedCorrections_makeProcessingDecision this inv ins ps :
  pd_appliedCorrections (makeProcessingDecision this inv ins ps) =
  filterCorrectionsForAction this
    (action (makeProcessingDecision this inv ins ps)) ps
    (applySafetyConstraints this ps (overallConfidence ins)).
Proof. reflexivity. Qed.

Lemma overall_low_confidence_flag this ps conf :
  num_lt conf (humanReview (thresholds this)) = true ->
  "overall-low-confidence" ∈ applySafetyConstraints this ps conf.
Proof.
  intros H. unfold applySafetyConstraints. cbv zeta. rewrite H.
  apply elem_of_app. right. apply list_elem_of_singleton. reflexivity.
Qed.

Lemma critical_field_flag this ps conf :
  (exists p, p ∈ ps /\ includes criticalFields (field p) = true /\
             num_lt (confidence p) (autoAccept (thresholds this)) = true) ->
  "critical-field-protection" ∈ applySafetyConstraints this ps conf.
Proof.
  intros (p & Hp & Hf & Hc).
  assert (H : (0 <? length (List.filter
                 (fun c => includes criticalFields (field c) &&
                           num_lt (confidence c) (autoAccept (thresholds this))) ps))%nat
              = true).
  { apply filter_nonempty. exists p. split; [done|]. by rewrite Hf, Hc. }
  unfold applySafetyConstraints. cbv zeta. rewrite H.
  repeat match goal with
         | |- context [if ?b then _ else _] => destruct b
         end; set_solver.
Qed.

Lemma forcing_blocks this inv ins ps f :
  f ∈ applySafetyConstraints this ps (overallConfidence ins) ->
  f ∈ forcingFlags ->
  action (makeProcessingDecision this inv ins ps) = HumanReview /\
  pd_appliedCorrections (makeProcessingDecision this inv ins ps) = [].
Proof.
  intros Hin Hforce.
  assert (Hact : action (makeProcessingDecision this inv ins ps) = HumanReview).
  { rewrite action_makeProcessingDecision. apply determineAction_blocked.
    exists f. split; assumption. }
  split; [exact Hact|].
  rewrite pd_appliedCorrections_makeProcessingDecision, Hact. reflexivity.
Qed.

(** C5. If some proposal touches amount, vendorName or invoiceNumber with
    confidence below 0.85, the decision is human-review and no correction
    is attached to it. *)
Theorem critical_field_forces_human_review
    (inv : Invoice) (ins : MemoryInsights) (ps : list ProposedCorrection)
    (p : ProposedCorrection) :
  p ∈ ps ->
  field p ∈ protectedFields ->
  num_lt (confidence p) (Fin 0.85) = true ->
  let d := makeProcessingDecision defaultDecisionEngine inv ins ps in
  action d = HumanReview /\ pd_appliedCorrections d = [].
Proof.
  intros Hp Hfield Hconf. cbv zeta.
  apply forcing_blocks with (f := "critical-field-protection").
  - apply critical_field_flag. exists p. repeat split; try done.
    by apply includes_true.
  - apply (includes_true forcingFlags). reflexivity.
Qed.

Lemma critical_field_forces_human_review_witness :
  let p := sample_correction "vendorName" (AStr "ACME Corporation") (Fin 0.8) in
  let d := makeProcessingDecision defaultDecisionEngine sample_invoice
             (sample_insights (Fin 0.95)) [p] in
  action d = HumanReview /\ pd_appliedCorrections d = [].
Proof.
  apply (critical_field_forces_human_review sample_invoice (sample_insights (Fin 0.95))
           [sample_correction "vendorName" (AStr "ACME Corporation") (Fin 0.8)]
           (sample_correction "vendorName" (AStr "ACME Corporation") (Fin 0.8))).
  - apply list_elem_of_singleton. reflexivity.
  - apply (includes_true protectedFields). reflexivity.
  - reflexivity.
Defined.

(** C6. When Recall finds no vendor pattern, no correction pattern and no
    resolution outcome, the overall confidence is the floor 0.1 (and so is
    not 0), and whatever is proposed the decision is human-review. *)
Theorem no_memory_floor_and_human_review
    (inv : Invoice) (ps : list ProposedCorrection) :
  let ins := insightsFromMemory [] [] [] in
  overallConfidence ins = Fin 0.1 /\
  calculateOverallConfidence [] [] [] = Fin 0.1 /\
  ~ num_eq (overallConfidence ins) (Fin 0) /\
  action (makeProcessingDecision defaultDecisionEngine inv ins ps) = HumanReview.
Proof.
  cbv zeta. split; [reflexivity|]. split; [reflexivity|].
  split; [simpl; unfold Qeq; simpl; discriminate|].
  apply (forcing_blocks defaultDecisionEngine inv (insightsFromMemory [] [] []) ps
           "overall-low-confidence").
  - apply overall_low_confidence_flag. reflexivity.
  - apply (includes_true forcingFlags). reflexivity.
Qed.

(** ** Arithmetic on finite numbers *)












(** ** Overall confidence *)



Lemma fold_left_map_add {A} (f : A -> spec_float) (l : list A) (start : spec_float) :
  fold_left (fun sum x => Binary64.add sum (f x)) l start =
  Binary64.sum_from start (map f l).
Proof.
  unfold Binary64.sum_from. revert start.
  induction l as [|x l IH]; intros start; simpl; [reflexivity | apply IH].
Qed.

Lemma ltb_irreflexive (a : spec_float) : Binary64.ltb a a = false.
Proof.
  unfold Binary64.ltb, SFltb.
  destruct a as [[|]|[|]| |[|] m e]; simpl; try reflexivity;
    rewrite Z.compare_refl;
    change (Pos.compare_cont Eq m m) with (Pos.compare m m);
    by rewrite Pos.compare_refl.
Qed.

(** [Math.min(a, b)] is never above [a]. *)
Lemma Math_min_not_above (a b : spec_float) :
  Binary64.ltb a (Binary64.Math_min a b) = false.
Proof.
  unfold Binary64.Math_min.
  destruct (Binary64.is_nan a || Binary64.is_nan b); [by destruct a|].
  destruct (Binary64.ltb a b) eqn:Hab; [apply ltb_irreflexive|].
  destruct (Binary64.ltb b a); [exact Hab|].
  destruct (Binary64.negative a); [apply ltb_irreflexive | exact Hab].
Qed.

(** C2 (as the code has it). With at least one non-empty list,
    [calculateOverallConfidence] returns, every operation rounded to
    binary64 and every sum taken from left to right, the blend with weights
    0.5 / 0.3 / 0.2 renormalized over the non-empty lists and clamped to at
    most 1, in which the correction and resolution sub-confidences are
    simple means and the vendor sub-confidence is the usage-weighted sum of
    the confidence scores divided by one plus the total usage; the value
    returned is never above 1. *)
Theorem calculateOverallConfidence_binary64_blend
    (vp : list VendorMemory) (cs : list CorrectionMemory) (rs : list ResolutionMemory) :
  Forall vendor_in_range vp ->
  Forall (fun c => in_unit (cm_confidenceScore c)) cs ->
  Forall (fun r => in_unit (rm_confidenceScore r)) rs ->
  vp <> [] \/ cs <> [] \/ rs <> [] ->
  Binary64.calculateOverallConfidence vp cs rs =
    Binary64.damped_overallConfidence vp cs rs /\
  Binary64.ltb (Binary64.binary64 (Fin 1))
               (Binary64.calculateOverallConfidence vp cs rs) = false.
Proof.
  intros _ _ _ Hne.
  assert (Heq : Binary64.calculateOverallConfidence vp cs rs =
                Binary64.damped_overallConfidence vp cs rs).
  { unfold Binary64.calculateOverallConfidence, Binary64.damped_overallConfidence,
      Binary64.confidence_blend, Binary64.damped_usage_mean, Binary64.mean.
    rewrite !fold_left_map_add, !length_map.
    destruct vp as [|v vp], cs as [|c cs], rs as [|r rs];
      try (exfalso; destruct Hne as [H|[H|H]]; congruence);
      reflexivity. }
  split; [exact Heq|]. rewrite Heq. apply Math_min_not_above.
Qed.

Lemma calculateOverallConfidence_binary64_blend_witness :
  Binary64.calculateOverallConfidence [sample_vendor (Fin 0.9) (Fin 1)] [] [] =
    Binary64.damped_overallConfidence [sample_vendor (Fin 0.9) (Fin 1)] [] [] /\
  Binary64.ltb (Binary64.binary64 (Fin 1))
               (Binary64.calculateOverallConfidence [sample_vendor (Fin 0.9) (Fin 1)] [] []) =
    false.
Proof.
  apply (calculateOverallConfidence_binary64_blend [sample_vendor (Fin 0.9) (Fin 1)] [] []).
  - constructor; [|constructor].
    unfold vendor_in_range. simpl. repeat split; lra.
  - constructor.
  - constructor.
  - left. discriminate.
Defined.

(** C2 fails as stated: one vendor pattern of confidence 0.9 used once
    and nothing else gives 0.45, where the usage-weighted mean is 0.9. *)
Lemma calculateOverallConfidence_binary64_not_weighted_mean :
  Binary64.calculateOverallConfidence [sample_vendor (Fin 0.9) (Fin 1)] [] [] =
    Binary64.binary64 (Fin 0.45) /\
  Binary64.spec_overallConfidence [sample_vendor (Fin 0.9) (Fin 1)] [] [] =
    Binary64.binary64 (Fin 0.9) /\
  Binary64.calculateOverallConfidence [sample_vendor (Fin 0.9) (Fin 1)] [] [] <>
    Binary64.spec_overallConfidence [sample_vendor (Fin 0.9) (Fin 1)] [] [].
Proof.
  split; [|split].
  - vm_compute. reflexivity.
  - vm_compute. reflexivity.
  - intros H. vm_compute in H. discriminate.
Qed.

(** ** Output *)

Lemma validateConfidenceScore_in_unit (score : number) :
  in_unit (validateConfidenceScore score).
Proof.
  unfold validateConfidenceScore.
  destruct score as [q| | |]; simpl; try (split; discriminate).
  destruct (Qle_bool 1 q) eqn:E1; simpl.
  - split; discriminate.
  - destruct (Qle_bool 0 q) eqn:E0; simpl.
    + apply Qle_bool_iff in E0. split; [exact E0|].
      destruct (Qlt_le_dec q 1) as [Hlt|Hle]; [by apply Qlt_le_weak|].
      apply Qle_bool_iff in Hle. congruence.
    + split; discriminate.
Qed.

(** C10. The historical accuracy of the memory-insights block is a
    rational in [0,1], hence never NaN; with no historical resolution the
    quotient 0/0 is coerced and the accuracy is 0, whatever else was
    recalled. *)
Theorem calculateMemoryInsights_accuracy
    (ins : MemoryInsights) (applied : list ProposedCorrection) :
  in_unit (historicalAccuracy (calculateMemoryInsights ins applied)) /\
  num_isNaN (historicalAccuracy (calculateMemoryInsights ins applied)) = false /\
  (forall vp sc conf why,
     num_div (of_nat 0) (of_nat 0) = NaN /\
     historicalAccuracy
       (calculateMemoryInsights
          {| vendorPatterns := vp; suggestedCorrections := sc;
             historicalResolutions := []; overallConfidence := conf;
             mi_reasoning := why |} applied) = Fin 0).
Proof.
  pose proof (validateConfidenceScore_in_unit) as Hunit.
  split; [|split].
  - apply Hunit.
  - unfold calculateMemoryInsights. simpl.
    match goal with |- num_isNaN (validateConfidenceScore ?x) = false =>
      specialize (Hunit x); destruct (validateConfidenceScore x) end;
      simpl in *; done.
  - intros vp sc conf why. split; [reflexivity|].
    unfold calculateMemoryInsights. simpl.
    destruct (0 <? length vp + length sc + 0)%nat; reflexivity.
Qed.

Section OutputProperties.
Context {rt : JsRuntime}.
Variable now : Z.

Lemma append_nonempty (c : ascii) (s t : string) : String c s +:+ t <> "".
Proof. simpl. discriminate. Qed.

(** C8. If the construction of the published result fails, by a thrown
    error or by a failed validation, [createInvoiceProcessingResult]
    returns the error-shaped result: human-review, confidence 0, a
    non-empty reasoning, no applied correction, zero memory insights and
    one audit entry that describes the failure. *)
Theorem createInvoiceProcessingResult_error_shape
    (invoice : Invoice) (d : ProcessingDecision) (ins : MemoryInsights)
    (logs : list AuditLog) (e : string) :
  createInvoiceProcessingResult_try now invoice d ins logs = Err e ->
  error_shaped (createInvoiceProcessingResult now invoice d ins logs) e.
Proof.
  intros Hfail. unfold createInvoiceProcessingResult. rewrite Hfail.
  unfold error_shaped. repeat split.
  - apply append_nonempty.
  - eexists. split; reflexivity.
Qed.

Lemma createInvoiceProcessingResult_cases
    (invoice : Invoice) (d : ProcessingDecision) (ins : MemoryInsights)
    (logs : list AuditLog) :
  let r := createInvoiceProcessingResult now invoice d ins logs in
  (createInvoiceProcessingResult_try now invoice d ins logs = Ok r /\
   isValid (validateOutput r) = true) \/
  (exists e, createInvoiceProcessingResult_try now invoice d ins logs = Err e /\
             r = createErrorOutput now (inv_id invoice) e).
Proof.
  cbv zeta. unfold createInvoiceProcessingResult.
  destruct (createInvoiceProcessingResult_try now invoice d ins logs) as [r|e] eqn:E.
  - left. split; [reflexivity|].
    unfold createInvoiceProcessingResult_try in E.
    destruct (result_mapM _ (pd_appliedCorrections d)) as [applied|]; [|discriminate].
    cbn [result_bind] in E.
    destruct (formatAuditTrail now logs d) as [trail|]; [|discriminate].
    cbn [result_bind] in E. cbv zeta in E.
    match type of E with
    | (if negb (isValid (validateOutput ?x)) then _ else _) = _ =>
        destruct (isValid (validateOutput x)) eqn:V; simpl in E; [|discriminate]
    end.
    inversion E; subst. exact V.
  - right. exists e. split; reflexivity.
Qed.

Lemma invalid_timestamp_throws (d : ProcessingDecision) (logs : list AuditLog) :
  (exists log, log ∈ logs /\ al_timestamp log = None) ->
  formatAuditTrail now logs d = Err "Invalid time value".
Proof.
  intros (log & Hin & Hts). unfold formatAuditTrail.
  assert (H : result_mapM
                (fun log =>
                   match al_timestamp log with
                   | Some t => Ok {| operationId := al_id log;
                                     timestamp := toISOString t;
                                     at_reasoning := al_reasoning log |}
                   | None => Err "Invalid time value"
                   end) logs = Err "Invalid time value").
  { induction logs as [|l logs IH]; [by apply not_elem_of_nil in Hin|].
    simpl. destruct (al_timestamp l) eqn:El; [|reflexivity]. simpl.
    rewrite IH; [reflexivity|].
    apply elem_of_cons in Hin as [->|Hin]; [congruence | exact Hin]. }
  rewrite H. reflexivity.
Qed.

End OutputProperties.

Lemma createInvoiceProcessingResult_error_shape_witness :
  error_shaped
    (createInvoiceProcessingResult (rt := example_runtime) 0 unnamed_invoice
       sample_decision (insightsFromMemory [] [] []) [])
    "Output validation failed: invoiceId must be a non-empty string".
Proof.
  apply (createInvoiceProcessingResult_error_shape (rt := example_runtime) 0
           unnamed_invoice sample_decision (insightsFromMemory [] [] []) []).
  vm_compute. reflexivity.
Defined.

(** ** Edit distance *)

Section LevenshteinProperties.
Context {A : Type} `{EqDecision A}.
Implicit Types s t u : list A.

Lemma lev_nil_l t : lev [] t = length t.
Proof. reflexivity. Qed.

Lemma lev_nil_r s : lev s [] = length s.
Proof. by destruct s. Qed.

Lemma lev_cons a b s t :
  lev (a :: s) (b :: t) =
  Nat.min (Nat.min (lev s (b :: t) + 1) (lev (a :: s) t + 1))
          (lev s t + (if decide (a = b) then 0 else 1)).
Proof. reflexivity. Qed.

Lemma edits_refl s : edits s s 0.
Proof. induction s; by constructor. Qed.

Lemma edits_from_nil t : edits [] t (length t).
Proof. induction t; simpl; by constructor. Qed.

Lemma edits_to_nil s : edits s [] (length s).
Proof. induction s; simpl; by constructor. Qed.

Lemma lev_edits s t : edits s t (lev s t).
Proof.
  revert t. induction s as [|a s IHs]; intros t.
  - apply edits_from_nil.
  - induction t as [|b t IHt].
    + rewrite lev_nil_r. apply edits_to_nil.
    + rewrite lev_cons.
      set (x := lev s (b :: t) + 1). set (y := lev (a :: s) t + 1).
      set (z := lev s t + (if decide (a = b) then 0 else 1)).
      assert (Hx : edits (a :: s) (b :: t) x).
      { unfold x. rewrite Nat.add_1_r. apply edits_delete, IHs. }
      assert (Hy : edits (a :: s) (b :: t) y).
      { unfold y. rewrite Nat.add_1_r. apply edits_insert, IHt. }
      assert (Hz : edits (a :: s) (b :: t) z).
      { unfold z. destruct (decide (a = b)) as [->|].
        - rewrite Nat.add_0_r. apply edits_keep, IHs.
        - rewrite Nat.add_1_r. apply edits_substitute, IHs. }
      destruct (Nat.min_spec x y) as [[_ ->]|[_ ->]];
        [destruct (Nat.min_spec x z) as [[_ ->]|[_ ->]]
        |destruct (Nat.min_spec y z) as [[_ ->]|[_ ->]]]; assumption.
Qed.

Lemma lev_delete_le a s t : lev (a :: s) t <= lev s t + 1.
Proof.
  destruct t as [|b t].
  - rewrite !lev_nil_r. simpl. lia.
  - rewrite lev_cons. lia.
Qed.

Lemma lev_insert_le b s t : lev s (b :: t) <= lev s t + 1.
Proof.
  destruct s as [|a s].
  - simpl. lia.
  - rewrite lev_cons. lia.
Qed.

Lemma lev_least s t n : edits s t n -> lev s t <= n.
Proof.
  induction 1 as [|a s t n _ IH|a b s t n _ IH|a s t n _ IH|b s t n _ IH].
  - reflexivity.
  - rewrite lev_cons. rewrite decide_True by reflexivity. lia.
  - rewrite lev_cons. destruct (decide (a = b)); lia.
  - pose proof (lev_delete_le a s t). lia.
  - pose proof (lev_insert_le b s t). lia.
Qed.


Lemma edits_sym s t n : edits s t n -> edits t s n.
Proof. induction 1; by constructor. Qed.

Lemma lev_sym s t : lev s t = lev t s.
Proof.
  apply Nat.le_antisymm; apply lev_least, edits_sym, lev_edits.
Qed.

Lemma edits_app s1 t1 n1 s2 t2 n2 :
  edits s1 t1 n1 -> edits s2 t2 n2 -> edits (s1 ++ s2) (t1 ++ t2) (n1 + n2).
Proof.
  intros H1 H2. induction H1; simpl; try by constructor.
  exact H2.
Qed.

Lemma edits_reverse s t n : edits s t n -> edits (reverse s) (reverse t) n.
Proof.
  induction 1 as [|a s t n _ IH|a b s t n _ IH|a s t n _ IH|b s t n _ IH].
  - constructor.
  - rewrite !reverse_cons. rewrite <- (Nat.add_0_r n).
    apply edits_app; [exact IH | apply edits_refl].
  - rewrite !reverse_cons. rewrite <- Nat.add_1_r.
    apply edits_app; [exact IH | apply edits_substitute, edits_nil].
  - rewrite reverse_cons. rewrite <- (app_nil_r (reverse t)), <- Nat.add_1_r.
    apply edits_app; [exact IH | apply edits_delete, edits_nil].
  - rewrite reverse_cons. rewrite <- (app_nil_r (reverse s)), <- Nat.add_1_r.
    apply edits_app; [exact IH | apply edits_insert, edits_nil].
Qed.

Lemma lev_reverse s t : lev (reverse s) (reverse t) = lev s t.
Proof.
  apply Nat.le_antisymm.
  - apply lev_least, edits_reverse, lev_edits.
  - rewrite <- (reverse_involutive s), <- (reverse_involutive t) at 1.
    apply lev_least, edits_reverse, lev_edits.
Qed.

Lemma edits_zero s t : edits s t 0 -> s = t.
Proof.
  remember 0 as n eqn:Hn. induction 1; try discriminate.
  - reflexivity.
  - f_equal. by apply IHedits.
Qed.

Lemma lev_zero s t : lev s t = 0 <-> s = t.
Proof.
  split.
  - intros H0. apply edits_zero. rewrite <- H0. apply lev_edits.
  - intros ->. apply Nat.le_0_r. apply lev_least, edits_refl.
Qed.

Lemma edits_max s t : edits s t (Nat.max (length s) (length t)).
Proof.
  revert t. induction s as [|a s IH]; intros t.
  - simpl. apply edits_from_nil.
  - destruct t as [|b t].
    + simpl. apply (edits_to_nil (a :: s)).
    + simpl. apply edits_substitute, IH.
Qed.

Lemma lev_le_max s t : lev s t <= Nat.max (length s) (length t).
Proof. apply lev_least, edits_max. Qed.

(** Alignments compose: the triangle inequality. *)
Lemma edits_triangle s t u n m :
  edits s t n -> edits t u m -> exists k, k <= n + m /\ edits s u k.
Proof.
  intros H1. revert u m.
  induction H1 as [|a s t n _ IH|a b s t n _ IH|a s t n _ IH|b s t n _ IH];
    intros u m H2.
  - exists m. split; [lia | exact H2].
  - remember (a :: t) as t' eqn:Et.
    induction H2 as [|a' t2 u m H2 _|a' c t2 u m H2 _|a' t2 u m H2 _|c t2 u m H2 IH2];
      try discriminate.
    + injection Et as -> ->. destruct (IH _ _ H2) as (k & Hk & He).
      exists k. split; [lia | by constructor].
    + injection Et as -> ->. destruct (IH _ _ H2) as (k & Hk & He).
      exists (S k). split; [lia | by constructor].
    + injection Et as -> ->. destruct (IH _ _ H2) as (k & Hk & He).
      exists (S k). split; [lia | by constructor].
    + destruct (IH2 Et) as (k & Hk & He).
      exists (S k). split; [lia | by constructor].
  - remember (b :: t) as t' eqn:Et.
    induction H2 as [|a' t2 u m H2 _|a' c t2 u m H2 _|a' t2 u m H2 _|c t2 u m H2 IH2];
      try discriminate.
    + injection Et as -> ->. destruct (IH _ _ H2) as (k & Hk & He).
      exists (S k). split; [lia | by constructor].
    + injection Et as -> ->. destruct (IH _ _ H2) as (k & Hk & He).
      exists (S k). split; [lia | by constructor].
    + injection Et as -> ->. destruct (IH _ _ H2) as (k & Hk & He).
      exists (S k). split; [lia | by constructor].
    + destruct (IH2 Et) as (k & Hk & He).
      exists (S k). split; [lia | by constructor].
  - destruct (IH _ _ H2) as (k & Hk & He).
    exists (S k). split; [lia | by constructor].
  - remember (b :: t) as t' eqn:Et.
    induction H2 as [|a' t2 u m H2 _|a' c t2 u m H2 _|a' t2 u m H2 _|c t2 u m H2 IH2];
      try discriminate.
    + injection Et as -> ->. destruct (IH _ _ H2) as (k & Hk & He).
      exists (S k). split; [lia | by constructor].
    + injection Et as -> ->. destruct (IH _ _ H2) as (k & Hk & He).
      exists (S k). split; [lia | by constructor].
    + injection Et as -> ->. destruct (IH _ _ H2) as (k & Hk & He).
      exists k. split; [lia | exact He].
    + destruct (IH2 Et) as (k & Hk & He).
      exists (S k). split; [lia | by constructor].
Qed.

Lemma edit_step_edits s t : edit_step s t -> edits s t 1.
Proof.
  intros [p b q|p a q|p a b q].
  - apply (edits_app p p 0 q (b :: q) 1); [apply edits_refl|].
    apply edits_insert, edits_refl.
  - apply (edits_app p p 0 (a :: q) q 1); [apply edits_refl|].
    apply edits_delete, edits_refl.
  - apply (edits_app p p 0 (a :: q) (b :: q) 1); [apply edits_refl|].
    apply edits_substitute, edits_refl.
Qed.

Lemma edit_script_edits s t n :
  edit_script s t n -> exists k, k <= n /\ edits s t k.
Proof.
  induction 1 as [s|s t u n Hstep _ (k & Hk & He)].
  - exists 0. split; [lia | apply edits_refl].
  - destruct (edits_triangle _ _ _ _ _ (edit_step_edits _ _ Hstep) He)
      as (k' & Hk' & He').
    exists k'. split; [lia | exact He'].
Qed.

Lemma edit_step_cons a s t : edit_step s t -> edit_step (a :: s) (a :: t).
Proof.
  intros [p b q|p c q|p c b q].
  - apply (step_insert (a :: p)).
  - apply (step_delete (a :: p)).
  - apply (step_substitute (a :: p)).
Qed.

Lemma edit_script_cons a s t n :
  edit_script s t n -> edit_script (a :: s) (a :: t) n.
Proof.
  induction 1 as [s|s t u n Hstep _ IH].
  - constructor.
  - eapply script_step; [apply edit_step_cons, Hstep | exact IH].
Qed.

Lemma edits_edit_script s t n : edits s t n -> edit_script s t n.
Proof.
  induction 1 as [|a s t n _ IH|a b s t n _ IH|a s t n _ IH|b s t n _ IH].
  - constructor.
  - by apply edit_script_cons.
  - eapply script_step; [apply (step_substitute [] a b s)|].
    by apply edit_script_cons.
  - eapply script_step; [apply (step_delete [] a s) | exact IH].
  - eapply script_step; [apply (step_insert [] b s)|].
    by apply edit_script_cons.
Qed.

Lemma lev_is_edit_distance s t : is_edit_distance s t (lev s t).
Proof.
  split.
  - apply edits_edit_script, lev_edits.
  - intros n Hn. destruct (edit_script_edits _ _ _ Hn) as (k & Hk & He).
    apply lev_least in He. lia.
Qed.

End LevenshteinProperties.

(** ** The matrix of [levenshteinDistance] *)

Lemma rect_replicate rows cols :
  rect (replicate rows (replicate cols 0)) rows cols.
Proof.
  split; [apply length_replicate|].
  intros j row Hrow. apply lookup_replicate in Hrow as [-> _].
  apply length_replicate.
Qed.

Lemma rect_matrixSet matrix rows cols j i v :
  rect matrix rows cols -> rect (matrixSet matrix j i v) rows cols.
Proof.
  intros [Hlen Hrows]. unfold matrixSet. split.
  - by rewrite length_alter.
  - intros j' row Hrow. destruct (decide (j = j')) as [<-|Hne].
    + rewrite list_lookup_alter_eq in Hrow.
      destruct (matrix !! j) as [row0|] eqn:E; [|discriminate].
      simpl in Hrow. inversion Hrow; subst.
      rewrite length_insert. by eapply Hrows.
    + rewrite list_lookup_alter_ne in Hrow by exact Hne. by eapply Hrows.
Qed.

Lemma matrixGet_set_eq matrix rows cols j i v :
  rect matrix rows cols -> j < rows -> i < cols ->
  matrixGet (matrixSet matrix j i v) j i = v.
Proof.
  intros [Hlen Hrows] Hj Hi. unfold matrixGet, matrixSet.
  rewrite list_lookup_alter_eq.
  destruct (lookup_lt_is_Some_2 matrix j) as [row Hrow]; [lia|].
  rewrite Hrow. simpl.
  rewrite list_lookup_insert_eq; [reflexivity|].
  rewrite (Hrows j row Hrow). exact Hi.
Qed.

Lemma matrixGet_set_ne matrix j i v j' i' :
  j' <> j \/ i' <> i ->
  matrixGet (matrixSet matrix j i v) j' i' = matrixGet matrix j' i'.
Proof.
  intros Hne. unfold matrixGet, matrixSet.
  destruct (decide (j = j')) as [<-|Hj].
  - rewrite list_lookup_alter_eq. destruct (matrix !! j) as [row|]; [|reflexivity].
    simpl. rewrite list_lookup_insert_ne; [reflexivity|]. destruct Hne; congruence.
  - rewrite list_lookup_alter_ne by exact Hj. reflexivity.
Qed.

Lemma fold_left_seq_invariant {S : Type} (f : S -> nat -> S) (P : nat -> S -> Prop)
    (n a : nat) (s : S) :
  P a s ->
  (forall k s, a <= k < a + n -> P k s -> P (Datatypes.S k) (f s k)) ->
  P (a + n) (fold_left f (seq a n) s).
Proof.
  revert a s. induction n as [|n IH]; intros a s Hs Hstep; simpl.
  - by rewrite Nat.add_0_r.
  - replace (a + Datatypes.S n) with (Datatypes.S a + n) by lia.
    apply IH.
    + apply Hstep; [lia | exact Hs].
    + intros k s' Hk. apply Hstep. lia.
Qed.

Section LevenshteinMatrix.
Context {A : Type} `{EqDecision A}.
Variables str1 str2 : list A.

Lemma prefix_distance_0_l j : j <= length str2 -> prefix_distance str1 str2 0 j = j.
Proof.
  intros Hj. unfold prefix_distance. rewrite take_0, reverse_nil, lev_nil_l.
  by rewrite length_reverse, length_take_le.
Qed.

Lemma prefix_distance_0_r i : i <= length str1 -> prefix_distance str1 str2 i 0 = i.
Proof.
  intros Hi. unfold prefix_distance. rewrite take_0, reverse_nil, lev_nil_r.
  by rewrite length_reverse, length_take_le.
Qed.

Lemma prefix_distance_step i j :
  1 <= i <= length str1 -> 1 <= j <= length str2 ->
  prefix_distance str1 str2 i j =
  Nat.min (Nat.min (prefix_distance str1 str2 (i - 1) j + 1) (prefix_distance str1 str2 i (j - 1) + 1))
          (prefix_distance str1 str2 (i - 1) (j - 1) +
           (if decide (str1 !! (i - 1) = str2 !! (j - 1)) then 0 else 1)).
Proof.
  intros Hi Hj. unfold prefix_distance.
  destruct i as [|i]; [lia|]. destruct j as [|j]; [lia|].
  replace (S i - 1) with i by lia. replace (S j - 1) with j by lia.
  destruct (lookup_lt_is_Some_2 str1 i) as [a Ha]; [lia|].
  destruct (lookup_lt_is_Some_2 str2 j) as [b Hb]; [lia|].
  rewrite (take_S_r str1 i a Ha), (take_S_r str2 j b Hb), !reverse_snoc.
  rewrite lev_cons, Ha, Hb.
  destruct (decide (a = b)) as [->|Hne].
  - by rewrite decide_True.
  - rewrite decide_False; [reflexivity|]. intros [=]. contradiction.
Qed.

Lemma prefix_distance_full :
  prefix_distance str1 str2 (length str1) (length str2) = lev str1 str2.
Proof.
  unfold prefix_distance. rewrite !take_ge by lia. apply lev_reverse.
Qed.

Lemma first_row_filled (matrix : list (list nat)) :
  rect matrix (length str2 + 1) (length str1 + 1) ->
  let matrix' :=
    fold_left (fun matrix i => matrixSet matrix 0 i i)
              (seq 0 (length str1 + 1)) matrix in
  rect matrix' (length str2 + 1) (length str1 + 1) /\
  forall i, i <= length str1 -> matrixGet matrix' 0 i = i.
Proof.
  intros Hrect. cbv zeta.
  pose proof (fold_left_seq_invariant
    (fun matrix i => matrixSet matrix 0 i i)
    (fun k m => rect m (length str2 + 1) (length str1 + 1) /\
                forall i, i < k -> matrixGet m 0 i = i)
    (length str1 + 1) 0 matrix) as Hinv.
  simpl in Hinv. destruct Hinv as [Hr Hc].
  - split; [exact Hrect | intros; lia].
  - intros k m Hk [Hr Hc]. split; [by apply rect_matrixSet|].
    intros i Hi. destruct (decide (i = k)) as [->|Hne].
    + eapply matrixGet_set_eq; [exact Hr | lia | lia].
    + rewrite matrixGet_set_ne by (right; exact Hne). apply Hc. lia.
  - split; [exact Hr|]. intros i Hi. apply Hc. lia.
Qed.

Lemma first_column_filled (matrix : list (list nat)) :
  rect matrix (length str2 + 1) (length str1 + 1) ->
  (forall i, i <= length str1 -> matrixGet matrix 0 i = i) ->
  rows_done str1 str2 1
    (fold_left (fun matrix j => matrixSet matrix j 0 j)
               (seq 0 (length str2 + 1)) matrix).
Proof.
  intros Hrect Hrow.
  pose proof (fold_left_seq_invariant
    (fun matrix j => matrixSet matrix j 0 j)
    (fun k m => rect m (length str2 + 1) (length str1 + 1) /\
                (forall i, i <= length str1 -> matrixGet m 0 i = i) /\
                forall j, j < k -> matrixGet m j 0 = j)
    (length str2 + 1) 0 matrix) as Hinv.
  simpl in Hinv. destruct Hinv as (Hr & H0 & Hc).
  - repeat split; [apply Hrect | apply Hrect | exact Hrow | intros; lia].
  - intros k m Hk (Hr & H0 & Hc). split; [by apply rect_matrixSet|]. split.
    + intros i Hi. destruct (decide (i = 0 /\ k = 0)) as [[-> ->]|Hne].
      * eapply matrixGet_set_eq; [exact Hr | lia | lia].
      * rewrite matrixGet_set_ne by lia. by apply H0.
    + intros j Hj. destruct (decide (j = k)) as [->|Hne].
      * eapply matrixGet_set_eq; [exact Hr | lia | lia].
      * rewrite matrixGet_set_ne by (left; exact Hne). apply Hc. lia.
  - split; [exact Hr|]. split.
    + intros j' i Hj' Hi. replace j' with 0 by lia.
      rewrite prefix_distance_0_r by exact Hi. by apply H0.
    + intros j' Hj'. rewrite prefix_distance_0_l by exact Hj'. apply Hc. lia.
Qed.

Lemma row_filled (j : nat) (matrix : list (list nat)) :
  1 <= j <= length str2 ->
  rows_done str1 str2 j matrix ->
  rows_done str1 str2 (S j)
    (fold_left
       (fun matrix i =>
          let indicator :=
            if decide (str1 !! (i - 1) = str2 !! (j - 1)) then 0 else 1 in
          matrixSet matrix j i
            (Nat.min (Nat.min (matrixGet matrix j (i - 1) + 1)
                              (matrixGet matrix (j - 1) i + 1))
                     (matrixGet matrix (j - 1) (i - 1) + indicator)))
       (seq 1 (length str1)) matrix).
Proof.
  intros Hj Hdone.
  match goal with |- rows_done _ _ _ (fold_left ?f _ _) =>
    pose proof (fold_left_seq_invariant f (cells_done str1 str2 j) (length str1) 1 matrix)
      as Hinv
  end.
  destruct Hinv as [(Hr & Hrows & Hcol) Hcells].
  - split; [exact Hdone|]. intros i' Hi'. replace i' with 0 by lia.
    destruct Hdone as (_ & _ & Hcol). apply Hcol. lia.
  - intros i m Hi [(Hr & Hrows & Hcol) Hcells]. cbv zeta.
    rewrite (Hcells (i - 1)) by lia.
    rewrite (Hrows (j - 1) i) by lia.
    rewrite (Hrows (j - 1) (i - 1)) by lia.
    rewrite <- prefix_distance_step by lia.
    split; [split; [by apply rect_matrixSet|split]|].
    + intros j' i' Hj' Hi'. rewrite matrixGet_set_ne by lia. by apply Hrows.
    + intros j' Hj'. rewrite matrixGet_set_ne by lia. by apply Hcol.
    + intros i' Hi'. destruct (decide (i' = i)) as [->|Hne].
      * eapply matrixGet_set_eq; [exact Hr | lia | lia].
      * rewrite matrixGet_set_ne by lia. apply Hcells. lia.
  - split; [exact Hr|]. split; [|exact Hcol].
    intros j' i Hj' Hi. destruct (decide (j' = j)) as [->|Hne].
    + apply Hcells. lia.
    + apply Hrows; lia.
Qed.

Lemma levenshteinDistance_lev : levenshteinDistance str1 str2 = lev str1 str2.
Proof.
  unfold levenshteinDistance. cbv zeta.
  pose proof (rect_replicate (length str2 + 1) (length str1 + 1)) as H0.
  apply first_row_filled in H0. cbv zeta in H0. destruct H0 as [H0 H1].
  pose proof (first_column_filled _ H0 H1) as H2.
  match goal with |- matrixGet (fold_left ?f _ ?m) _ _ = _ =>
    pose proof (fold_left_seq_invariant f (rows_done str1 str2) (length str2) 1 m H2) as H3
  end.
  destruct H3 as (_ & Hrows & _).
  - intros j m Hj Hm. apply row_filled; [lia | exact Hm].
  - rewrite Hrows by lia. apply prefix_distance_full.
Qed.

(** The distance the matrix computes is the edit distance. *)
Lemma levenshteinDistance_is_edit_distance :
  is_edit_distance str1 str2 (levenshteinDistance str1 str2).
Proof. rewrite levenshteinDistance_lev. apply lev_is_edit_distance. Qed.

End LevenshteinMatrix.

(** ** String similarity *)

Lemma length_chars (s : string) : length (chars s) = String.length s.
Proof. induction s; simpl; [reflexivity | by f_equal]. Qed.

Lemma chars_inj (s1 s2 : string) : chars s1 = chars s2 -> s1 = s2.
Proof.
  intros H. rewrite <- (string_of_list_ascii_of_string s1).
  rewrite <- (string_of_list_ascii_of_string s2). unfold chars in H. by rewrite H.
Qed.

(** The quotient [(L - d) / L] of [calculateStringSimilarity]. *)
Lemma similarity_quotient (L d : nat) :
  0 < L -> d <= L ->
  exists q,
    num_div (num_sub (of_nat L) (of_nat d)) (of_nat L) = Fin q /\
    (0 <= q <= 1)%Q /\ ((q == 1)%Q <-> d = 0).
Proof.
  intros HL Hd.
  set (x := inject_Z (Z.of_nat L)). set (y := inject_Z (Z.of_nat d)).
  assert (Hx : (0 < x)%Q).
  { unfold x. rewrite <- (Zlt_Qlt 0). lia. }
  assert (Hy0 : (0 <= y)%Q).
  { unfold y. rewrite <- (Zle_Qle 0). lia. }
  assert (Hyx : (y <= x)%Q).
  { unfold x, y. rewrite <- Zle_Qle. lia. }
  assert (Hnz : ~ (x == 0)%Q) by lra.
  exists ((x + - y) / x)%Q. split; [|split; [split|]].
  - unfold of_nat, num_sub, num_neg, num_add, num_div. fold x y.
    destruct (Qeq_bool x 0) eqn:E; [|reflexivity].
    apply Qeq_bool_iff in E. contradiction.
  - apply Qle_shift_div_l; [exact Hx | lra].
  - apply Qle_shift_div_r; [exact Hx | lra].
  - assert (Hmul : (x * ((x + - y) / x) == x + - y)%Q) by (apply Qmult_div_r; exact Hnz).
    split.
    + intros H1. rewrite H1 in Hmul.
      assert (Hy : (y == 0)%Q) by lra.
      unfold y, Qeq in Hy. simpl in Hy. lia.
    + intros ->. unfold y. simpl. field. exact Hnz.
Qed.

Lemma similarity_unfold (str1 str2 : string) :
  let longer :=
    if (String.length str2 <? String.length str1)%nat then str1 else str2 in
  let shorter :=
    if (String.length str2 <? String.length str1)%nat then str2 else str1 in
  calculateStringSimilarity str1 str2 =
  if (String.length longer =? 0)%nat then Fin 1
  else num_div (num_sub (of_nat (String.length longer))
                        (of_nat (lev (chars longer) (chars shorter))))
               (of_nat (String.length longer)).
Proof.
  cbv zeta. unfold calculateStringSimilarity. cbv zeta.
  by rewrite levenshteinDistance_lev.
Qed.

Lemma longer_shorter (str1 str2 : string) :
  let longer :=
    if (String.length str2 <? String.length str1)%nat then str1 else str2 in
  let shorter :=
    if (String.length str2 <? String.length str1)%nat then str2 else str1 in
  String.length shorter <= String.length longer /\
  (longer = shorter <-> str1 = str2).
Proof.
  cbv zeta. destruct (String.length str2 <? String.length str1)%nat eqn:E.
  - apply Nat.ltb_lt in E. split; [lia | done].
  - apply Nat.ltb_ge in E. split; [lia | split; congruence].
Qed.

(** C9. The similarity of two strings lies in [0,1], does not depend on
    the order of the two strings, and is 1 exactly when they are equal;
    the matrix of [levenshteinDistance] computes the edit distance: the
    least number of insertions, deletions and substitutions that turn one
    string into the other. *)
Theorem calculateStringSimilarity_properties (s1 s2 : string) :
  in_unit (calculateStringSimilarity s1 s2) /\
  calculateStringSimilarity s1 s2 = calculateStringSimilarity s2 s1 /\
  (num_eq (calculateStringSimilarity s1 s2) (Fin 1) <-> s1 = s2) /\
  is_edit_distance (chars s1) (chars s2) (levenshteinDistance (chars s1) (chars s2)).
Proof.
  split; [|split; [|split]].
  - rewrite similarity_unfold.
    destruct (longer_shorter s1 s2) as [Hlen _]. cbv zeta in Hlen.
    set (longer := if (String.length s2 <? String.length s1)%nat then s1 else s2) in *.
    set (shorter := if (String.length s2 <? String.length s1)%nat then s2 else s1) in *.
    destruct (String.length longer =? 0)%nat eqn:E0; [simpl; lra|].
    apply Nat.eqb_neq in E0.
    destruct (similarity_quotient (String.length longer)
                (lev (chars longer) (chars shorter))) as (q & -> & Hq & _).
    + lia.
    + pose proof (lev_le_max (chars longer) (chars shorter)) as Hmax.
      rewrite !length_chars in Hmax. lia.
    + exact Hq.
  - rewrite !similarity_unfold.
    destruct (String.length s2 <? String.length s1)%nat eqn:E12;
      destruct (String.length s1 <? String.length s2)%nat eqn:E21;
      try reflexivity.
    + apply Nat.ltb_lt in E12, E21. lia.
    + apply Nat.ltb_ge in E12, E21.
      assert (Heq : String.length s1 = String.length s2) by lia.
      rewrite Heq. by rewrite (lev_sym (chars s2) (chars s1)).
  - rewrite similarity_unfold.
    destruct (longer_shorter s1 s2) as [Hlen Heq]. cbv zeta in Hlen, Heq.
    set (longer := if (String.length s2 <? String.length s1)%nat then s1 else s2) in *.
    set (shorter := if (String.length s2 <? String.length s1)%nat then s2 else s1) in *.
    rewrite <- Heq.
    destruct (String.length longer =? 0)%nat eqn:E0.
    + apply Nat.eqb_eq in E0. split; [intros _|intros _; simpl; reflexivity].
      destruct longer; [|discriminate]. destruct shorter; [reflexivity|].
      simpl in Hlen. lia.
    + apply Nat.eqb_neq in E0.
      destruct (similarity_quotient (String.length longer)
                  (lev (chars longer) (chars shorter))) as (q & -> & _ & Hq).
      * lia.
      * pose proof (lev_le_max (chars longer) (chars shorter)) as Hmax.
        rewrite !length_chars in Hmax. lia.
      * simpl. rewrite Hq, lev_zero. split; [apply chars_inj | by intros ->].
  - apply levenshteinDistance_is_edit_distance.
Qed.

(** ** Feedback on a stored correction pattern *)









Lemma hundredths_scale (z : Z) : (inject_Z z / 100 == inject_Z z * (1 # 100))%Q.
Proof. unfold Qdiv. reflexivity. Qed.





(** ** Learning twice from one invoice *)

Lemma reinforceMemory_skip (feedback : LearningFeedback) (this : LearningEngine)
    (w : World) :
  fb_invoiceId feedback ∈ processedInvoices this ->
  reinforceMemory feedback this w =
  (set_console (console w ++ [skipWarning feedback]) w, Ok (this, tt)).
Proof.
  intros Hin. unfold reinforceMemory, M_catch.
  rewrite bool_decide_eq_true_2 by exact Hin. reflexivity.
Qed.

Lemma reinforceMemory_marks (feedback : LearningFeedback) (this this1 : LearningEngine)
    (w w1 : World) :
  reinforceMemory feedback this w = (w1, Ok (this1, tt)) ->
  fb_invoiceId feedback ∈ processedInvoices this1.
Proof.
  unfold reinforceMemory, M_catch.
  destruct (bool_decide (fb_invoiceId feedback ∈ processedInvoices this)) eqn:E.
  - apply bool_decide_eq_true in E. unfold M_bind, console_write, M_modify, M_ret.
    intros [= _ <-]. exact E.
  - unfold M_bind at 1.
    destruct (reinforceMemory_learn feedback w) as [w' [events|e]].
    + unfold M_bind, console_write, M_modify, M_ret. intros [= _ <-].
      simpl. set_solver.
    + unfold M_throw. discriminate.
Qed.

(** A second call for an invoice that has been learned from only writes
    a warning to the console: the store, its audit log included, and the
    engine are left as they were. *)
Lemma reinforceMemory_second_call
    (feedback feedback' : LearningFeedback) (this this1 : LearningEngine)
    (w w1 : World) :
  reinforceMemory feedback this w = (w1, Ok (this1, tt)) ->
  fb_invoiceId feedback' = fb_invoiceId feedback ->
  reinforceMemory feedback' this1 w1 =
  (set_console (console w1 ++ [skipWarning feedback']) w1, Ok (this1, tt)) /\
  db (fst (reinforceMemory feedback' this1 w1)) = db w1.
Proof.
  intros Hfirst Hid.
  assert (Hin : fb_invoiceId feedback' ∈ processedInvoices this1).
  { rewrite Hid. eapply reinforceMemory_marks. exact Hfirst. }
  rewrite (reinforceMemory_skip feedback' this1 w1 Hin). split; reflexivity.
Qed.

(** C4, evaluated: learning from invoice INV-001 and then learning from
    it again.  The second call changes no table, appends no row to the
    audit log, and reports the skip on the console only. *)
Lemma reinforceMemory_skip_not_audited :
  exists this1 w1 w2,
    reinforceMemory sample_feedback new_LearningEngine (sample_world []) =
      (w1, Ok (this1, tt)) /\
    reinforceMemory sample_feedback this1 w1 = (w2, Ok (this1, tt)) /\
    db w2 = db w1 /\
    length (audit_logs (db w1)) = 1 /\
    length (audit_logs (db w2)) = 1 /\
    console w2 = console w1 ++ ["Learning already processed for invoice INV-001"].
Proof.
  destruct (reinforceMemory sample_feedback new_LearningEngine (sample_world []))
    as [w1 [[this1 []]|e]] eqn:E1.
  - destruct (reinforceMemory_second_call _ sample_feedback _ _ _ _ E1 eq_refl)
      as [E2 Hdb].
    exists this1, w1, (set_console (console w1 ++ [skipWarning sample_feedback]) w1).
    split; [reflexivity|]. split; [exact E2|]. split; [reflexivity|].
    assert (Hlen : length (audit_logs (db w1)) = 1).
    { assert (Hw : w1 = fst (reinforceMemory sample_feedback new_LearningEngine
                               (sample_world []))) by (by rewrite E1).
      rewrite Hw. reflexivity. }
    repeat split; exact Hlen.
  - exfalso. revert E1. unfold reinforceMemory, M_catch.
    rewrite bool_decide_eq_false_2 by (simpl; set_solver).
    vm_compute. discriminate.
Qed.

(** ** High-confidence corrections *)

Section ApplyProperties.
Context {rt : JsRuntime}.

Lemma applyCorrections_run
    (invoiceId : string) (cs : list ProposedCorrection)
    (st : Invoice * list ProposedCorrection) (w : World) :
  exists w',
    applyCorrections invoiceId cs st w =
      (w', Ok (fold_left applyCorrection cs (fst st), snd st ++ cs)) /\
    db w' = db w /\ pool w' = pool w.
Proof.
  revert st w. induction cs as [|c cs IH]; intros st w.
  - exists w. simpl. unfold M_ret. rewrite app_nil_r. by destruct st.
  - simpl. unfold M_bind, logCorrectionApplication, console_write, M_modify.
    destruct (IH (applyCorrection (fst st) c, snd st ++ [c])
                 (set_console (console w ++
                    ["Applied correction: " +:+ field c +:+ " changed from " +:+
                     quoted (toStringAny (originalValue c)) +:+ " to " +:+
                     quoted (toStringAny (correctedValue c)) +:+
                     " for invoice " +:+ invoiceId]) w))
      as (w' & -> & Hdb & Hpool).
    exists w'. simpl. rewrite <- app_assoc. simpl. repeat split; assumption.
Qed.

Lemma getVendorMemory_run (vendorName : string) (w : World) :
  pool w = true ->
  exists w' vendorMemory,
    getVendorMemory vendorName w = (w', Ok vendorMemory) /\ pool w' = true.
Proof.
  intros Hpool. destruct w as [p d c n out]. simpl in Hpool. subst p.
  unfold getVendorMemory, logMemoryAccess, M_catch, M_bind, getClient, M_get,
    freshId, insertAuditRow, M_modify, M_ret.
  cbn [pool db clock draws console set_draws set_db].
  eexists. eexists. split; reflexivity.
Qed.

Lemma normalizeInvoiceFields_run
    (invoice : Invoice) (vendorMemory : list VendorMemory) (w : World) :
  exists w' normalized,
    normalizeInvoiceFields invoice vendorMemory w = (w', Ok normalized) /\
    ni_invoice normalized = invoice /\ pool w' = pool w.
Proof.
  unfold normalizeInvoiceFields.
  destruct (fold_left (applyVendorMemory invoice) vendorMemory _)
    as [[fields applied] warned].
  eexists. eexists. split; [reflexivity|]. split; reflexivity.
Qed.

(** C3 (as the code has it). With the store connected,
    [applyHighConfidenceCorrections] returns, and the corrections it
    applies are exactly the proposals of confidence at or above 0.85, in
    their order and whatever their field: each is written to the invoice
    by the [switch], amount, vendorName and invoiceNumber included. *)
Theorem applyHighConfidenceCorrections_applies
    (invoice : Invoice) (corrections : list ProposedCorrection) (w : World) :
  pool w = true ->
  exists w' corrected,
    applyHighConfidenceCorrections invoice corrections w = (w', Ok corrected) /\
    ci_appliedCorrections corrected =
      List.filter (fun c => num_ge (confidence c) (Fin 0.85)) corrections /\
    (forall p, p ∈ ci_appliedCorrections corrected <->
               p ∈ corrections /\ num_ge (confidence p) (Fin 0.85) = true) /\
    ci_invoice corrected =
      fold_left applyCorrection
                (List.filter (fun c => num_ge (confidence c) (Fin 0.85)) corrections)
                invoice.
Proof.
  intros Hpool.
  destruct (getVendorMemory_run (inv_vendorName invoice) w Hpool)
    as (w1 & vendorMemory & Hget & Hpool1).
  destruct (normalizeInvoiceFields_run invoice vendorMemory w1)
    as (w2 & normalized & Hnorm & Hinv & _).
  destruct (applyCorrections_run (inv_id invoice)
              (List.filter (fun c => num_ge (confidence c) (Fin 0.85)) corrections)
              (ni_invoice normalized, []) w2) as (w3 & Happly & _ & _).
  exists w3. eexists.
  split.
  - unfold applyHighConfidenceCorrections, M_catch, M_bind.
    rewrite Hget, Hnorm, Happly. reflexivity.
  - simpl. split; [reflexivity|]. split.
    + intros p. rewrite !list_elem_of_In, filter_In. reflexivity.
    + by rewrite Hinv.
Qed.

End ApplyProperties.

Lemma applyHighConfidenceCorrections_applies_witness :
  exists w' corrected,
    applyHighConfidenceCorrections (rt := example_runtime) sample_invoice
      [sample_correction "PO" (AStr "PO-7") (Fin 0.9);
       sample_correction "notes" (AStr "n/a") (Fin 0.7)]
      (sample_world []) = (w', Ok corrected) /\
    ci_appliedCorrections corrected = [sample_correction "PO" (AStr "PO-7") (Fin 0.9)].
Proof.
  destruct (applyHighConfidenceCorrections_applies (rt := example_runtime)
              sample_invoice
              [sample_correction "PO" (AStr "PO-7") (Fin 0.9);
               sample_correction "notes" (AStr "n/a") (Fin 0.7)]
              (sample_world []) eq_refl) as (w' & corrected & Hrun & Happlied & _).
  exists w', corrected. split; [exact Hrun | exact Happlied].
Defined.

(** C3 fails as stated: a correction of the amount at confidence 0.9 is
    applied, and the amount of the invoice is overwritten. *)
Lemma applyHighConfidenceCorrections_applies_protected :
  exists w' corrected,
    applyHighConfidenceCorrections (rt := example_runtime) sample_invoice
      [sample_correction "amount" (ANum (Fin 250)) (Fin 0.9)]
      (sample_world []) = (w', Ok corrected) /\
    sample_correction "amount" (ANum (Fin 250)) (Fin 0.9)
      ∈ ci_appliedCorrections corrected /\
    field (sample_correction "amount" (ANum (Fin 250)) (Fin 0.9)) ∈ protectedFields /\
    inv_amount sample_invoice = Fin 1250 /\
    inv_amount (ci_invoice corrected) = Fin 250.
Proof.
  eexists. eexists. split; [vm_compute; reflexivity|].
  split; [apply list_elem_of_singleton; reflexivity|].
  split; [apply (includes_true protectedFields); reflexivity|].
  split; reflexivity.
Qed.

(** ** The forcing flags in terms of the inputs *)

Lemma elem_of_snoc_if (b : bool) (l : list string) (x y : string) :
  y ∈ (if b then l ++ [x] else l) <-> y ∈ l \/ (b = true /\ y = x).
Proof.
  destruct b.
  - rewrite elem_of_app, list_elem_of_singleton. split.
    + intros [Hl | ->]; [by left | by right].
    + intros [Hl | [_ ->]]; [by left | by right].
  - split; [by left|]. intros [Hl | [Hb _]]; [exact Hl | discriminate].
Qed.

(** Membership of a flag in the list [applySafetyConstraints] builds. *)
Ltac flag_member :=
  repeat (apply elem_of_snoc_if;
          first [right; split; [assumption | reflexivity] | left]).

(** With the default thresholds, a forcing flag is raised exactly when more
    than five proposals are at or above 0.85, or a proposal on a protected
    field is below 0.85, or an amount changes by more than 20%, or the
    overall confidence is below 0.65. *)
Lemma forcing_flag_present_iff (ps : list ProposedCorrection) (conf : number) :
  forcing_flag_present (applySafetyConstraints defaultDecisionEngine ps conf) <->
  5 < length (List.filter (fun c => num_ge (confidence c) (Fin 0.85)) ps) \/
  (exists p, p ∈ ps /\ field p ∈ protectedFields /\
             num_lt (confidence p) (Fin 0.85) = true) \/
  (exists p, p ∈ ps /\ isLargeValueChange p = true) \/
  num_lt conf (Fin 0.65) = true.
Proof.
  unfold forcing_flag_present, applySafetyConstraints. cbv zeta.
  change (autoAccept (thresholds defaultDecisionEngine)) with (Fin 0.85).
  change (autoCorrect (thresholds defaultDecisionEngine)) with (Fin 0.65).
  change (humanReview (thresholds defaultDecisionEngine)) with (Fin 0.65).
  set (low := (0 <? length (List.filter
                 (fun c => num_lt (confidence c) (Fin 0.65)) ps))%nat).
  set (many := (5 <? length (List.filter
                  (fun c => num_ge (confidence c) (Fin 0.85)) ps))%nat).
  set (critical := (0 <? length (List.filter
                      (fun c => includes criticalFields (field c) &&
                                num_lt (confidence c) (Fin 0.85)) ps))%nat).
  set (large := (0 <? length (List.filter (fun c => isLargeValueChange c) ps))%nat).
  assert (Hmany : many = true <->
                  5 < length (List.filter
                                (fun c => num_ge (confidence c) (Fin 0.85)) ps))
    by apply Nat.ltb_lt.
  assert (Hcritical : critical = true <->
                      exists p, p ∈ ps /\ field p ∈ protectedFields /\
                                num_lt (confidence p) (Fin 0.85) = true).
  { unfold critical. rewrite filter_nonempty. split.
    - intros (p & Hp & Hc). apply andb_true_iff in Hc as [Hf Hc].
      exists p. repeat split; try done. by apply includes_true in Hf.
    - intros (p & Hp & Hf & Hc). exists p. split; [done|].
      apply andb_true_iff. split; [by apply includes_true | done]. }
  assert (Hlarge : large = true <-> exists p, p ∈ ps /\ isLargeValueChange p = true)
    by apply filter_nonempty.
  rewrite <- Hmany, <- Hcritical, <- Hlarge.
  split.
  - intros (f & Hin & Hforce).
    repeat (apply elem_of_snoc_if in Hin as [Hin|[Hb ->]]); auto.
    + by apply not_elem_of_nil in Hin.
    + exfalso. apply includes_true in Hforce. discriminate.
  - assert (Hin : forall f b,
             b = true ->
             f ∈ blockingConstraints ->
             (b = true ->
              f ∈ applySafetyConstraints defaultDecisionEngine ps conf) ->
             exists f', f' ∈ applySafetyConstraints defaultDecisionEngine ps conf /\
                        f' ∈ forcingFlags)
      by (intros f b Hb Hf Hin; exists f; split; [by apply Hin | exact Hf]).
    unfold applySafetyConstraints in Hin. cbv zeta in Hin.
    change (autoAccept (thresholds defaultDecisionEngine)) with (Fin 0.85) in Hin.
    change (autoCorrect (thresholds defaultDecisionEngine)) with (Fin 0.65) in Hin.
    change (humanReview (thresholds defaultDecisionEngine)) with (Fin 0.65) in Hin.
    fold low many critical large in Hin.
    intros [H|[H|[H|H]]].
    + apply (Hin "too-many-corrections" many H);
        [apply (includes_true blockingConstraints); reflexivity|].
      intros _. flag_member.
    + apply (Hin "critical-field-protection" critical H);
        [apply (includes_true blockingConstraints); reflexivity|].
      intros _. flag_member.
    + apply (Hin "large-value-change" large H);
        [apply (includes_true blockingConstraints); reflexivity|].
      intros _. flag_member.
    + apply (Hin "overall-low-confidence" _ H);
        [apply (includes_true blockingConstraints); reflexivity|].
      intros _. flag_member.
Qed.

(** ** The model on sample inputs *)

Example toFixed_one_digit : toFixed (Fin 85.04) 1 = "85.0".
Proof. reflexivity. Qed.

Example toFixed_rounds_half_up : toFixed (Fin (-1.25)) 1 = "-1.3".
Proof. reflexivity. Qed.

Example division_by_zero :
  num_div (Fin 0) (Fin 0) = NaN /\ num_div (Fin 2) (Fin 0) = PosInf /\
  num_or NaN (Fin 0) = Fin 0.
Proof. repeat split. Qed.

Example decision_auto_accept :
  action (makeProcessingDecision defaultDecisionEngine sample_invoice
            (sample_insights (Fin 0.9)) []) = AutoAccept.
Proof. reflexivity. Qed.

Example decision_auto_accept_safe_correction :
  let d := makeProcessingDecision defaultDecisionEngine sample_invoice
             (sample_insights (Fin 0.9))
             [sample_correction "PO" (AStr "PO-7") (Fin 0.9)] in
  action d = AutoAccept /\
  pd_appliedCorrections d = [sample_correction "PO" (AStr "PO-7") (Fin 0.9)].
Proof. split; reflexivity. Qed.

Example decision_auto_correct_protected_field :
  let d := makeProcessingDecision defaultDecisionEngine sample_invoice
             (sample_insights (Fin 0.9))
             [sample_correction "vendorName" (AStr "ACME Corporation") (Fin 0.9)] in
  action d = AutoCorrect /\
  pd_appliedCorrections d =
    [sample_correction "vendorName" (AStr "ACME Corporation") (Fin 0.9)].
Proof. split; reflexivity. Qed.

Example decision_auto_correct :
  action (makeProcessingDecision defaultDecisionEngine sample_invoice
            (sample_insights (Fin 0.7)) []) = AutoCorrect.
Proof. reflexivity. Qed.

Example decision_nan_confidence :
  let d := makeProcessingDecision defaultDecisionEngine sample_invoice
             (sample_insights NaN) [] in
  action d = HumanReview /\ safetyConstraints d = [].
Proof. split; reflexivity. Qed.

Example decision_large_amount_change :
  let d := makeProcessingDecision defaultDecisionEngine sample_invoice
             (sample_insights (Fin 0.95))
             [{| field := "amount"; originalValue := ANum (Fin 100);
                 correctedValue := ANum (Fin 130); confidence := Fin 0.9;
                 memorySourceId := "cm-2"; pc_reasoning := "" |}] in
  action d = HumanReview /\ safetyConstraints d = ["large-value-change"].
Proof. split; reflexivity. Qed.

Example overall_confidence_mixed :
  num_eq
    (calculateOverallConfidence
       [sample_vendor (Fin 0.9) (Fin 9)]
       [correctionOfRow (sample_correction_row 70)] [])
    (Fin 0.76875).
Proof. vm_compute. reflexivity. Qed.

(** Rounding shows at a threshold: corrections of confidence 0.70 and 0.60
    give 0.6499999999999999, below the 0.65 of auto-correct. *)
Example overall_confidence_rounded :
  let corrections := [correctionOfRow (sample_correction_row 70);
                      correctionOfRow (sample_correction_row 60)] in
  Binary64.calculateOverallConfidence [] corrections [] =
    Binary64.binary64 (Fin 0.6499999999999999) /\
  Binary64.ltb (Binary64.calculateOverallConfidence [] corrections [])
               (Binary64.binary64 (Fin 0.65)) = true.
Proof. split; vm_compute; reflexivity. Qed.

Example levenshtein_kitten_sitting :
  levenshteinDistance (chars "kitten") (chars "sitting") = 3.
Proof. reflexivity. Qed.

Example similarity_kitten_sitting :
  calculateStringSimilarity "kitten" "sitting" = Fin (4 / 7).
Proof. reflexivity. Qed.

Example similarity_empty : calculateStringSimilarity "" "" = Fin 1.
Proof. reflexivity. Qed.

Example sanitizeErrorMessage_quotes :
  sanitizeErrorMessage (String doubleQuote "id" +:+ String doubleQuote " missing") =
  "'id' missing".
Proof. reflexivity. Qed.

Example published_result_valid :
  let r := createInvoiceProcessingResult (rt := example_runtime) 0 sample_invoice
             sample_decision (insightsFromMemory [] [] []) [] in
  decision r = HumanReview /\
  num_eq (confidenceScore r) (Fin 0.1) /\
  isValid (validateOutput (rt := example_runtime) r) = true /\
  length (auditTrail r) = 1.
Proof. vm_compute. repeat split. Qed.

Example invalid_audit_timestamp :
  let log :=
    {| al_id := "audit_1"; al_operation := "memory_access";
       al_entityType := "vendor_memory"; al_entityId := "Acme Corp";
       al_beforeState := None; al_afterState := None;
       al_reasoning := "Retrieved 0 vendor_memory records for key: Acme Corp";
       al_confidenceScore := None; al_timestamp := None |} in
  createInvoiceProcessingResult (rt := example_runtime) 0 sample_invoice
    sample_decision (insightsFromMemory [] [] []) [log] =
  createErrorOutput (rt := example_runtime) 0 "INV-001" "Invalid time value".
Proof. reflexivity. Qed.

Example rejection_floors_at_zero :
  storedConfidence "cm-1"
    (fst (updateCorrectionMemoryFeedback "cm-1" false
            (sample_world [sample_correction_row 10]))) = Some (Fin (0 / 100)).
Proof. reflexivity. Qed.

Example approval_caps_at_one :
  storedConfidence "cm-1"
    (fst (updateCorrectionMemoryFeedback "cm-1" true
            (sample_world [sample_correction_row 95]))) = Some (Fin (100 / 100)).
Proof. reflexivity. Qed.

Example store_not_connected :
  snd (applyHighConfidenceCorrections (rt := example_runtime) sample_invoice []
         {| pool := false;
            db := {| vendor_memory := []; correction_memory := [];
                     resolution_memory := []; audit_logs := [] |};
            clock := 0; draws := 0; console := [] |}) =
  Err "Failed to apply corrections: Error: Database pool not initialized. Call initialize() first.".
Proof. reflexivity. Qed.

(** ** Further properties of the decision and of the output *)

(** A proposal below 0.65 is never attached to a decision. *)
Lemma low_confidence_never_applied
    (inv : Invoice) (ins : MemoryInsights) (ps : list ProposedCorrection)
    (p : ProposedCorrection) :
  p ∈ pd_appliedCorrections (makeProcessingDecision defaultDecisionEngine inv ins ps) ->
  p ∈ ps /\ num_ge (confidence p) (Fin 0.65) = true.
Proof.
  rewrite pd_appliedCorrections_makeProcessingDecision.
  destruct (action _); simpl; intros Hin.
  - apply list_elem_of_In, filter_In in Hin as [Hin Hc].
    apply andb_true_iff in Hc as [Hc _]. apply andb_true_iff in Hc as [Hc _].
    split; [by apply list_elem_of_In|].
    destruct (confidence p) as [q| | |]; simpl in *; try done.
    apply Qle_bool_iff in Hc. apply Qle_bool_iff. lra.
  - apply list_elem_of_In, filter_In in Hin as [Hin Hc].
    apply andb_true_iff in Hc as [Hc _]. apply andb_true_iff in Hc as [Hc _].
    split; [by apply list_elem_of_In | exact Hc].
  - by apply not_elem_of_nil in Hin.
Qed.

Section OutputContract.
Context {rt : JsRuntime}.
Variable now : Z.

(** What the validation needs of the runtime: an ISO string is not empty
    and parses back to a date. *)
Hypothesis toISOString_nonempty : forall t, toISOString t <> "".
Hypothesis toISOString_parses : forall t, dateParse (toISOString t) = Some t.

(** The error output passes the validation of the published contract. *)
Lemma createErrorOutput_valid (id e : string) :
  isValid (validateOutput (createErrorOutput now id e)) = true.
Proof.
  unfold validateOutput, createErrorOutput. cbv zeta. simpl.
  unfold validateAuditEntry. cbn [operationId timestamp at_reasoning].
  rewrite (bool_decide_eq_false_2 (toISOString now = ""))
    by apply toISOString_nonempty.
  rewrite toISOString_parses.
  rewrite (bool_decide_eq_false_2 ("error_" +:+ pretty now = "")) by done.
  rewrite (bool_decide_eq_false_2
             ("Processing error: " +:+ sanitizeErrorMessage e = "")) by done.
  destruct (bool_decide (id = "")) eqn:E.
  - reflexivity.
  - apply bool_decide_eq_false in E.
    rewrite (bool_decide_eq_false_2 (id = "")) by exact E. reflexivity.
Qed.

(** Whatever happens, the published result passes the validation. *)
Lemma createInvoiceProcessingResult_valid
    (invoice : Invoice) (d : ProcessingDecision) (ins : MemoryInsights)
    (logs : list AuditLog) :
  isValid (validateOutput (createInvoiceProcessingResult now invoice d ins logs)) = true.
Proof.
  destruct (createInvoiceProcessingResult_cases now invoice d ins logs)
    as [[_ Hvalid]|(e & _ & ->)].
  - exact Hvalid.
  - apply createErrorOutput_valid.
Qed.

End OutputContract.

(** ** The flags and the corrections of a decision, for any thresholds *)

Lemma filter_existsb {A} (P : A -> bool) (l : list A) :
  (0 <? length (List.filter P l))%nat = existsb P l.
Proof.
  induction l as [|x xs IH]; simpl; [reflexivity|].
  destruct (P x); simpl; [reflexivity | exact IH].
Qed.

Lemma filter_none {A} (P : A -> bool) (l : list A) :
  (forall x, P x = false) -> List.filter P l = [].
Proof.
  intros H. induction l as [|x xs IH]; simpl; [reflexivity|]. by rewrite H.
Qed.

(** The list of flags is the concatenation of five optional flags. *)
Lemma applySafetyConstraints_flags this ps conf :
  applySafetyConstraints this ps conf =
  (if existsb (fun c => num_lt (confidence c) (autoCorrect (thresholds this))) ps
   then ["low-confidence-corrections-blocked"] else []) ++
  (if (5 <? length (List.filter
                      (fun c => num_ge (confidence c) (autoAccept (thresholds this)))
                      ps))%nat
   then ["too-many-corrections"] else []) ++
  (if existsb (fun c => includes criticalFields (field c) &&
                        num_lt (confidence c) (autoAccept (thresholds this))) ps
   then ["critical-field-protection"] else []) ++
  (if existsb (fun c => isLargeValueChange c) ps then ["large-value-change"] else []) ++
  (if num_lt conf (humanReview (thresholds this))
   then ["overall-low-confidence"] else []).
Proof.
  unfold applySafetyConstraints. cbv zeta. rewrite !filter_existsb.
  repeat match goal with
         | |- context [if ?b then _ else _] => destruct b
         end; reflexivity.
Qed.

Lemma low_confidence_flag_includes this ps conf :
  includes (applySafetyConstraints this ps conf) "low-confidence-corrections-blocked" =
  existsb (fun c => num_lt (confidence c) (autoCorrect (thresholds this))) ps.
Proof.
  rewrite applySafetyConstraints_flags.
  repeat match goal with
         | |- context [if ?b then _ else _] => destruct b
         end; reflexivity.
Qed.

Lemma unblocked_flags this analysis flags ps f :
  determineAction this analysis flags ps <> HumanReview ->
  f ∈ blockingConstraints -> includes flags f = false.
Proof.
  intros Hact Hf. apply includes_false. intros Hin. apply Hact.
  apply determineAction_blocked. exists f. split; assumption.
Qed.

Lemma blocking_critical : "critical-field-protection" ∈ blockingConstraints.
Proof. apply (includes_true blockingConstraints). reflexivity. Qed.

Lemma blocking_large : "large-value-change" ∈ blockingConstraints.
Proof. apply (includes_true blockingConstraints). reflexivity. Qed.

(** X1. For any thresholds, the corrections attached to a decision are
    determined by its action: a human-review decision attaches none; an
    auto-correct decision attaches exactly the proposals at or above the
    auto-correct threshold, protected fields included; an auto-accept
    decision attaches the proposals at or above the auto-accept threshold
    on unprotected fields, and none at all as soon as one proposal is below
    the auto-correct threshold. *)
Theorem attached_corrections_by_action
    (this : DecisionEngine) (inv : Invoice) (ins : MemoryInsights)
    (ps : list ProposedCorrection) :
  let d := makeProcessingDecision this inv ins ps in
  pd_appliedCorrections d =
  match action d with
  | AutoAccept =>
      if existsb (fun c => num_lt (confidence c) (autoCorrect (thresholds this))) ps
      then []
      else List.filter (fun c => num_ge (confidence c) (autoAccept (thresholds this)) &&
                                 negb (includes criticalFields (field c))) ps
  | AutoCorrect =>
      List.filter (fun c => num_ge (confidence c) (autoCorrect (thresholds this))) ps
  | HumanReview => []
  end.
Proof.
  cbv zeta. rewrite pd_appliedCorrections_makeProcessingDecision.
  destruct (action (makeProcessingDecision this inv ins ps)) eqn:E;
    unfold filterCorrectionsForAction.
  - rewrite low_confidence_flag_includes.
    destruct (existsb _ ps).
    + apply filter_none. intros x. apply andb_false_r.
    + apply filter_ext. intros x. apply andb_true_r.
  - rewrite action_makeProcessingDecision in E.
    assert (Hfree : determineAction this
              (evaluateConfidenceThresholds this (overallConfidence ins))
              (applySafetyConstraints this ps (overallConfidence ins)) ps <> HumanReview)
      by (rewrite E; discriminate).
    rewrite (unblocked_flags _ _ _ _ _ Hfree blocking_critical).
    rewrite (unblocked_flags _ _ _ _ _ Hfree blocking_large).
    apply filter_ext. intros x. simpl. by rewrite !andb_true_r.
  - reflexivity.
Qed.

(** X2. For any thresholds: an auto-accept decision has overall confidence
    at or above the auto-accept threshold, an auto-correct decision at or
    above the auto-correct threshold; a decision other than human-review
    carries no flag besides the one on low-confidence proposals; and a NaN
    overall confidence always gives human-review. *)
Theorem automatic_action_needs_confidence
    (this : DecisionEngine) (inv : Invoice) (ins : MemoryInsights)
    (ps : list ProposedCorrection) :
  let d := makeProcessingDecision this inv ins ps in
  (action d = AutoAccept ->
   num_ge (overallConfidence ins) (autoAccept (thresholds this)) = true) /\
  (action d = AutoCorrect ->
   num_ge (overallConfidence ins) (autoCorrect (thresholds this)) = true) /\
  (action d <> HumanReview ->
   forall f, f ∈ safetyConstraints d -> f = "low-confidence-corrections-blocked") /\
  (overallConfidence ins = NaN -> action d = HumanReview).
Proof.
  cbv zeta.
  rewrite action_makeProcessingDecision, safetyConstraints_makeProcessingDecision.
  set (conf := overallConfidence ins).
  set (flags := applySafetyConstraints this ps conf).
  assert (Hshape : forall a,
            determineAction this (evaluateConfidenceThresholds this conf) flags ps = a ->
            a <> HumanReview ->
            (a = AutoAccept -> num_ge conf (autoAccept (thresholds this)) = true) /\
            (a = AutoCorrect -> num_ge conf (autoCorrect (thresholds this)) = true)).
  { intros a Ha Hne. unfold determineAction in Ha. simpl in Ha.
    destruct (existsb _ flags); [congruence|].
    destruct (num_ge conf (autoAccept (thresholds this))) eqn:Eaa; simpl in Ha.
    - destruct (_ || _) in Ha.
      + subst a. split; [done | discriminate].
      + destruct (num_ge conf (autoCorrect (thresholds this))) eqn:Eac;
          subst a; split; try done; discriminate.
    - destruct (num_ge conf (autoCorrect (thresholds this))) eqn:Eac;
        subst a; split; try done; discriminate. }
  split; [|split; [|split]].
  - intros E. apply (Hshape _ E); [discriminate | reflexivity].
  - intros E. apply (Hshape _ E); [discriminate | reflexivity].
  - intros Hne f Hf.
    assert (Hmember : f ∈ ["low-confidence-corrections-blocked"; "too-many-corrections";
                           "critical-field-protection"; "large-value-change";
                           "overall-low-confidence"]).
    { unfold flags in Hf. rewrite applySafetyConstraints_flags in Hf.
      repeat match type of Hf with
             | context [if ?b then _ else _] => destruct b
             end; simpl in Hf;
        repeat (apply elem_of_cons in Hf; destruct Hf as [->|Hf]);
        try (by apply not_elem_of_nil in Hf);
        apply (includes_true _ _); reflexivity. }
    destruct (decide (f = "low-confidence-corrections-blocked")) as [|Hother]; [done|].
    assert (Hb : f ∈ blockingConstraints).
    { repeat (apply elem_of_cons in Hmember; destruct Hmember as [->|Hmember]);
        try done; try (apply (includes_true blockingConstraints); reflexivity).
      by apply not_elem_of_nil in Hmember. }
    apply (unblocked_flags _ _ _ _ _ Hne), includes_false in Hb. contradiction.
  - intros Hnan. unfold determineAction. simpl. rewrite Hnan.
    assert (Hge : forall x, num_ge NaN x = false) by (by intros []).
    rewrite !Hge. by destruct (existsb _ flags).
Qed.

(** ** The memory sources of a decision *)

Lemma elem_of_dedup_first (seen l : list string) (x : string) :
  x ∈ dedup_first seen l <-> x ∈ l /\ x ∉ seen.
Proof.
  revert seen. induction l as [|y ys IH]; intros seen; simpl.
  - split; [intros H | intros [H _]]; by apply not_elem_of_nil in H.
  - destruct (bool_decide (y ∈ seen)) eqn:E.
    + apply bool_decide_eq_true in E. rewrite IH, elem_of_cons.
      split; intros [H Hn]; (split; [|exact Hn]); [by right|].
      destruct H as [->|H]; [contradiction | exact H].
    + apply bool_decide_eq_false in E. rewrite !elem_of_cons, IH, not_elem_of_cons.
      split.
      * intros [->|[H [Hne Hn]]]; [split; [by left | exact E] | split; [by right | exact Hn]].
      * intros [[->|H] Hn]; [by left|].
        destruct (decide (x = y)) as [->|Hne]; [by left | right; done].
Qed.

Lemma NoDup_dedup_first (seen l : list string) : NoDup (dedup_first seen l).
Proof.
  revert seen. induction l as [|y ys IH]; intros seen; simpl.
  - constructor.
  - destruct (bool_decide (y ∈ seen)); [apply IH|].
    constructor; [|apply IH].
    rewrite elem_of_dedup_first, not_elem_of_cons. intros [_ [Hne _]]. by apply Hne.
Qed.

(** X3. The memory sources of a decision list each identifier once, and
    they are exactly the identifiers of the recalled vendor, correction and
    resolution patterns and of the sources of the proposals. *)
Theorem memorySourceIds_distinct
    (this : DecisionEngine) (inv : Invoice) (ins : MemoryInsights)
    (ps : list ProposedCorrection) :
  let d := makeProcessingDecision this inv ins ps in
  NoDup (memorySourceIds d) /\
  forall id, id ∈ memorySourceIds d <->
             id ∈ map vm_id (vendorPatterns ins) \/
             id ∈ map cm_id (suggestedCorrections ins) \/
             id ∈ map rm_id (historicalResolutions ins) \/
             id ∈ map memorySourceId ps.
Proof.
  cbv zeta. change (memorySourceIds (makeProcessingDecision this inv ins ps))
    with (extractMemorySourceIds ins ps).
  unfold extractMemorySourceIds. split; [apply NoDup_dedup_first|].
  intros id. rewrite elem_of_dedup_first, !elem_of_app.
  split; [intros [H _]; exact H | intros H; split; [exact H | apply not_elem_of_nil]].
Qed.

(** ** Decisions and the validators of interfaces/validation.ts *)

Lemma length_append (s t : string) :
  String.length (s +:+ t) = (String.length s + String.length t)%nat.
Proof. induction s as [|c s IH]; simpl; [reflexivity | by rewrite IH]. Qed.

Lemma join_cons_nonempty (sep s : string) (l : list string) :
  (0 <? String.length s)%nat = true ->
  (0 <? String.length (join sep (s :: l)))%nat = true.
Proof.
  intros Hs. unfold join. destruct l as [|t l]; simpl; [exact Hs|].
  rewrite length_append. apply Nat.ltb_lt in Hs. apply Nat.ltb_lt. lia.
Qed.

Lemma generateExplanation_nonempty this act conf analysis flags applied ins ps :
  (0 <? String.length
          (generateExplanation this act conf analysis flags applied ins ps))%nat = true.
Proof.
  unfold generateExplanation. cbv zeta. simpl app.
  apply join_cons_nonempty. reflexivity.
Qed.

(** The reasoning of a decision is its explanation, which is never empty. *)
Lemma decision_reasoning_nonempty
    (this : DecisionEngine) (inv : Invoice) (ins : MemoryInsights)
    (ps : list ProposedCorrection) :
  (0 <? String.length (pd_reasoning (makeProcessingDecision this inv ins ps)))%nat = true.
Proof.
  change (pd_reasoning (makeProcessingDecision this inv ins ps))
    with (generateExplanation this
            (action (makeProcessingDecision this inv ins ps)) (overallConfidence ins)
            (evaluateConfidenceThresholds this (overallConfidence ins))
            (applySafetyConstraints this ps (overallConfidence ins))
            (pd_appliedCorrections (makeProcessingDecision this inv ins ps)) ins ps).
  apply generateExplanation_nonempty.
Qed.

(** X4. A decision of [makeProcessingDecision] passes
    [isValidProcessingDecision] exactly when the overall confidence of the
    insights is a valid confidence score: its reasoning is never empty. *)
Theorem makeProcessingDecision_valid
    (this : DecisionEngine) (inv : Invoice) (ins : MemoryInsights)
    (ps : list ProposedCorrection) :
  isValidProcessingDecision (makeProcessingDecision this inv ins ps) =
  isValidConfidenceScore (overallConfidence ins).
Proof.
  unfold isValidProcessingDecision.
  change (pd_confidenceScore (makeProcessingDecision this inv ins ps))
    with (overallConfidence ins).
  rewrite decision_reasoning_nonempty. apply andb_true_r.
Qed.

(** ** Sanitized text *)

Lemma chars_removeChars (drop : ascii -> bool) (s : string) :
  chars (removeChars drop s) = List.filter (fun c => negb (drop c)) (chars s).
Proof.
  induction s as [|c s IH]; simpl; [reflexivity|].
  destruct (drop c); simpl; [exact IH | by rewrite <- IH].
Qed.

Lemma chars_mapChars (f : ascii -> ascii) (s : string) :
  chars (mapChars f s) = map f (chars s).
Proof. induction s as [|c s IH]; simpl; [reflexivity | by rewrite <- IH]. Qed.

Lemma chars_substring_0 (n : nat) (s : string) :
  chars (substring 0 n s) = take n (chars s).
Proof.
  revert s. induction n as [|n IH]; intros [|c s]; simpl; try reflexivity.
  by rewrite <- IH.
Qed.

Lemma removeChars_id (drop : ascii -> bool) (s : string) :
  Forall (fun c => drop c = false) (chars s) -> removeChars drop s = s.
Proof.
  induction s as [|c s IH]; simpl; [reflexivity|].
  intros H. inversion H as [|? ? Hc Hs]; subst. rewrite Hc. by rewrite IH.
Qed.

Lemma mapChars_id (f : ascii -> ascii) (s : string) :
  Forall (fun c => f c = c) (chars s) -> mapChars f s = s.
Proof.
  induction s as [|c s IH]; simpl; [reflexivity|].
  intros H. inversion H as [|? ? Hc Hs]; subst. rewrite Hc. by rewrite IH.
Qed.

Lemma substring_0_id (n : nat) (s : string) :
  String.length s <= n -> substring 0 n s = s.
Proof.
  revert n. induction s as [|c s IH]; intros [|n]; simpl; try reflexivity; try lia.
  intros H. rewrite IH; [reflexivity | lia].
Qed.

Lemma Forall_filter_bool {A} (P : A -> bool) (l : list A) :
  Forall (fun x => P x = true) (List.filter P l).
Proof.
  apply List.Forall_forall. intros x Hx. by apply filter_In in Hx as [_ Hx].
Qed.

Lemma Forall_take {A} (P : A -> Prop) (n : nat) (l : list A) :
  Forall P l -> Forall P (take n l).
Proof.
  intros H. revert n. induction H as [|x l Hx Hl IH]; intros [|n]; simpl;
    constructor; auto.
Qed.

(** The characters of a sanitized error message. *)
Lemma sanitizeErrorMessage_chars (message : string) :
  Forall (fun c => isControlChar c = false /\ c <> doubleQuote)
         (chars (sanitizeErrorMessage message)).
Proof.
  unfold sanitizeErrorMessage.
  rewrite chars_mapChars, chars_substring_0, chars_removeChars.
  apply Forall_map. apply Forall_take.
  eapply Forall_impl; [apply Forall_filter_bool|].
  intros c Hc. simpl in *. apply negb_true_iff in Hc.
  destruct (bool_decide (c = doubleQuote)) eqn:E.
  - split; [reflexivity | discriminate].
  - apply bool_decide_eq_false in E. split; [exact Hc | exact E].
Qed.

(** X5. A sanitized error message has at most 200 characters, none of
    them a control character or a double quote, and sanitizing it again
    changes nothing. *)
Theorem sanitizeErrorMessage_safe (message : string) :
  String.length (sanitizeErrorMessage message) <= 200 /\
  Forall (fun c => isControlChar c = false /\ c <> doubleQuote)
         (chars (sanitizeErrorMessage message)) /\
  sanitizeErrorMessage (sanitizeErrorMessage message) = sanitizeErrorMessage message.
Proof.
  pose proof (sanitizeErrorMessage_chars message) as Hchars.
  assert (Hlen : String.length (sanitizeErrorMessage message) <= 200).
  { rewrite <- length_chars. unfold sanitizeErrorMessage.
    rewrite chars_mapChars, length_map, chars_substring_0, length_take. lia. }
  split; [exact Hlen|]. split; [exact Hchars|].
  set (s := sanitizeErrorMessage message) in *.
  unfold sanitizeErrorMessage at 1.
  rewrite (removeChars_id isControlChar s).
  - rewrite (substring_0_id 200 s Hlen). apply mapChars_id.
    eapply Forall_impl; [exact Hchars|]. intros c [_ Hq]. simpl.
    by rewrite bool_decide_eq_false_2.
  - eapply Forall_impl; [exact Hchars|]. by intros c [Hc _].
Qed.

(** X6. [sanitizeValue] on every value.  It throws only on an invalid
    Date, and on an object that can neither be copied through JSON nor
    converted to a string.  Null and undefined give null, NaN gives null,
    a boolean and any other number are returned as they are, a Date gives
    its ISO string, and a string is returned without its control
    characters and cut to 1000 characters.  An object that is not a Date
    gives its JSON copy or, when that throws, the first 100 characters of
    its string.  Functions, symbols and bigints are returned as they
    are. *)
Theorem sanitizeValue_safe `{rt : JsRuntime} {object other : Type}
    (jsonCopy : object -> option (AnyValue.value object other))
    (toString : object -> result string) (v : AnyValue.value object other) :
  match v with
  | AnyValue.Primitive p =>
      match AnyValue.sanitizeValue jsonCopy toString v with
      | Err _ => p = ADate None
      | Ok (AnyValue.Primitive ANull) =>
          p = ANull \/ p = AUndefined \/ p = ANum NaN
      | Ok (AnyValue.Primitive (ABool b)) => p = ABool b
      | Ok (AnyValue.Primitive (ANum n)) => p = ANum n /\ num_isNaN n = false
      | Ok (AnyValue.Primitive (AStr s)) =>
          match p with
          | AStr original =>
              String.length s <= 1000 /\
              chars s = take 1000 (List.filter (fun c => negb (isControlChar c))
                                               (chars original))
          | _ => exists t, p = ADate (Some t) /\ s = toISOString t
          end
      | Ok _ => False
      end
  | AnyValue.Object o =>
      match jsonCopy o, toString o with
      | Some copy, _ => AnyValue.sanitizeValue jsonCopy toString v = Ok copy
      | None, Ok s =>
          exists cut,
            AnyValue.sanitizeValue jsonCopy toString v = Ok (AnyValue.Primitive (AStr cut)) /\
            String.length cut <= 100 /\ chars cut = take 100 (chars s)
      | None, Err e => AnyValue.sanitizeValue jsonCopy toString v = Err e
      end
  | AnyValue.Other x =>
      AnyValue.sanitizeValue jsonCopy toString v = Ok (AnyValue.Other x)
  end.
Proof.
  destruct v as [p|o|x]; simpl.
  - destruct p as [| |b|n|s|[t|]]; simpl; try done; auto.
    + destruct n; simpl; auto.
    + split.
      * rewrite <- length_chars, chars_substring_0, length_take. lia.
      * by rewrite chars_substring_0, chars_removeChars.
    + by exists t.
  - destruct (jsonCopy o) as [copy|]; [reflexivity|].
    destruct (toString o) as [s|e]; simpl; [|reflexivity].
    eexists. split; [reflexivity|]. split.
    + rewrite <- length_chars, chars_substring_0, length_take. lia.
    + apply chars_substring_0.
  - reflexivity.
Qed.

(** The string that stands for an object is cut but not cleaned: a control
    character of [String(o)] stays. *)
Example sanitizeValue_object_fallback :
  AnyValue.sanitizeValue (rt := example_runtime) (object := unit) (other := unit)
    (fun _ => None) (fun _ => Ok (String "010"%char "[object Object]"))
    (AnyValue.Object tt) =
  Ok (AnyValue.Primitive (AStr (String "010"%char "[object Object]"))).
Proof. reflexivity. Qed.

(** ** Clamped confidence *)

(** X7. [validateConfidenceScore] maps every number, NaN and the
    infinities included, into [0,1]; it leaves the numbers of [0,1] as they
    are, and clamping twice is clamping once. *)
Theorem validateConfidenceScore_clamps (score : number) :
  in_unit (validateConfidenceScore score) /\
  (in_unit score -> num_eq (validateConfidenceScore score) score) /\
  validateConfidenceScore (validateConfidenceScore score) = validateConfidenceScore score.
Proof.
  split; [apply validateConfidenceScore_in_unit|]. split.
  - destruct score as [q| | |]; simpl; try contradiction. intros [H0 H1].
    unfold validateConfidenceScore. simpl.
    destruct (Qle_bool 1 q) eqn:E1; simpl.
    + apply Qle_bool_iff in E1. lra.
    + destruct (Qle_bool 0 q) eqn:E0; simpl; [reflexivity|].
      apply Qle_bool_iff in H0. congruence.
  - destruct score as [q| | |]; try reflexivity.
    unfold validateConfidenceScore. simpl.
    destruct (Qle_bool 1 q) eqn:E1; simpl; [reflexivity|].
    destruct (Qle_bool 0 q) eqn:E0; simpl; [|reflexivity].
    by rewrite E1, E0.
Qed.

(** ** The published result and the validators *)

Lemma isValidConfidenceScore_clamped (score : number) :
  isValidConfidenceScore (validateConfidenceScore score) = true /\
  outOfUnit (validateConfidenceScore score) = false.
Proof.
  pose proof (validateConfidenceScore_in_unit score) as H.
  destruct (validateConfidenceScore score) as [q| | |]; simpl in H; try contradiction.
  destruct H as [H0 H1]. unfold isValidConfidenceScore, outOfUnit. simpl.
  unfold Qltb. apply Qle_bool_iff in H0, H1. by rewrite H0, H1.
Qed.

Lemma createStructuredReasoning_nonempty (d : ProcessingDecision) (ins : MemoryInsights) :
  (0 <? String.length (createStructuredReasoning d ins))%nat = true.
Proof.
  unfold createStructuredReasoning. cbv zeta.
  destruct (0 <? length (safetyConstraints d))%nat;
    destruct (0 <? length (mi_reasoning ins))%nat; simpl app;
    apply join_cons_nonempty; by destruct (action d).
Qed.

Lemma length_pos_nonempty (s : string) :
  (0 <? String.length s)%nat = negb (bool_decide (s = "")).
Proof. by destruct s. Qed.

Lemma num_ge_of_nat (n : nat) : num_ge (of_nat n) (Fin 0) = true.
Proof.
  unfold num_ge, of_nat. simpl. apply Qle_bool_iff.
  change 0%Q with (inject_Z 0). rewrite <- Zle_Qle. lia.
Qed.

Section PublishedResult.
Context {rt : JsRuntime}.
Variable now : Z.

(** X8. If the ISO string of the clock reading is not empty and parses as
    a date, the result [createInvoiceProcessingResult] returns passes both
    [validateOutput] and [isValidInvoiceProcessingResult], whatever the
    invoice, the decision, the insights and the audit logs. *)
Theorem published_result_passes_validators
    (invoice : Invoice) (d : ProcessingDecision) (ins : MemoryInsights)
    (logs : list AuditLog) :
  toISOString now <> "" ->
  dateParse (toISOString now) <> None ->
  let r := createInvoiceProcessingResult now invoice d ins logs in
  isValid (validateOutput r) = true /\ isValidInvoiceProcessingResult r = true.
Proof.
  intros Hiso Hparse. cbv zeta.
  destruct (createInvoiceProcessingResult_cases now invoice d ins logs)
    as [[Htry Hvalid]|(e & _ & ->)].
  - split; [exact Hvalid|].
    set (r := createInvoiceProcessingResult now invoice d ins logs) in *.
    unfold createInvoiceProcessingResult_try in Htry.
    destruct (result_mapM _ (pd_appliedCorrections d)) as [applied|]; [|discriminate].
    cbn [result_bind] in Htry.
    destruct (formatAuditTrail now logs d) as [trail|]; [|discriminate].
    cbn [result_bind] in Htry. cbv zeta in Htry.
    destruct (negb _) in Htry; [discriminate|].
    injection Htry as Hr.
    rewrite <- Hr in Hvalid |- *.
    assert (Eid : bool_decide (inv_id invoice = "") = false).
    { unfold validateOutput in Hvalid. cbv zeta in Hvalid.
      cbn [isValid invoiceId] in Hvalid.
      destruct (bool_decide (inv_id invoice = "")); [|reflexivity].
      simpl in Hvalid. discriminate. }
    unfold isValidInvoiceProcessingResult, calculateMemoryInsights. cbv zeta.
    cbn [invoiceId confidenceScore reasoning memoryInsights vendorPatternsUsed
         correctionsApplied historicalAccuracy].
    rewrite length_pos_nonempty, Eid.
    rewrite !(proj1 (isValidConfidenceScore_clamped _)).
    rewrite createStructuredReasoning_nonempty.
    rewrite !num_ge_of_nat. reflexivity.
  - split.
    + unfold validateOutput, createErrorOutput. cbv zeta. simpl.
      unfold validateAuditEntry. cbn [operationId timestamp at_reasoning].
      rewrite (bool_decide_eq_false_2 (toISOString now = "")) by exact Hiso.
      destruct (dateParse (toISOString now)); [|contradiction].
      rewrite (bool_decide_eq_false_2 ("error_" +:+ pretty now = "")) by done.
      rewrite (bool_decide_eq_false_2
                 ("Processing error: " +:+ sanitizeErrorMessage e = "")) by done.
      destruct (bool_decide (inv_id invoice = "")) eqn:E.
      * reflexivity.
      * apply bool_decide_eq_false in E.
        rewrite (bool_decide_eq_false_2 (inv_id invoice = "")) by exact E. reflexivity.
    + unfold isValidInvoiceProcessingResult, createErrorOutput. simpl.
      rewrite andb_true_r.
      destruct (bool_decide (inv_id invoice = "")) eqn:E; [reflexivity|].
      by rewrite length_pos_nonempty, E.
Qed.

End PublishedResult.

Lemma published_result_passes_validators_witness :
  let r := createInvoiceProcessingResult (rt := example_runtime) 0 unnamed_invoice
             sample_decision (insightsFromMemory [] [] []) [] in
  isValid (validateOutput (rt := example_runtime) r) = true /\
  isValidInvoiceProcessingResult r = true.
Proof.
  apply (published_result_passes_validators (rt := example_runtime) 0 unnamed_invoice
           sample_decision (insightsFromMemory [] [] []) []).
  - vm_compute. discriminate.
  - vm_compute. discriminate.
Defined.

(** ** When the published result is not the error output *)




Section ValidOutput.
Context {rt : JsRuntime}.




End ValidOutput.

Section PublishedSuccess.
Context {rt : JsRuntime}.
Variable now : Z.




End PublishedSuccess.

(** ** The edit distance as a metric *)

Section LevenshteinMetric.
Context {A : Type} `{EqDecision A}.

Lemma edits_length (s t : list A) (n : nat) :
  edits s t n -> length s <= length t + n /\ length t <= length s + n.
Proof. induction 1; simpl; lia. Qed.

(** X10. The distance [levenshteinDistance] computes is a metric on
    strings: it is 0 exactly for equal strings, symmetric, and satisfies
    the triangle inequality; it lies between the difference and the
    maximum of the two lengths. *)
Theorem levenshteinDistance_metric (s t u : list A) :
  (levenshteinDistance s t = 0 <-> s = t) /\
  levenshteinDistance s t = levenshteinDistance t s /\
  levenshteinDistance s u <= levenshteinDistance s t + levenshteinDistance t u /\
  length s - length t <= levenshteinDistance s t /\
  levenshteinDistance s t <= Nat.max (length s) (length t).
Proof.
  rewrite !levenshteinDistance_lev. split; [apply lev_zero|].
  split; [apply lev_sym|]. split; [|split].
  - destruct (edits_triangle s t u _ _ (lev_edits s t) (lev_edits t u)) as (k & Hk & He).
    apply lev_least in He. lia.
  - pose proof (edits_length _ _ _ (lev_edits s t)). lia.
  - apply lev_le_max.
Qed.

End LevenshteinMetric.

(** ** Similar values *)

(** The threshold 0.8 on the quotient [(L - d) / L]. *)
Lemma similarity_threshold (L d : nat) :
  0 < L -> d <= L ->
  num_ge (num_div (num_sub (of_nat L) (of_nat d)) (of_nat L)) (Fin 0.8) = true <->
  5 * d <= L.
Proof.
  intros HL Hd.
  set (x := inject_Z (Z.of_nat L)). set (y := inject_Z (Z.of_nat d)).
  assert (Hx : (0 < x)%Q) by (unfold x; rewrite <- (Zlt_Qlt 0); lia).
  assert (Hnz : ~ (x == 0)%Q) by lra.
  unfold of_nat, num_sub, num_neg, num_add, num_div, num_ge, num_le. fold x y.
  destruct (Qeq_bool x 0) eqn:E; [apply Qeq_bool_iff in E; contradiction|].
  rewrite Qle_bool_iff.
  assert (Hq : (0.8 <= (x + - y) / x)%Q <-> (5 * y <= x)%Q).
  { split.
    - intros H. apply (Qmult_le_compat_r _ _ x) in H; [|lra].
      rewrite (Qmult_comm ((x + - y) / x)), Qmult_div_r in H by exact Hnz. lra.
    - intros H. apply Qle_shift_div_l; [exact Hx | lra]. }
  rewrite Hq. unfold x, y.
  change 5%Q with (inject_Z 5). rewrite <- inject_Z_mult, <- Zle_Qle. lia.
Qed.

Section SimilarValues.
Variable toLowerCase : string -> string.

(** X11. Two values are similar exactly when they are equal, or equal
    after [toLowerCase], or their edit distance is at most a fifth of the
    length of the longer one; the relation is reflexive and symmetric. *)
Theorem isValueSimilar_iff (a b : string) :
  (isValueSimilar toLowerCase a b = true <->
   a = b \/ toLowerCase a = toLowerCase b \/
   5 * levenshteinDistance (chars a) (chars b) <=
     Nat.max (String.length a) (String.length b)) /\
  isValueSimilar toLowerCase a a = true /\
  isValueSimilar toLowerCase a b = isValueSimilar toLowerCase b a.
Proof.
  assert (Hiff : forall a b,
            isValueSimilar toLowerCase a b = true <->
            a = b \/ toLowerCase a = toLowerCase b \/
            5 * levenshteinDistance (chars a) (chars b) <=
              Nat.max (String.length a) (String.length b)).
  { clear a b. intros a b. unfold isValueSimilar. cbv zeta.
    destruct (bool_decide (a = b)) eqn:Eab.
    { apply bool_decide_eq_true in Eab. split; auto. }
    apply bool_decide_eq_false in Eab.
    destruct (bool_decide (toLowerCase a = toLowerCase b)) eqn:Elow.
    { apply bool_decide_eq_true in Elow. split; auto. }
    apply bool_decide_eq_false in Elow.
    rewrite similarity_unfold, levenshteinDistance_lev.
    destruct (longer_shorter a b) as [Hlen _]. cbv zeta in Hlen.
    assert (Hmax : String.length
                     (if (String.length b <? String.length a)%nat then a else b) =
                   Nat.max (String.length a) (String.length b)).
    { destruct (String.length b <? String.length a)%nat eqn:E;
        [apply Nat.ltb_lt in E | apply Nat.ltb_ge in E]; lia. }
    assert (Hlev : lev (chars (if (String.length b <? String.length a)%nat then a else b))
                       (chars (if (String.length b <? String.length a)%nat then b else a)) =
                   lev (chars a) (chars b)).
    { destruct (String.length b <? String.length a)%nat; [reflexivity | apply lev_sym]. }
    rewrite Hlev, Hmax.
    assert (Hpos : 0 < Nat.max (String.length a) (String.length b)).
    { destruct a, b; simpl; try lia. congruence. }
    destruct (Nat.max (String.length a) (String.length b) =? 0)%nat eqn:E0;
      [apply Nat.eqb_eq in E0; lia|].
    rewrite similarity_threshold; [|exact Hpos|].
    - split; [auto | intros [?|[?|?]]; done].
    - pose proof (lev_le_max (chars a) (chars b)) as H. by rewrite !length_chars in H. }
  split; [apply Hiff|]. split.
  - apply Hiff. by left.
  - destruct (isValueSimilar toLowerCase a b) eqn:E1.
    + symmetry. apply Hiff. apply Hiff in E1.
      rewrite levenshteinDistance_lev, lev_sym, <- levenshteinDistance_lev, Nat.max_comm.
      destruct E1 as [?|[?|?]]; auto.
    + destruct (isValueSimilar toLowerCase b a) eqn:E2; [|reflexivity].
      apply Hiff in E2. rewrite <- E1. apply Hiff.
      rewrite levenshteinDistance_lev, lev_sym, <- levenshteinDistance_lev, Nat.max_comm.
      destruct E2 as [?|[?|?]]; auto.
Qed.

End SimilarValues.

(** ** Proposed corrections *)

Lemma elem_of_insertSorted {A} (before : A -> A -> bool) (x y : A) (l : list A) :
  y ∈ insertSorted before x l <-> y = x \/ y ∈ l.
Proof.
  induction l as [|z l IH]; simpl.
  - rewrite list_elem_of_singleton. split; [auto | intros [?|H]; [done|]].
    by apply not_elem_of_nil in H.
  - destruct (before x z).
    + by rewrite elem_of_cons.
    + rewrite !elem_of_cons, IH. tauto.
Qed.

Lemma elem_of_orderBy {A} (before : A -> A -> bool) (y : A) (l : list A) :
  y ∈ orderBy before l <-> y ∈ l.
Proof.
  unfold orderBy. induction l as [|x l IH]; simpl; [reflexivity|].
  by rewrite elem_of_insertSorted, elem_of_cons, IH.
Qed.

Lemma elem_of_filter_bool {A} (P : A -> bool) (x : A) (l : list A) :
  x ∈ List.filter P l <-> x ∈ l /\ P x = true.
Proof. by rewrite !list_elem_of_In, filter_In. Qed.

Lemma find_field_None (f : string) (ps : list ProposedCorrection) :
  List.find (fun pc => bool_decide (field pc = f)) ps = None -> f ∉ map field ps.
Proof.
  intros Hnone Hin. apply list_elem_of_fmap in Hin as (p & -> & Hp).
  apply list_elem_of_In in Hp.
  pose proof (find_none _ _ Hnone p Hp) as H. simpl in H.
  by rewrite bool_decide_eq_true_2 in H.
Qed.

Lemma find_field_Some (f : string) (ps : list ProposedCorrection) (e : ProposedCorrection) :
  List.find (fun pc => bool_decide (field pc = f)) ps = Some e -> e ∈ ps /\ field e = f.
Proof.
  intros H. apply find_some in H as [Hin Hf]. split; [by apply list_elem_of_In|].
  by apply bool_decide_eq_true in Hf.
Qed.

Lemma elem_of_removeFirst {A} (P : A -> bool) (x : A) (l : list A) :
  x ∈ removeFirst P l -> x ∈ l.
Proof.
  induction l as [|y l IH]; simpl; [done|].
  destruct (P y); rewrite !elem_of_cons; [auto|]. intros [?|?]; auto.
Qed.

Lemma removeFirst_keeps {A} (P : A -> bool) (x : A) (l : list A) :
  x ∈ l -> P x = false -> x ∈ removeFirst P l.
Proof.
  intros Hin HP. induction l as [|y l IH]; simpl; [done|].
  apply elem_of_cons in Hin as [->|Hin].
  - rewrite HP. by left.
  - destruct (P y); [exact Hin | right; by apply IH].
Qed.

Lemma removeFirst_field (f : string) (ps : list ProposedCorrection) :
  NoDup (map field ps) ->
  NoDup (map field (removeFirst (fun pc => bool_decide (field pc = f)) ps)) /\
  f ∉ map field (removeFirst (fun pc => bool_decide (field pc = f)) ps).
Proof.
  induction ps as [|p ps IH]; simpl; intros Hnd.
  - split; [constructor | apply not_elem_of_nil].
  - apply NoDup_cons in Hnd as [Hp Hnd].
    destruct (bool_decide (field p = f)) eqn:E.
    + apply bool_decide_eq_true in E. subst f. split; assumption.
    + apply bool_decide_eq_false in E. destruct (IH Hnd) as [IH1 IH2]. simpl. split.
      * apply NoDup_cons. split; [|exact IH1].
        intros Hin. apply Hp. apply list_elem_of_fmap in Hin as (q & Hq & Hin).
        apply list_elem_of_fmap. exists q. split; [exact Hq|].
        by apply elem_of_removeFirst in Hin.
      * apply not_elem_of_cons. split; [congruence | exact IH2].
Qed.

Lemma num_le_lt_trans (a b c : number) :
  num_le a b = true -> num_lt b c = true -> num_le a c = true.
Proof.
  destruct a as [x| | |], b as [y| | |], c as [z| | |]; simpl; try done.
  unfold Qltb. rewrite negb_true_iff. intros H1 H2.
  apply Qle_bool_iff in H1. apply Qle_bool_iff.
  destruct (Qlt_le_dec y z) as [Hlt|Hle]; [lra|].
  apply Qle_bool_iff in Hle. congruence.
Qed.

Lemma num_not_lt_ge (h a b : number) :
  num_le h a = true -> num_le h b = true -> num_lt a b = false -> num_le b a = true.
Proof.
  destruct h as [w| | |], a as [x| | |], b as [y| | |]; simpl; try done;
    unfold Qltb; rewrite negb_false_iff; done.
Qed.

Lemma fold_left_invariant {S X} (step : S -> X -> S) (I : S -> Prop) (l : list X) :
  (forall s y, I s -> y ∈ l -> I (step s y)) ->
  forall s, I s -> I (fold_left step l s).
Proof.
  induction l as [|x l IH]; simpl; intros Hstep s Hs; [exact Hs|].
  apply IH.
  - intros s' y Hs' Hy. apply Hstep; [exact Hs' | by right].
  - apply Hstep; [exact Hs | by left].
Qed.

(** A property that one step establishes and every step preserves holds
    at the end of the loop. *)
Lemma fold_left_eventually {S X} (step : S -> X -> S) (I C : S -> Prop)
    (l : list X) (x : X) :
  (forall s y, I s -> y ∈ l -> I (step s y)) ->
  (forall s y, I s -> C s -> y ∈ l -> C (step s y)) ->
  (forall s, I s -> C (step s x)) ->
  x ∈ l ->
  forall s, I s -> C (fold_left step l s).
Proof.
  intros HI HC Hx Hin.
  induction l as [|y l IH]; simpl; intros s Hs; [by apply not_elem_of_nil in Hin|].
  assert (HIl : forall s y, I s -> y ∈ l -> I (step s y))
    by (intros s' z Hs' Hz; apply HI; [exact Hs' | by right]).
  assert (HCl : forall s y, I s -> C s -> y ∈ l -> C (step s y))
    by (intros s' z Hs' Hc Hz; apply HC; [exact Hs' | exact Hc | by right]).
  assert (Hs1 : I (step s y)) by (apply HI; [exact Hs | by left]).
  apply elem_of_cons in Hin as [->|Hin].
  - assert (Hboth : I (fold_left step l (step s y)) /\ C (fold_left step l (step s y))).
    { apply (fold_left_invariant step (fun s => I s /\ C s)).
      - intros s' z [Hs' Hc'] Hz. split; [by apply HIl | by apply HCl].
      - split; [exact Hs1 | by apply Hx]. }
    apply Hboth.
  - by apply IH.
Qed.

Lemma NoDup_field_eq (ps : list ProposedCorrection) (p q : ProposedCorrection) :
  NoDup (map field ps) -> p ∈ ps -> q ∈ ps -> field p = field q -> p = q.
Proof.
  induction ps as [|r ps IH]; simpl; intros Hnd Hp Hq Hf.
  - by apply not_elem_of_nil in Hp.
  - apply NoDup_cons in Hnd as [Hr Hnd].
    apply elem_of_cons in Hp as [->|Hp]; apply elem_of_cons in Hq as [->|Hq].
    + reflexivity.
    + exfalso. apply Hr. rewrite Hf. apply list_elem_of_fmap. by exists q.
    + exfalso. apply Hr. rewrite <- Hf. apply list_elem_of_fmap. by exists p.
    + by apply IH.
Qed.

Lemma num_ge_refl (h a : number) : num_ge a h = true -> num_ge a a = true.
Proof.
  unfold num_ge. destruct h, a; simpl; try done; intros _; apply Qle_bool_iff; lra.
Qed.

Section ProposedCorrections.
Context {rt : JsRuntime}.
Variable toLowerCase : string -> string.
Variable correctionMemory : list CorrectionMemory.
Variable entries : list (string * any).

Lemma proposeCorrection_inv (f : string) (v : any) (ps : list ProposedCorrection)
    (c : CorrectionMemory) :
  (f, v) ∈ entries -> v <> ANull -> v <> AUndefined ->
  c ∈ correctionMemory -> cm_fieldName c = f ->
  isValueSimilar toLowerCase (cm_originalValue c) (toStringAny v) = true ->
  Forall (proposalFrom toLowerCase correctionMemory entries) ps /\ NoDup (map field ps) ->
  Forall (proposalFrom toLowerCase correctionMemory entries)
         (proposeCorrection f v ps c) /\
  NoDup (map field (proposeCorrection f v ps c)).
Proof.
  intros Hentry Hnull Hundef Hc Hfield Hsim [Hall Hnd].
  unfold proposeCorrection.
  destruct (num_ge (cm_confidenceScore c) (Fin 0.5)) eqn:Econf; [|by split].
  cbv zeta.
  match goal with
  | |- context [_ ++ [?x]] => set (new := x)
  end.
  assert (Hnew : proposalFrom toLowerCase correctionMemory entries new).
  { unfold proposalFrom, new. simpl. repeat split; try done. exists c. done. }
  destruct (List.find _ ps) as [existing|] eqn:Efind.
  - cbn [confidence new].
    destruct (num_gt (cm_confidenceScore c) (confidence existing)); [|by split].
    destruct (removeFirst_field f ps Hnd) as [Hnd' Hf']. split.
    + apply Forall_app. split; [|by constructor].
      apply List.Forall_forall. intros p Hp.
      apply list_elem_of_In, elem_of_removeFirst in Hp.
      rewrite List.Forall_forall in Hall. by apply Hall, list_elem_of_In.
    + rewrite map_app. apply NoDup_app. split; [exact Hnd'|]. split.
      * intros x Hx. simpl. rewrite list_elem_of_singleton. intros ->. contradiction.
      * simpl. apply NoDup_singleton.
  - apply find_field_None in Efind. split.
    + apply Forall_app. split; [exact Hall | by constructor].
    + rewrite map_app. apply NoDup_app. split; [exact Hnd|]. split.
      * intros x Hx. simpl. rewrite list_elem_of_singleton. intros ->. contradiction.
      * simpl. apply NoDup_singleton.
Qed.

Lemma proposeCorrection_covered (f0 : string) (x : number) (f : string) (v : any)
    (ps : list ProposedCorrection) (c : CorrectionMemory) :
  NoDup (map field ps) ->
  covered f0 x ps -> covered f0 x (proposeCorrection f v ps c).
Proof.
  intros Hnd (p & Hp & Hf & Hx). unfold proposeCorrection.
  destruct (num_ge (cm_confidenceScore c) (Fin 0.5)); [|by exists p].
  cbv zeta.
  destruct (List.find _ ps) as [existing|] eqn:Efind.
  - cbn [confidence].
    destruct (num_gt (cm_confidenceScore c) (confidence existing)) eqn:Egt; [|by exists p].
    apply find_field_Some in Efind as [He Hfe].
    destruct (decide (f0 = f)) as [->|Hne].
    + assert (p = existing) by (apply (NoDup_field_eq ps); congruence). subst existing.
      eexists. split; [apply elem_of_app; right; by apply list_elem_of_singleton|].
      split; [reflexivity|]. simpl. unfold num_ge.
      apply (num_le_lt_trans _ (confidence p)); [exact Hx | exact Egt].
    + exists p. split; [|by split].
      apply elem_of_app. left. apply removeFirst_keeps; [exact Hp|].
      apply bool_decide_eq_false. congruence.
  - exists p. split; [|by split]. apply elem_of_app. by left.
Qed.

Lemma proposeCorrection_covers (f : string) (v : any) (ps : list ProposedCorrection)
    (c : CorrectionMemory) :
  Forall (proposalFrom toLowerCase correctionMemory entries) ps ->
  num_ge (cm_confidenceScore c) (Fin 0.5) = true ->
  covered f (cm_confidenceScore c) (proposeCorrection f v ps c).
Proof.
  intros Hall Hconf. unfold proposeCorrection. rewrite Hconf. cbv zeta.
  destruct (List.find _ ps) as [existing|] eqn:Efind.
  - cbn [confidence].
    destruct (num_gt (cm_confidenceScore c) (confidence existing)) eqn:Egt.
    + eexists. split; [apply elem_of_app; right; by apply list_elem_of_singleton|].
      split; [reflexivity|]. simpl. by apply (num_ge_refl (Fin 0.5)).
    + apply find_field_Some in Efind as [He Hfe].
      exists existing. split; [exact He|]. split; [exact Hfe|].
      rewrite List.Forall_forall in Hall.
      destruct (Hall existing) as [Hge _]; [by apply list_elem_of_In|].
      apply (num_not_lt_ge (Fin 0.5)); [exact Hge | exact Hconf | exact Egt].
  - eexists. split; [apply elem_of_app; right; by apply list_elem_of_singleton|].
    split; [reflexivity|]. simpl. by apply (num_ge_refl (Fin 0.5)).
Qed.

Lemma proposeForField_inv (ps : list ProposedCorrection) (entry : string * any) :
  entry ∈ entries ->
  Forall (proposalFrom toLowerCase correctionMemory entries) ps /\ NoDup (map field ps) ->
  Forall (proposalFrom toLowerCase correctionMemory entries)
         (proposeForField toLowerCase correctionMemory ps entry) /\
  NoDup (map field (proposeForField toLowerCase correctionMemory ps entry)).
Proof.
  destruct entry as [f v]. intros Hentry Hinv. unfold proposeForField.
  assert (Hloop : v <> ANull -> v <> AUndefined ->
            let step := proposeCorrection f v in
            let l := sortByConfidence
                       (List.filter
                          (fun correction =>
                             bool_decide (cm_fieldName correction = f) &&
                             isValueSimilar toLowerCase (cm_originalValue correction)
                                            (toStringAny v))
                          correctionMemory) in
            Forall (proposalFrom toLowerCase correctionMemory entries) (fold_left step l ps) /\
            NoDup (map field (fold_left step l ps))).
  { intros Hnull Hundef step l.
    apply (fold_left_invariant step
             (fun ps => Forall (proposalFrom toLowerCase correctionMemory entries) ps /\
                        NoDup (map field ps))); [|exact Hinv].
    intros s c Hs Hc. unfold l, sortByConfidence in Hc.
    apply elem_of_orderBy, elem_of_filter_bool in Hc as [Hc Hrel].
    apply andb_true_iff in Hrel as [Hf Hsim]. apply bool_decide_eq_true in Hf.
    by apply proposeCorrection_inv. }
  destruct v; try exact Hinv; by apply Hloop.
Qed.

Lemma proposeForField_covered (f0 : string) (x : number)
    (ps : list ProposedCorrection) (entry : string * any) :
  entry ∈ entries ->
  Forall (proposalFrom toLowerCase correctionMemory entries) ps /\ NoDup (map field ps) ->
  covered f0 x ps -> covered f0 x (proposeForField toLowerCase correctionMemory ps entry).
Proof.
  destruct entry as [f v]. intros Hentry Hinv Hcov. unfold proposeForField.
  assert (Hloop : v <> ANull -> v <> AUndefined ->
            let step := proposeCorrection f v in
            let l := sortByConfidence
                       (List.filter
                          (fun correction =>
                             bool_decide (cm_fieldName correction = f) &&
                             isValueSimilar toLowerCase (cm_originalValue correction)
                                            (toStringAny v))
                          correctionMemory) in
            covered f0 x (fold_left step l ps)).
  { intros Hnull Hundef step l.
    apply (fold_left_invariant step
             (fun ps => (Forall (proposalFrom toLowerCase correctionMemory entries) ps /\
                         NoDup (map field ps)) /\ covered f0 x ps)); [|by split].
    intros s c [Hs Hcs] Hc. unfold l, sortByConfidence in Hc.
    apply elem_of_orderBy, elem_of_filter_bool in Hc as [Hc Hrel].
    apply andb_true_iff in Hrel as [Hf Hsim]. apply bool_decide_eq_true in Hf.
    split; [by apply proposeCorrection_inv|].
    apply proposeCorrection_covered; [apply Hs | exact Hcs]. }
  destruct v; try exact Hcov; by apply Hloop.
Qed.

Lemma proposeForField_covers (f : string) (v : any) (c : CorrectionMemory)
    (ps : list ProposedCorrection) :
  (f, v) ∈ entries -> v <> ANull -> v <> AUndefined ->
  c ∈ correctionMemory -> cm_fieldName c = f ->
  isValueSimilar toLowerCase (cm_originalValue c) (toStringAny v) = true ->
  num_ge (cm_confidenceScore c) (Fin 0.5) = true ->
  Forall (proposalFrom toLowerCase correctionMemory entries) ps /\ NoDup (map field ps) ->
  covered f (cm_confidenceScore c) (proposeForField toLowerCase correctionMemory ps (f, v)).
Proof.
  intros Hentry Hnull Hundef Hc Hf Hsim Hconf Hinv. unfold proposeForField.
  assert (Hloop :
            let step := proposeCorrection f v in
            let l := sortByConfidence
                       (List.filter
                          (fun correction =>
                             bool_decide (cm_fieldName correction = f) &&
                             isValueSimilar toLowerCase (cm_originalValue correction)
                                            (toStringAny v))
                          correctionMemory) in
            covered f (cm_confidenceScore c) (fold_left step l ps)).
  { intros step l.
    apply (fold_left_eventually step
             (fun ps => Forall (proposalFrom toLowerCase correctionMemory entries) ps /\
                        NoDup (map field ps))
             (covered f (cm_confidenceScore c)) l c); [| | | |exact Hinv].
    - intros s c' Hs Hc'. unfold l, sortByConfidence in Hc'.
      apply elem_of_orderBy, elem_of_filter_bool in Hc' as [Hc' Hrel].
      apply andb_true_iff in Hrel as [Hf' Hsim']. apply bool_decide_eq_true in Hf'.
      by apply proposeCorrection_inv.
    - intros s c' Hs Hcov _. apply proposeCorrection_covered; [apply Hs | exact Hcov].
    - intros s Hs. apply proposeCorrection_covers; [apply Hs | exact Hconf].
    - unfold l, sortByConfidence. apply elem_of_orderBy, elem_of_filter_bool.
      split; [exact Hc|]. rewrite Hsim, bool_decide_eq_true_2 by exact Hf. reflexivity. }
  destruct v; try done; apply Hloop.
Qed.

End ProposedCorrections.

(** X12. The proposals of [proposeCorrections]: each has confidence at
    least 0.5 and comes from a pattern of the correction memory for its
    field whose original value is similar to the value of that field of
    the invoice; no two proposals are on the same field; and for every
    field with a value and every matching pattern of confidence at least
    0.5 there is a proposal on that field with at least that confidence. *)
Theorem proposeCorrections_best_per_field `{rt : JsRuntime}
    (toLowerCase : string -> string) (invoice : Invoice)
    (correctionMemory : list CorrectionMemory) :
  let entries := objectEntries (fieldsToCheck invoice) in
  let ps := proposeCorrections toLowerCase invoice correctionMemory in
  Forall (proposalFrom toLowerCase correctionMemory entries) ps /\
  NoDup (map field ps) /\
  forall f v c,
    (f, v) ∈ entries -> v <> ANull -> v <> AUndefined ->
    c ∈ correctionMemory -> cm_fieldName c = f ->
    isValueSimilar toLowerCase (cm_originalValue c) (toStringAny v) = true ->
    num_ge (cm_confidenceScore c) (Fin 0.5) = true ->
    covered f (cm_confidenceScore c) ps.
Proof.
  cbv zeta. unfold proposeCorrections.
  set (entries := objectEntries (fieldsToCheck invoice)).
  assert (Hinit : Forall (proposalFrom toLowerCase correctionMemory entries) [] /\
                  NoDup (map field [])) by (split; constructor).
  assert (Hinv : Forall (proposalFrom toLowerCase correctionMemory entries)
                        (fold_left (proposeForField toLowerCase correctionMemory) entries []) /\
                 NoDup (map field
                          (fold_left (proposeForField toLowerCase correctionMemory)
                                     entries []))).
  { apply (fold_left_invariant (proposeForField toLowerCase correctionMemory)
             (fun ps => Forall (proposalFrom toLowerCase correctionMemory entries) ps /\
                        NoDup (map field ps))); [|exact Hinit].
    intros s e Hs He. by apply proposeForField_inv. }
  split; [apply Hinv|]. split; [apply Hinv|].
  intros f v c Hentry Hnull Hundef Hc Hf Hsim Hconf.
  apply (fold_left_eventually (proposeForField toLowerCase correctionMemory)
           (fun ps => Forall (proposalFrom toLowerCase correctionMemory entries) ps /\
                      NoDup (map field ps))
           (covered f (cm_confidenceScore c)) entries (f, v)); [| | |exact Hentry|exact Hinit].
  - intros s e Hs He. by apply proposeForField_inv.
  - intros s e Hs Hcov He. by apply (proposeForField_covered toLowerCase correctionMemory entries).
  - intros s Hs. by apply (proposeForField_covers toLowerCase correctionMemory entries).
Qed.

(** ** The order of the rows of a query *)

Lemma insertSorted_Permutation {A} (before : A -> A -> bool) (x : A) (l : list A) :
  insertSorted before x l ≡ₚ x :: l.
Proof.
  induction l as [|y l IH]; simpl; [reflexivity|].
  destruct (before x y); [reflexivity|].
  rewrite IH. apply Permutation_swap.
Qed.

Lemma orderBy_Permutation {A} (before : A -> A -> bool) (l : list A) :
  orderBy before l ≡ₚ l.
Proof.
  unfold orderBy. induction l as [|x l IH]; simpl; [reflexivity|].
  by rewrite insertSorted_Permutation, IH.
Qed.

Section Sorting.
Context {A : Type} (before : A -> A -> bool) (P : A -> Prop).
Hypothesis before_total :
  forall a b, P a -> P b -> before a b = false -> before b a = true.
Hypothesis before_trans :
  forall a b c, P a -> P b -> P c ->
                before a b = true -> before b c = true -> before a c = true.

Lemma insertSorted_sortedBy (x : A) (l : list A) :
  P x -> Forall P l ->
  sortedBy (fun a b => before a b = true) l ->
  sortedBy (fun a b => before a b = true) (insertSorted before x l).
Proof.
  intros Hx. induction l as [|y l IH]; simpl.
  - intros _ _. split; [constructor | exact I].
  - intros HP [Hy Hl]. apply Forall_cons in HP as [HPy HPl].
    destruct (before x y) eqn:E; simpl.
    + split; [|by split]. constructor; [exact E|].
      rewrite List.Forall_forall in Hy, HPl. apply List.Forall_forall. intros z Hz.
      apply (before_trans x y z); auto.
    + split; [|by apply IH].
      apply List.Forall_forall. intros z Hz.
      apply list_elem_of_In, elem_of_insertSorted in Hz as [->|Hz].
      * by apply before_total.
      * rewrite List.Forall_forall in Hy. by apply Hy, list_elem_of_In.
Qed.

Lemma orderBy_sortedBy (l : list A) :
  Forall P l -> sortedBy (fun a b => before a b = true) (orderBy before l).
Proof.
  unfold orderBy. induction l as [|x l IH]; simpl; [intros _; exact I|].
  intros HP. apply Forall_cons in HP as [Hx Hl].
  apply insertSorted_sortedBy; [exact Hx | | by apply IH].
  apply List.Forall_forall. intros y Hy.
  apply list_elem_of_In, elem_of_orderBy in Hy.
  rewrite List.Forall_forall in Hl. by apply Hl, list_elem_of_In.
Qed.

End Sorting.

Lemma Forall_True {A} (l : list A) : Forall (fun _ => True) l.
Proof. by apply List.Forall_forall. Qed.

Lemma sortedBy_map {A B} (R : A -> A -> Prop) (R' : B -> B -> Prop) (f : A -> B)
    (l : list A) :
  (forall a b, R a b -> R' (f a) (f b)) -> sortedBy R l -> sortedBy R' (map f l).
Proof.
  intros HR. induction l as [|x l IH]; simpl; [done|].
  intros [Hx Hl]. split; [|by apply IH].
  apply Forall_map. eapply Forall_impl; [exact Hx|]. intros y. apply HR.
Qed.

Lemma sortedBy_filter {A} (R : A -> A -> Prop) (P : A -> bool) (l : list A) :
  sortedBy R l -> sortedBy R (List.filter P l).
Proof.
  induction l as [|x l IH]; simpl; [done|].
  intros [Hx Hl]. destruct (P x); simpl; [|by apply IH].
  split; [|by apply IH].
  apply List.Forall_forall. intros y Hy. apply filter_In in Hy as [Hy _].
  rewrite List.Forall_forall in Hx. by apply Hx.
Qed.

(** The order of a query on hundredths and time values, read on the
    numbers and dates of the objects built from the rows. *)
Lemma precedes_rows (ca cb ta tb : Z) :
  (cb <? ca)%Z || ((ca =? cb)%Z && (tb <=? ta)%Z) = true ->
  precedes (scoreOfRow ca) (scoreOfRow cb) (Some ta) (Some tb).
Proof.
  intros H. apply orb_true_iff in H as [H|H].
  - left. apply Z.ltb_lt in H. unfold num_gt, scoreOfRow. simpl. unfold Qltb.
    apply negb_true_iff. destruct (Qle_bool _ _) eqn:E; [|reflexivity].
    apply Qle_bool_iff in E. rewrite !hundredths_scale in E.
    assert (Hq : (inject_Z ca <= inject_Z cb)%Q) by lra.
    rewrite <- Zle_Qle in Hq. lia.
  - right. apply andb_true_iff in H as [H1 H2].
    apply Z.eqb_eq in H1. apply Z.leb_le in H2. by subst.
Qed.

Lemma lexicographic_total (ca cb ta tb : Z) :
  (cb <? ca)%Z || ((ca =? cb)%Z && (tb <=? ta)%Z) = false ->
  (ca <? cb)%Z || ((cb =? ca)%Z && (ta <=? tb)%Z) = true.
Proof.
  rewrite orb_false_iff, andb_false_iff, orb_true_iff, andb_true_iff.
  rewrite !Z.ltb_ge, !Z.ltb_lt, !Z.eqb_neq, !Z.eqb_eq, !Z.leb_gt, !Z.leb_le. lia.
Qed.

Lemma lexicographic_trans (ca cb cc ta tb tc : Z) :
  (cb <? ca)%Z || ((ca =? cb)%Z && (tb <=? ta)%Z) = true ->
  (cc <? cb)%Z || ((cb =? cc)%Z && (tc <=? tb)%Z) = true ->
  (cc <? ca)%Z || ((ca =? cc)%Z && (tc <=? ta)%Z) = true.
Proof.
  rewrite !orb_true_iff, !andb_true_iff.
  rewrite !Z.ltb_lt, !Z.eqb_eq, !Z.leb_le. lia.
Qed.

(** ** The queries of the store *)

Lemma audited_refl (w : World) : audited w w [].
Proof.
  unfold audited. rewrite app_nil_r, Nat.add_0_r. repeat split.
Qed.

Lemma audited_trans (w1 w2 w3 : World) (rows1 rows2 : list AuditRow) :
  audited w1 w2 rows1 -> audited w2 w3 rows2 -> audited w1 w3 (rows1 ++ rows2).
Proof.
  unfold audited. intros (H1 & H2 & H3 & H4 & H5 & H6 & H7 & H8)
    (G1 & G2 & G3 & G4 & G5 & G6 & G7 & G8).
  rewrite length_app, app_assoc. repeat split; try congruence. lia.
Qed.

Lemma logMemoryAccess_run (entityType searchKey : string) (n : nat) (w : World) :
  pool w = true ->
  exists w' row,
    logMemoryAccess entityType searchKey n w = (w', Ok tt) /\
    audited w w' [row] /\
    ar_operation row = "memory_access" /\ ar_entity_type row = entityType /\
    ar_entity_id row = searchKey.
Proof.
  intros Hpool. destruct w as [p d c k out]. simpl in Hpool. subst p.
  unfold logMemoryAccess, M_catch, M_bind, M_get, freshId, insertAuditRow, M_modify, M_ret.
  cbn [pool db clock draws console set_draws set_db].
  eexists. eexists. split; [reflexivity|].
  split.
  - unfold audited. simpl. repeat split; try reflexivity. lia.
  - repeat split; reflexivity.
Qed.

Lemma getClient_run (w : World) :
  getClient w = if pool w then (w, Ok tt) else (w, Err notConnected).
Proof. reflexivity. Qed.

(** The store's [getVendorMemory] with a pool: the rows of the vendor in
    the order of the query, and one memory-access row. *)
Lemma getVendorMemory_query (vendorName : string) (w : World) :
  pool w = true ->
  exists w' row,
    getVendorMemory vendorName w =
      (w', Ok (map vendorOfRow
                 (orderBy (fun a b =>
                             (vr_confidence_score b <? vr_confidence_score a)%Z ||
                             ((vr_confidence_score a =? vr_confidence_score b)%Z &&
                              (vr_last_used b <=? vr_last_used a)%Z))
                          (List.filter (fun r => bool_decide (vr_vendor_name r = vendorName))
                                       (vendor_memory (db w)))))) /\
    audited w w' [row] /\ ar_operation row = "memory_access".
Proof.
  intros Hpool.
  unfold getVendorMemory, M_bind at 1. rewrite getClient_run, Hpool.
  unfold M_bind at 1, M_get at 1.
  match goal with
  | |- context [logMemoryAccess ?t ?k ?n] =>
      destruct (logMemoryAccess_run t k n w Hpool) as (w' & row & Hlog & Haud & Hop & _)
  end.
  unfold M_bind, M_ret. rewrite Hlog.
  exists w', row. split; [reflexivity|]. by split.
Qed.

(** X13. The store's [getVendorMemory].  Without a pool it throws and
    changes nothing.  With a pool it returns the patterns of the vendor,
    each row once, ordered by decreasing confidence and, at equal
    confidence, by decreasing date of last use; it writes one
    memory-access row to the audit log and changes nothing else. *)
Theorem getVendorMemory_sorted (vendorName : string) (w : World) :
  if pool w then
    exists w' vendorMemories row,
      getVendorMemory vendorName w = (w', Ok vendorMemories) /\
      vendorMemories ≡ₚ
        map vendorOfRow
            (List.filter (fun r => bool_decide (vr_vendor_name r = vendorName))
                         (vendor_memory (db w))) /\
      sortedBy vendorOrder vendorMemories /\
      audited w w' [row] /\ ar_operation row = "memory_access"
  else getVendorMemory vendorName w = (w, Err notConnected).
Proof.
  destruct (pool w) eqn:Hpool.
  - destruct (getVendorMemory_query vendorName w Hpool) as (w' & row & Hrun & Haud & Hop).
    eexists. eexists. exists row. split; [exact Hrun|].
    split; [by rewrite orderBy_Permutation|].
    split; [|by split].
    apply (sortedBy_map (fun a b =>
             (vr_confidence_score b <? vr_confidence_score a)%Z ||
             ((vr_confidence_score a =? vr_confidence_score b)%Z &&
              (vr_last_used b <=? vr_last_used a)%Z) = true)).
    + intros a b. apply precedes_rows.
    + apply (orderBy_sortedBy (fun a b =>
             (vr_confidence_score b <? vr_confidence_score a)%Z ||
             ((vr_confidence_score a =? vr_confidence_score b)%Z &&
              (vr_last_used b <=? vr_last_used a)%Z)) (fun _ => True)).
      * intros a b _ _. apply lexicographic_total.
      * intros a b c _ _ _. apply lexicographic_trans.
      * apply Forall_True.
  - unfold getVendorMemory, M_bind. by rewrite getClient_run, Hpool.
Qed.

Lemma getCorrectionMemory_run (fieldName : string) (vendorName : option string) (w : World) :
  pool w = true ->
  exists w' row,
    getCorrectionMemory fieldName vendorName w =
      (w', Ok (map correctionOfRow
                 (orderBy (fun a b =>
                             (cr_confidence_score b <? cr_confidence_score a)%Z ||
                             ((cr_confidence_score a =? cr_confidence_score b)%Z &&
                              (cr_created_at b <=? cr_created_at a)%Z))
                          (List.filter (correctionSelected fieldName vendorName)
                                       (correction_memory (db w)))))) /\
    audited w w' [row] /\ ar_operation row = "memory_access".
Proof.
  intros Hpool.
  unfold getCorrectionMemory, M_bind at 1. rewrite getClient_run, Hpool.
  unfold M_bind at 1, M_get at 1.
  match goal with
  | |- context [logMemoryAccess ?t ?k ?n] =>
      destruct (logMemoryAccess_run t k n w Hpool) as (w' & row & Hlog & Haud & Hop & _)
  end.
  unfold M_bind, M_ret. rewrite Hlog.
  exists w', row. split; [reflexivity|]. by split.
Qed.

Lemma getCorrectionMemory_disconnected (fieldName : string) (vendorName : option string)
    (w : World) :
  pool w = false -> getCorrectionMemory fieldName vendorName w = (w, Err notConnected).
Proof.
  intros Hpool. unfold getCorrectionMemory, M_bind. by rewrite getClient_run, Hpool.
Qed.

Lemma correction_rows_sorted (rows : list CorrectionRow) :
  sortedBy correctionOrder
    (map correctionOfRow
       (orderBy (fun a b =>
                   (cr_confidence_score b <? cr_confidence_score a)%Z ||
                   ((cr_confidence_score a =? cr_confidence_score b)%Z &&
                    (cr_created_at b <=? cr_created_at a)%Z)) rows)).
Proof.
  apply (sortedBy_map (fun a b =>
           (cr_confidence_score b <? cr_confidence_score a)%Z ||
           ((cr_confidence_score a =? cr_confidence_score b)%Z &&
            (cr_created_at b <=? cr_created_at a)%Z) = true)).
  - intros a b. apply precedes_rows.
  - apply (orderBy_sortedBy (fun a b =>
           (cr_confidence_score b <? cr_confidence_score a)%Z ||
           ((cr_confidence_score a =? cr_confidence_score b)%Z &&
            (cr_created_at b <=? cr_created_at a)%Z)) (fun _ => True)).
    + intros a b _ _. apply lexicographic_total.
    + intros a b c _ _ _. apply lexicographic_trans.
    + apply Forall_True.
Qed.

Lemma filter_Permutation {A} (P : A -> bool) (l k : list A) :
  l ≡ₚ k -> List.filter P l ≡ₚ List.filter P k.
Proof.
  induction 1 as [|x l k _ IH|x y l|l k m _ IH1 _ IH2]; simpl.
  - reflexivity.
  - destruct (P x); [by rewrite IH | exact IH].
  - destruct (P x), (P y); try reflexivity. apply Permutation_swap.
  - by rewrite IH1.
Qed.

Lemma filter_filter_bool {A} (P Q : A -> bool) (l : list A) :
  List.filter P (List.filter Q l) = List.filter (fun x => Q x && P x) l.
Proof.
  induction l as [|x l IH]; simpl; [reflexivity|].
  destruct (Q x); simpl; [|exact IH]. destruct (P x); by rewrite IH.
Qed.

Lemma filter_map_bool {A B} (f : A -> B) (P : B -> bool) (l : list A) :
  List.filter P (map f l) = map f (List.filter (fun x => P (f x)) l).
Proof.
  induction l as [|x l IH]; simpl; [reflexivity|].
  destruct (P (f x)); simpl; by rewrite IH.
Qed.

Lemma score_at_least (h k : Z) :
  num_ge (scoreOfRow h) (Fin (inject_Z k / 100)) = (k <=? h)%Z.
Proof.
  unfold num_ge, scoreOfRow. simpl.
  destruct (k <=? h)%Z eqn:E.
  - apply Z.leb_le in E. apply Qle_bool_iff. rewrite !hundredths_scale.
    assert (inject_Z k <= inject_Z h)%Q by (rewrite <- Zle_Qle; lia). lra.
  - apply Z.leb_gt in E. destruct (Qle_bool _ _) eqn:Eq; [|reflexivity].
    apply Qle_bool_iff in Eq. rewrite !hundredths_scale in Eq.
    assert (Hq : (inject_Z k <= inject_Z h)%Q) by lra.
    rewrite <- Zle_Qle in Hq. lia.
Qed.

Lemma score_at_least_30 (h : Z) : num_ge (scoreOfRow h) (Fin 0.3) = (30 <=? h)%Z.
Proof.
  rewrite <- (score_at_least h 30). unfold num_ge, scoreOfRow. simpl.
  destruct (Qle_bool 0.3 _) eqn:E1, (Qle_bool (inject_Z 30 / 100) _) eqn:E2;
    try reflexivity.
  - apply Qle_bool_iff in E1.
    assert (H : (inject_Z 30 / 100 <= inject_Z h / 100)%Q)
      by (eapply Qle_trans; [|exact E1]; unfold Qle; simpl; lia).
    apply Qle_bool_iff in H. congruence.
  - apply Qle_bool_iff in E2.
    assert (H : (0.3 <= inject_Z h / 100)%Q)
      by (eapply Qle_trans; [|exact E2]; unfold Qle; simpl; lia).
    apply Qle_bool_iff in H. congruence.
Qed.

(** X14. The engine's [getCorrectionMemory].  Without a pool it throws
    the store's error behind its own prefix and changes nothing.  With a
    pool it returns the patterns the query selects (the field name, and
    the vendor or no vendor when a vendor is given) whose confidence is at
    least 0.3, each row once, ordered by decreasing confidence and then by
    decreasing date of creation; one memory-access row is written. *)
Theorem RecallEngine_getCorrectionMemory_filtered
    (fieldName : string) (vendorName : option string) (w : World) :
  if pool w then
    exists w' memories row,
      RecallEngine.getCorrectionMemory fieldName vendorName w = (w', Ok memories) /\
      memories ≡ₚ
        map correctionOfRow
            (List.filter (fun r => correctionSelected fieldName vendorName r &&
                                   (30 <=? cr_confidence_score r)%Z)
                         (correction_memory (db w))) /\
      sortedBy correctionOrder memories /\
      Forall (fun m => num_ge (cm_confidenceScore m) (Fin 0.3) = true /\
                       cm_fieldName m = fieldName) memories /\
      audited w w' [row] /\ ar_operation row = "memory_access"
  else
    RecallEngine.getCorrectionMemory fieldName vendorName w =
      (w, Err ("Failed to retrieve correction memory for field " +:+ fieldName +:+ ": " +:+
               notConnected)).
Proof.
  destruct (pool w) eqn:Hpool.
  - destruct (getCorrectionMemory_run fieldName vendorName w Hpool)
      as (w' & row & Hrun & Haud & Hop).
    unfold RecallEngine.getCorrectionMemory, M_catch, M_bind, M_ret. rewrite Hrun.
    eexists. eexists. exists row. split; [reflexivity|].
    split; [|split; [|split; [|by split]]].
    + rewrite filter_map_bool. apply Permutation_map.
      rewrite (filter_ext _ (fun r => (30 <=? cr_confidence_score r)%Z))
        by (intros r; apply score_at_least_30).
      rewrite (filter_Permutation _ _ _ (orderBy_Permutation _ _)).
      by rewrite filter_filter_bool.
    + apply sortedBy_filter, correction_rows_sorted.
    + apply List.Forall_forall. intros m Hm. apply filter_In in Hm as [Hm Hconf].
      split; [exact Hconf|].
      apply in_map_iff in Hm as (r & <- & Hr).
      apply list_elem_of_In, elem_of_orderBy, elem_of_filter_bool in Hr as [_ Hsel].
      apply andb_true_iff in Hsel as [Hf _]. by apply bool_decide_eq_true in Hf.
  - unfold RecallEngine.getCorrectionMemory, M_catch, M_bind.
    by rewrite getCorrectionMemory_disconnected.
Qed.

(** ** Retrieval records the use of vendor patterns *)







(** ** Duplicate patterns *)

Lemma elem_of_deduplicateFrom_keys (seen : gset string) (l : list CorrectionMemory)
    (k : string) :
  k ∈ map RecallEngine.correctionKey (RecallEngine.deduplicateFrom seen l) <->
  k ∈ map RecallEngine.correctionKey l /\ k ∉ seen.
Proof.
  revert seen. induction l as [|c l IH]; intros seen; simpl.
  - split; [intros H | intros [H _]]; by apply not_elem_of_nil in H.
  - destruct (bool_decide (RecallEngine.correctionKey c ∈ seen)) eqn:E.
    + apply bool_decide_eq_true in E. rewrite IH, elem_of_cons.
      split; [intros [H Hn]; split; [by right | exact Hn]|].
      intros [[->|H] Hn]; [contradiction | by split].
    + apply bool_decide_eq_false in E. simpl. rewrite !elem_of_cons, IH.
      rewrite not_elem_of_union, not_elem_of_singleton.
      split.
      * intros [->|[H [Hne Hn]]]; [split; [by left | exact E] | split; [by right | exact Hn]].
      * intros [[->|H] Hn]; [by left|].
        destruct (decide (k = RecallEngine.correctionKey c)) as [->|Hne]; [by left|].
        right. done.
Qed.

Lemma elem_of_deduplicateFrom (seen : gset string) (l : list CorrectionMemory)
    (c : CorrectionMemory) :
  c ∈ RecallEngine.deduplicateFrom seen l -> c ∈ l.
Proof.
  revert seen. induction l as [|d l IH]; intros seen; simpl; [done|].
  destruct (bool_decide _).
  - intros H. right. by eapply IH.
  - rewrite !elem_of_cons. intros [->|H]; [by left | right; by eapply IH].
Qed.

Lemma NoDup_deduplicateFrom (seen : gset string) (l : list CorrectionMemory) :
  NoDup (map RecallEngine.correctionKey (RecallEngine.deduplicateFrom seen l)).
Proof.
  revert seen. induction l as [|c l IH]; intros seen; simpl; [constructor|].
  destruct (bool_decide _); [apply IH|]. simpl.
  apply NoDup_cons. split; [|apply IH].
  rewrite elem_of_deduplicateFrom_keys, not_elem_of_union, not_elem_of_singleton.
  intros [_ [Hne _]]. by apply Hne.
Qed.

Lemma deduplicateFrom_fixed (seen : gset string) (l : list CorrectionMemory) :
  NoDup (map RecallEngine.correctionKey l) ->
  (forall k, k ∈ map RecallEngine.correctionKey l -> k ∉ seen) ->
  RecallEngine.deduplicateFrom seen l = l.
Proof.
  revert seen. induction l as [|c l IH]; intros seen Hnd Hseen; simpl; [reflexivity|].
  simpl in Hnd. apply NoDup_cons in Hnd as [Hc Hnd].
  rewrite bool_decide_eq_false_2 by (apply Hseen; by left).
  f_equal. apply IH; [exact Hnd|].
  intros k Hk. rewrite not_elem_of_union, not_elem_of_singleton. split.
  - intros ->. contradiction.
  - apply Hseen. by right.
Qed.

Lemma deduplicateCorrections_unique_keys (corrections : list CorrectionMemory) :
  NoDup (map RecallEngine.correctionKey (RecallEngine.deduplicateCorrections corrections)).
Proof. apply NoDup_deduplicateFrom. Qed.

(** X16. [deduplicateCorrections] keeps, in their order, patterns with
    pairwise distinct keys [fieldName:originalValue:correctedValue]: the
    result is a sublist of the argument that starts with its first
    pattern, every key of the argument is the key of a pattern kept, and
    a list without duplicate keys is returned as it is, so that the
    function is idempotent. *)
Theorem deduplicateCorrections_unique (corrections : list CorrectionMemory) :
  let unique := RecallEngine.deduplicateCorrections corrections in
  NoDup (map RecallEngine.correctionKey unique) /\
  unique `sublist_of` corrections /\
  head unique = head corrections /\
  (forall c, c ∈ corrections ->
             exists c', c' ∈ unique /\
                        RecallEngine.correctionKey c' = RecallEngine.correctionKey c) /\
  (NoDup (map RecallEngine.correctionKey corrections) -> unique = corrections) /\
  RecallEngine.deduplicateCorrections unique = unique.
Proof.
  cbv zeta. unfold RecallEngine.deduplicateCorrections.
  split; [apply NoDup_deduplicateFrom|]. split; [|split; [|split; [|split]]].
  - generalize (∅ : gset string). induction corrections as [|c l IH]; intros seen; simpl.
    + constructor.
    + destruct (bool_decide _); [by apply sublist_cons | by apply sublist_skip].
  - destruct corrections as [|c l]; [reflexivity|]. simpl.
    by rewrite bool_decide_eq_false_2 by apply not_elem_of_empty.
  - intros c Hc.
    assert (Hk : RecallEngine.correctionKey c ∈
                 map RecallEngine.correctionKey
                     (RecallEngine.deduplicateFrom ∅ corrections)).
    { apply elem_of_deduplicateFrom_keys. split; [|apply not_elem_of_empty].
      apply list_elem_of_fmap. by exists c. }
    apply list_elem_of_fmap in Hk as (c' & Hkey & Hc'). by exists c'.
  - intros Hnd. apply deduplicateFrom_fixed; [exact Hnd|].
    intros k _. apply not_elem_of_empty.
  - apply deduplicateFrom_fixed; [apply NoDup_deduplicateFrom|].
    intros k _. apply not_elem_of_empty.
Qed.

(** The key does not separate its three parts: distinct patterns can share it. *)
Example deduplicateCorrections_collision :
  map cm_id (RecallEngine.deduplicateCorrections colliding_corrections) = ["cm-1"].
Proof. reflexivity. Qed.

(** ** The corrections recalled for an invoice *)

Lemma RecallEngine_getCorrectionMemory_run
    (fieldName : string) (vendorName : option string) (w : World) :
  pool w = true ->
  exists w' row,
    RecallEngine.getCorrectionMemory fieldName vendorName w =
      (w', Ok (recalledCorrections fieldName vendorName (db w))) /\
    audited w w' [row].
Proof.
  intros Hpool.
  destruct (getCorrectionMemory_run fieldName vendorName w Hpool)
    as (w' & row & Hrun & Haud & _).
  unfold RecallEngine.getCorrectionMemory, M_catch, M_bind, M_ret. rewrite Hrun.
  by exists w', row.
Qed.

Lemma recalledCorrections_audited (f : string) (v : option string) (w w' : World)
    (rows : list AuditRow) :
  audited w w' rows -> recalledCorrections f v (db w') = recalledCorrections f v (db w).
Proof.
  intros (_ & _ & _ & _ & _ & H & _). unfold recalledCorrections. by rewrite H.
Qed.

Lemma collectCorrections_run (vendorName : string) (fieldNames : list string)
    (allCorrections : list CorrectionMemory) (w : World) :
  pool w = true ->
  exists w' rows,
    RecallEngine.collectCorrections vendorName fieldNames allCorrections w =
      (w', Ok (allCorrections ++
               concat (map (fun f => recalledCorrections f (Some vendorName) (db w))
                           fieldNames))) /\
    audited w w' rows /\ length rows = length fieldNames.
Proof.
  revert allCorrections w. induction fieldNames as [|f fs IH]; intros acc w Hpool.
  - exists w, []. simpl. rewrite app_nil_r. split; [reflexivity|].
    split; [apply audited_refl | reflexivity].
  - simpl. unfold M_bind.
    destruct (RecallEngine_getCorrectionMemory_run f (Some vendorName) w Hpool)
      as (w1 & row & -> & Haud).
    assert (Hpool1 : pool w1 = true) by (destruct Haud as (H & _); by rewrite H).
    destruct (IH (acc ++ recalledCorrections f (Some vendorName) (db w)) w1 Hpool1)
      as (w' & rows & -> & Haud' & Hlen).
    exists w', ([row] ++ rows). split; [|split].
    + assert (Hext : map (fun f' => recalledCorrections f' (Some vendorName) (db w1)) fs =
                     map (fun f' => recalledCorrections f' (Some vendorName) (db w)) fs).
      { apply map_ext. intros f'. by apply (recalledCorrections_audited _ _ w w1 [row]). }
      rewrite Hext. simpl. by rewrite <- app_assoc.
    + by apply (audited_trans w w1 w').
    + simpl. by rewrite Hlen.
Qed.

Lemma elem_of_recalledCorrections (f : string) (v : option string) (d : Database)
    (m : CorrectionMemory) :
  m ∈ recalledCorrections f v d <->
  exists r, r ∈ correction_memory d /\ m = correctionOfRow r /\
            correctionSelected f v r = true /\ (30 <= cr_confidence_score r)%Z.
Proof.
  unfold recalledCorrections.
  rewrite elem_of_filter_bool, list_elem_of_fmap. split.
  - intros [(r & -> & Hr) Hconf].
    apply elem_of_orderBy, elem_of_filter_bool in Hr as [Hr Hsel].
    exists r. split; [exact Hr|]. split; [reflexivity|]. split; [exact Hsel|].
    unfold correctionOfRow in Hconf. cbn [cm_confidenceScore] in Hconf.
    rewrite score_at_least_30 in Hconf. by apply Z.leb_le.
  - intros (r & Hr & -> & Hsel & Hconf). split.
    + exists r. split; [reflexivity|].
      apply elem_of_orderBy, elem_of_filter_bool. by split.
    + unfold correctionOfRow. cbn [cm_confidenceScore].
      rewrite score_at_least_30. by apply Z.leb_le.
Qed.

Lemma elem_of_concat {A} (x : A) (ls : list (list A)) :
  x ∈ concat ls <-> exists l, x ∈ l /\ l ∈ ls.
Proof.
  rewrite list_elem_of_In, in_concat. split; intros (l & H1 & H2); exists l.
  - split; by apply list_elem_of_In.
  - split; by apply list_elem_of_In.
Qed.

Lemma sortedBy_impl_on {A} (P : A -> Prop) (R R' : A -> A -> Prop) (l : list A) :
  Forall P l -> (forall a b, P a -> P b -> R a b -> R' a b) ->
  sortedBy R l -> sortedBy R' l.
Proof.
  intros HP HR. induction l as [|x l IH]; simpl; [done|].
  apply Forall_cons in HP as [Hx Hl]. intros [Hxl Hs]. split; [|by apply IH].
  rewrite List.Forall_forall in Hxl, Hl. apply List.Forall_forall. intros y Hy. auto.
Qed.

(** The comparator of the sort on confidences that are rationals. *)
Lemma comparator_finite (x y : Q) :
  negb (num_gt (num_sub (Fin y) (Fin x)) (Fin 0)) = Qle_bool y x.
Proof.
  unfold num_gt, num_sub, num_add, num_neg, num_lt, Qltb. rewrite negb_involutive.
  destruct (Qle_bool y x) eqn:E.
  - apply Qle_bool_iff in E. apply Qle_bool_iff. lra.
  - destruct (Qle_bool (y + - x) 0) eqn:E2; [|reflexivity].
    apply Qle_bool_iff in E2. assert (H : (y <= x)%Q) by lra.
    apply Qle_bool_iff in H. congruence.
Qed.

Lemma sortByConfidence_sorted (l : list CorrectionMemory) :
  Forall (fun m => exists q, cm_confidenceScore m = Fin q) l ->
  sortedBy (fun a b => num_ge (cm_confidenceScore a) (cm_confidenceScore b) = true)
           (sortByConfidence l).
Proof.
  intros Hfin. unfold sortByConfidence.
  apply (sortedBy_impl_on (fun m => exists q, cm_confidenceScore m = Fin q)
           (fun a b => negb (num_gt (num_sub (cm_confidenceScore b) (cm_confidenceScore a))
                                    (Fin 0)) = true)).
  - apply List.Forall_forall. intros m Hm. apply list_elem_of_In, elem_of_orderBy in Hm.
    rewrite List.Forall_forall in Hfin. by apply Hfin, list_elem_of_In.
  - intros a b [x Hx] [y Hy]. rewrite Hx, Hy, comparator_finite. done.
  - apply (orderBy_sortedBy _ (fun m => exists q, cm_confidenceScore m = Fin q));
      [| |exact Hfin].
    + intros a b [x Hx] [y Hy]. rewrite Hx, Hy, !comparator_finite.
      intros H. apply Qle_bool_iff.
      destruct (Qlt_le_dec x y) as [Hlt|Hle]; [lra|].
      apply Qle_bool_iff in Hle. congruence.
    + intros a b c [x Hx] [y Hy] [z Hz]. rewrite Hx, Hy, Hz, !comparator_finite.
      rewrite !Qle_bool_iff. lra.
Qed.

(** X17. [getCorrectionMemoryForInvoice], on a connected store: it asks
    for the four standard fields and then for the raw fields of the
    invoice, and writes one audit row per field.  The patterns it returns
    are ordered by decreasing confidence and have pairwise distinct keys;
    each comes from a stored row for one of these fields, of the invoice's
    vendor or of no vendor, with confidence at least 0.3; and every such
    row is represented by a returned pattern with its key. *)
Theorem getCorrectionMemoryForInvoice_recalled (invoice : Invoice) (w : World) :
  pool w = true ->
  exists w' memories rows,
    RecallEngine.getCorrectionMemoryForInvoice invoice w = (w', Ok memories) /\
    sortedBy (fun a b => num_ge (cm_confidenceScore a) (cm_confidenceScore b) = true)
             memories /\
    NoDup (map RecallEngine.correctionKey memories) /\
    (forall m, m ∈ memories ->
       exists r, r ∈ correction_memory (db w) /\ m = correctionOfRow r /\
                 cr_field_name r ∈ recalledFieldNames invoice /\
                 correctionSelected (cr_field_name r) (Some (inv_vendorName invoice)) r
                   = true /\
                 (30 <= cr_confidence_score r)%Z) /\
    (forall r, r ∈ correction_memory (db w) ->
               cr_field_name r ∈ recalledFieldNames invoice ->
               correctionSelected (cr_field_name r) (Some (inv_vendorName invoice)) r
                 = true ->
               (30 <= cr_confidence_score r)%Z ->
               exists m, m ∈ memories /\
                         RecallEngine.correctionKey m =
                         RecallEngine.correctionKey (correctionOfRow r)) /\
    audited w w' rows /\ length rows = length (recalledFieldNames invoice).
Proof.
  intros Hpool.
  destruct (collectCorrections_run (inv_vendorName invoice) (recalledFieldNames invoice)
              [] w Hpool) as (w' & rows & Hrun & Haud & Hlen).
  unfold RecallEngine.getCorrectionMemoryForInvoice, M_bind, M_ret.
  fold (recalledFieldNames invoice). rewrite Hrun. simpl app.
  set (all := concat (map (fun f => recalledCorrections f (Some (inv_vendorName invoice))
                                                        (db w))
                          (recalledFieldNames invoice))).
  assert (Hall : forall m, m ∈ all <->
            exists r, r ∈ correction_memory (db w) /\ m = correctionOfRow r /\
                      cr_field_name r ∈ recalledFieldNames invoice /\
                      correctionSelected (cr_field_name r) (Some (inv_vendorName invoice)) r
                        = true /\
                      (30 <= cr_confidence_score r)%Z).
  { intros m. unfold all. rewrite elem_of_concat. split.
    - intros (l & Hm & Hl). apply list_elem_of_fmap in Hl as (f & -> & Hf).
      apply elem_of_recalledCorrections in Hm as (r & Hr & -> & Hsel & Hconf).
      assert (Hfield : cr_field_name r = f).
      { unfold correctionSelected in Hsel. apply andb_true_iff in Hsel as [H _].
        by apply bool_decide_eq_true in H. }
      exists r. rewrite Hfield. done.
    - intros (r & Hr & -> & Hf & Hsel & Hconf).
      exists (recalledCorrections (cr_field_name r) (Some (inv_vendorName invoice)) (db w)).
      split.
      + apply elem_of_recalledCorrections. by exists r.
      + apply list_elem_of_fmap. by exists (cr_field_name r). }
  exists w', (sortByConfidence (RecallEngine.deduplicateCorrections all)), rows.
  split; [reflexivity|].
  assert (Hin : forall m, m ∈ sortByConfidence (RecallEngine.deduplicateCorrections all) ->
                          m ∈ all).
  { intros m Hm. unfold sortByConfidence in Hm. apply elem_of_orderBy in Hm.
    by apply elem_of_deduplicateFrom in Hm. }
  split; [|split; [|split; [|split; [|by split]]]].
  - apply sortByConfidence_sorted. apply List.Forall_forall. intros m Hm.
    apply list_elem_of_In, elem_of_deduplicateFrom, Hall in Hm as (r & _ & -> & _).
    simpl. unfold scoreOfRow. eauto.
  - unfold sortByConfidence. rewrite orderBy_Permutation.
    apply (deduplicateCorrections_unique_keys all).
  - intros m Hm. by apply Hall, Hin.
  - intros r Hr Hf Hsel Hconf.
    assert (Hm : correctionOfRow r ∈ all) by (apply Hall; by exists r).
    assert (Hk : RecallEngine.correctionKey (correctionOfRow r) ∈
                 map RecallEngine.correctionKey (RecallEngine.deduplicateFrom ∅ all)).
    { apply elem_of_deduplicateFrom_keys. split; [|apply not_elem_of_empty].
      apply list_elem_of_fmap. by exists (correctionOfRow r). }
    apply list_elem_of_fmap in Hk as (m & Hkey & Hm').
    exists m. split; [|by symmetry].
    unfold sortByConfidence. by apply elem_of_orderBy.
Qed.

Lemma getCorrectionMemoryForInvoice_recalled_witness :
  exists w' memories rows,
    RecallEngine.getCorrectionMemoryForInvoice sample_invoice
      (sample_world [sample_correction_row 80]) = (w', Ok memories) /\
    sortedBy (fun a b => num_ge (cm_confidenceScore a) (cm_confidenceScore b) = true)
             memories /\
    NoDup (map RecallEngine.correctionKey memories) /\
    (forall m, m ∈ memories ->
       exists r, r ∈ correction_memory (db (sample_world [sample_correction_row 80])) /\
                 m = correctionOfRow r /\
                 cr_field_name r ∈ recalledFieldNames sample_invoice /\
                 correctionSelected (cr_field_name r) (Some (inv_vendorName sample_invoice)) r
                   = true /\
                 (30 <= cr_confidence_score r)%Z) /\
    (forall r, r ∈ correction_memory (db (sample_world [sample_correction_row 80])) ->
               cr_field_name r ∈ recalledFieldNames sample_invoice ->
               correctionSelected (cr_field_name r) (Some (inv_vendorName sample_invoice)) r
                 = true ->
               (30 <= cr_confidence_score r)%Z ->
               exists m, m ∈ memories /\
                         RecallEngine.correctionKey m =
                         RecallEngine.correctionKey (correctionOfRow r)) /\
    audited (sample_world [sample_correction_row 80]) w' rows /\
    length rows = length (recalledFieldNames sample_invoice).
Proof.
  apply (getCorrectionMemoryForInvoice_recalled sample_invoice
           (sample_world [sample_correction_row 80])).
  reflexivity.
Defined.

(** ** Resolution memory *)

Lemma score_at_least_50 (h : Z) : num_ge (scoreOfRow h) (Fin 0.5) = (50 <=? h)%Z.
Proof.
  rewrite <- (score_at_least h 50). unfold num_ge, scoreOfRow. simpl.
  destruct (Qle_bool 0.5 _) eqn:E1, (Qle_bool (inject_Z 50 / 100) _) eqn:E2;
    try reflexivity.
  - apply Qle_bool_iff in E1.
    assert (H : (inject_Z 50 / 100 <= inject_Z h / 100)%Q)
      by (eapply Qle_trans; [|exact E1]; unfold Qle; simpl; lia).
    apply Qle_bool_iff in H. congruence.
  - apply Qle_bool_iff in E2.
    assert (H : (0.5 <= inject_Z h / 100)%Q)
      by (eapply Qle_trans; [|exact E2]; unfold Qle; simpl; lia).
    apply Qle_bool_iff in H. congruence.
Qed.

Section ResolutionQueries.
Variable ilike : string -> string -> bool.

Lemma getResolutionMemory_run (invoicePattern : string) (w : World) :
  pool w = true ->
  exists w' row,
    getResolutionMemory ilike invoicePattern w =
      (w', Ok (map resolutionOfRow
                 (orderBy (fun a b =>
                             (rr_confidence_score b <? rr_confidence_score a)%Z ||
                             ((rr_confidence_score a =? rr_confidence_score b)%Z &&
                              (rr_created_at b <=? rr_created_at a)%Z))
                          (List.filter
                             (fun r => ilike (rr_invoice_pattern r)
                                             ("%" +:+ invoicePattern +:+ "%"))
                             (resolution_memory (db w)))))) /\
    audited w w' [row] /\ ar_operation row = "memory_access".
Proof.
  intros Hpool.
  unfold getResolutionMemory, M_bind at 1. rewrite getClient_run, Hpool.
  unfold M_bind at 1, M_get at 1.
  match goal with
  | |- context [logMemoryAccess ?t ?k ?n] =>
      destruct (logMemoryAccess_run t k n w Hpool) as (w' & row & Hlog & Haud & Hop & _)
  end.
  unfold M_bind, M_ret. rewrite Hlog.
  exists w', row. split; [reflexivity|]. by split.
Qed.

(** X18. The engine's [getResolutionMemory], whatever the matches of
    ILIKE are.  Without a pool it throws the store's error behind its own
    prefix and changes nothing.  With a pool it returns the resolutions
    whose pattern matches [%invoicePattern%] and that succeeded or have
    confidence at least 0.5, each row once, ordered by decreasing
    confidence and then by decreasing date of creation; one memory-access
    row is written. *)
Theorem RecallEngine_getResolutionMemory_filtered (invoicePattern : string) (w : World) :
  if pool w then
    exists w' memories row,
      RecallEngine.getResolutionMemory ilike invoicePattern w = (w', Ok memories) /\
      memories ≡ₚ
        map resolutionOfRow
            (List.filter (fun r => ilike (rr_invoice_pattern r)
                                         ("%" +:+ invoicePattern +:+ "%") &&
                                   (rr_outcome_success r || (50 <=? rr_confidence_score r)%Z))
                         (resolution_memory (db w))) /\
      sortedBy resolutionOrder memories /\
      Forall (fun m => rm_outcomeSuccess m = true \/
                       num_ge (rm_confidenceScore m) (Fin 0.5) = true) memories /\
      audited w w' [row] /\ ar_operation row = "memory_access"
  else
    RecallEngine.getResolutionMemory ilike invoicePattern w =
      (w, Err ("Failed to retrieve resolution memory for pattern " +:+ invoicePattern +:+
               ": " +:+ notConnected)).
Proof.
  destruct (pool w) eqn:Hpool.
  - destruct (getResolutionMemory_run invoicePattern w Hpool)
      as (w' & row & Hrun & Haud & Hop).
    unfold RecallEngine.getResolutionMemory, M_catch, M_bind, M_ret. rewrite Hrun.
    eexists. eexists. exists row. split; [reflexivity|].
    split; [|split; [|split; [|by split]]].
    + rewrite filter_map_bool. apply Permutation_map.
      rewrite (filter_ext _ (fun r => rr_outcome_success r ||
                                      (50 <=? rr_confidence_score r)%Z))
        by (intros r; unfold resolutionOfRow;
            cbn [rm_outcomeSuccess rm_confidenceScore]; by rewrite score_at_least_50).
      rewrite (filter_Permutation _ _ _ (orderBy_Permutation _ _)).
      by rewrite filter_filter_bool.
    + apply sortedBy_filter.
      apply (sortedBy_map (fun a b =>
               (rr_confidence_score b <? rr_confidence_score a)%Z ||
               ((rr_confidence_score a =? rr_confidence_score b)%Z &&
                (rr_created_at b <=? rr_created_at a)%Z) = true)).
      * intros a b. apply precedes_rows.
      * apply (orderBy_sortedBy _ (fun _ => True)).
        -- intros a b _ _. apply lexicographic_total.
        -- intros a b c _ _ _. apply lexicographic_trans.
        -- apply Forall_True.
    + apply List.Forall_forall. intros m Hm. apply filter_In in Hm as [_ Hm].
      by apply orb_true_iff in Hm.
  - unfold RecallEngine.getResolutionMemory, M_catch, M_bind.
    unfold getResolutionMemory, M_bind. by rewrite getClient_run, Hpool.
Qed.

End ResolutionQueries.

(** ** Feedback on a correction that the lookup does not find *)

Lemma find_correction_None (cid : string) (rows : list CorrectionRow) :
  (forall r, r ∈ rows -> cr_field_name r = "" -> cr_id r <> cid) ->
  List.find (fun c => bool_decide (cm_id c = cid))
            (map correctionOfRow
               (orderBy (fun a b =>
                           (cr_confidence_score b <? cr_confidence_score a)%Z ||
                           ((cr_confidence_score a =? cr_confidence_score b)%Z &&
                            (cr_created_at b <=? cr_created_at a)%Z))
                        (List.filter (correctionSelected "" None) rows))) = None.
Proof.
  intros Hrows.
  destruct (List.find _ _) as [c|] eqn:E; [|reflexivity].
  apply find_some in E as [Hin Hid]. apply bool_decide_eq_true in Hid.
  apply in_map_iff in Hin as (r & <- & Hr).
  apply list_elem_of_In, elem_of_orderBy, elem_of_filter_bool in Hr as [Hr Hsel].
  unfold correctionSelected in Hsel. apply andb_true_iff in Hsel as [Hf _].
  apply bool_decide_eq_true in Hf. by destruct (Hrows r Hr Hf).
Qed.

Lemma reinforceCorrectionMemory_missing (cid : string) (approved : bool) (w : World) :
  pool w = true ->
  (forall r, r ∈ correction_memory (db w) -> cr_field_name r = "" -> cr_id r <> cid) ->
  exists w' row,
    reinforceCorrectionMemory cid approved w =
      (w', Err ("Correction memory " +:+ cid +:+ " not found")) /\
    audited w w' [row] /\ ar_operation row = "memory_access".
Proof.
  intros Hpool Hrows.
  destruct (getCorrectionMemory_run "" None w Hpool) as (w' & row & Hrun & Haud & Hop).
  unfold reinforceCorrectionMemory, M_bind. rewrite Hrun.
  rewrite (find_correction_None cid _ Hrows).
  exists w', row. by split.
Qed.

(** X19. [reinforceMemory] with a correction id, on a connected store and
    an invoice not yet learned from: unless the correction table holds a
    row with that id whose field name is the empty string, the call throws
    [Correction memory <id> not found] behind its prefix.  The feedback is
    not applied: every table is as before but for one memory-access row
    of the audit log, and the console is unchanged. *)
Theorem reinforceMemory_correction_not_found
    (feedback : LearningFeedback) (cid : string) (this : LearningEngine) (w : World) :
  pool w = true ->
  fb_invoiceId feedback ∉ processedInvoices this ->
  truthyString (fb_correctionId feedback) = Some cid ->
  (forall r, r ∈ correction_memory (db w) -> cr_field_name r = "" -> cr_id r <> cid) ->
  exists w' row,
    reinforceMemory feedback this w =
      (w', Err ("Failed to reinforce memory: Error: Correction memory " +:+ cid +:+
                " not found")) /\
    audited w w' [row] /\ ar_operation row = "memory_access".
Proof.
  intros Hpool Hnew Hcid Hrows.
  destruct (reinforceCorrectionMemory_missing cid (fb_approved feedback) w Hpool Hrows)
    as (w' & row & Hrun & Haud & Hop).
  exists w', row. split; [|by split].
  unfold reinforceMemory, M_catch.
  rewrite bool_decide_eq_false_2 by exact Hnew.
  unfold M_bind at 1. unfold reinforceMemory_learn. rewrite Hcid.
  unfold M_bind at 1. unfold M_bind at 1. rewrite Hrun. reflexivity.
Qed.

Lemma reinforceMemory_correction_not_found_witness :
  exists w' row,
    reinforceMemory
      {| fb_invoiceId := "INV-001"; fb_correctionId := Some "cm-1";
         fb_vendorMemoryId := None; fb_resolutionMemoryId := None;
         fb_approved := true; fb_reasoning := None;
         fb_timestamp := Some 1700000000000%Z |}
      new_LearningEngine (sample_world [sample_correction_row 50]) =
      (w', Err "Failed to reinforce memory: Error: Correction memory cm-1 not found") /\
    audited (sample_world [sample_correction_row 50]) w' [row] /\
    ar_operation row = "memory_access".
Proof.
  apply (reinforceMemory_correction_not_found
           {| fb_invoiceId := "INV-001"; fb_correctionId := Some "cm-1";
              fb_vendorMemoryId := None; fb_resolutionMemoryId := None;
              fb_approved := true; fb_reasoning := None;
              fb_timestamp := Some 1700000000000%Z |}
           "cm-1" new_LearningEngine (sample_world [sample_correction_row 50])).
  - reflexivity.
  - apply not_elem_of_empty.
  - reflexivity.
  - intros r Hr Hf. apply list_elem_of_singleton in Hr. subst r. discriminate.
Defined.



(** ** Learning through the system *)

(** X21. [learnFromCorrections] of the system, initialized, on a
    connected store none of whose correction rows has an empty field
    name, for an invoice not yet learned from: it throws [Failed to
    reinforce memory: Error: Correction memory <id> not found], where the
    id is the source of the first correction or, when there is none, one
    made from the clock.  Nothing is learned: the tables are as before
    but for one memory-access row, and the console gets the error line. *)
Theorem learnFromCorrections_not_found
    (invoiceId : string) (corrections : list ProposedCorrection)
    (this : LearningEngine) (w : World) :
  pool w = true ->
  invoiceId ∉ processedInvoices this ->
  Forall (fun r => cr_field_name r <> "") (correction_memory (db w)) ->
  let cid := default ("correction_" +:+ pretty (clock w))
                     (truthyString (memorySourceId <$> head corrections)) in
  let message := "Failed to reinforce memory: Error: Correction memory " +:+ cid +:+
                 " not found" in
  exists w1 w' row,
    learnFromCorrections true invoiceId corrections this w = (w', Err message) /\
    audited w w1 [row] /\
    w' = set_console (console w1 ++
                      ["❌ Error learning from corrections: " +:+ errorToString message])
                     w1.
Proof.
  intros Hpool Hnew Hfields. cbv zeta.
  set (cid := default ("correction_" +:+ pretty (clock w))
                      (truthyString (memorySourceId <$> head corrections))).
  assert (Hcid : cid <> "").
  { unfold cid. destruct (truthyString _) as [s|] eqn:E; simpl.
    - intros ->. destruct (memorySourceId <$> head corrections) as [[|]|]; discriminate.
    - discriminate. }
  assert (Htruthy : truthyString (Some cid) = Some cid) by (by destruct cid).
  assert (Hrows : forall r, r ∈ correction_memory (db w) ->
                            cr_field_name r = "" -> cr_id r <> cid).
  { intros r Hr Hf. rewrite List.Forall_forall in Hfields.
    by destruct (Hfields r (proj1 (list_elem_of_In _ _) Hr)). }
  destruct (reinforceCorrectionMemory_missing cid true w Hpool Hrows)
    as (w1 & row & Hrun & Haud & Hop).
  exists w1. eexists. exists row. split; [|split; [exact Haud | reflexivity]].
  unfold learnFromCorrections. cbn [negb]. unfold M_catch.
  unfold M_bind at 1. unfold M_get at 1. fold cid.
  unfold M_bind at 1. unfold reinforceMemory, M_catch.
  cbn [fb_invoiceId fb_correctionId].
  rewrite bool_decide_eq_false_2 by exact Hnew.
  unfold M_bind at 1. unfold reinforceMemory_learn.
  cbn [fb_correctionId fb_approved]. rewrite Htruthy.
  unfold M_bind at 1. unfold M_bind at 1. rewrite Hrun.
  unfold M_throw, M_bind, console_write, M_modify. reflexivity.
Qed.

Lemma learnFromCorrections_not_found_witness :
  let w := sample_world [sample_correction_row 50] in
  let cid := default ("correction_" +:+ pretty (clock w))
                     (truthyString (memorySourceId <$> head [sample_correction "vendorName"
                                                               (AStr "ACME Corporation")
                                                               (Fin 0.9)])) in
  let message := "Failed to reinforce memory: Error: Correction memory " +:+ cid +:+
                 " not found" in
  exists w1 w' row,
    learnFromCorrections true "INV-001"
      [sample_correction "vendorName" (AStr "ACME Corporation") (Fin 0.9)]
      new_LearningEngine w = (w', Err message) /\
    audited w w1 [row] /\
    w' = set_console (console w1 ++
                      ["❌ Error learning from corrections: " +:+ errorToString message])
                     w1.
Proof.
  apply (learnFromCorrections_not_found "INV-001"
           [sample_correction "vendorName" (AStr "ACME Corporation") (Fin 0.9)]
           new_LearningEngine (sample_world [sample_correction_row 50])).
  - reflexivity.
  - apply not_elem_of_empty.
  - constructor; [discriminate | constructor].
Defined.

(** ** Feedback on a vendor pattern *)




(** ** Learning statistics *)

Lemma filter_none_in {A} (P : A -> bool) (l : list A) :
  (forall x, x ∈ l -> P x = false) -> List.filter P l = [].
Proof.
  induction l as [|x l IH]; simpl; intros H; [reflexivity|].
  rewrite (H x) by (by left). apply IH. intros y Hy. apply H. by right.
Qed.

Lemma changesOf_snoc (t : MemoryType) (es : list LearningEvent) (e : LearningEvent) :
  changesOf t (es ++ [e]) =
  changesOf t es ++ (if bool_decide (le_memoryType e = t) then [le_confidenceChange e] else []).
Proof.
  unfold changesOf. rewrite List.filter_app, map_app. simpl.
  by destruct (bool_decide (le_memoryType e = t)).
Qed.

Lemma pushChange_keys (m : list (MemoryType * list number)) (e : LearningEvent) :
  map fst (pushChange m e) =
  if bool_decide (le_memoryType e ∈ map fst m) then map fst m
  else map fst m ++ [le_memoryType e].
Proof.
  unfold pushChange. cbv zeta. rewrite map_map.
  transitivity (map fst (if bool_decide (le_memoryType e ∈ map fst m) then m
                         else m ++ [(le_memoryType e, [])])).
  - apply map_ext. intros [t cs]. simpl. by destruct (bool_decide (t = le_memoryType e)).
  - destruct (bool_decide _); [reflexivity|]. by rewrite map_app.
Qed.

Lemma elem_of_pushChange (m : list (MemoryType * list number)) (e : LearningEvent)
    (t : MemoryType) (cs : list number) :
  (t, cs) ∈ pushChange m e ->
  (exists cs0, (t, cs0) ∈ m /\
               cs = cs0 ++ (if bool_decide (le_memoryType e = t)
                            then [le_confidenceChange e] else [])) \/
  (t = le_memoryType e /\ (le_memoryType e ∉ map fst m) /\
   cs = [le_confidenceChange e]).
Proof.
  unfold pushChange. cbv zeta. intros H.
  apply list_elem_of_fmap in H as ([t0 cs0] & Heq & Hin). simpl in Heq.
  assert (Hcase : (t0, cs0) ∈ m \/
                  ((le_memoryType e ∉ map fst m) /\ (t0, cs0) = (le_memoryType e, []))).
  { destruct (bool_decide (le_memoryType e ∈ map fst m)) eqn:E; [by left|].
    apply bool_decide_eq_false in E.
    apply elem_of_app in Hin as [Hin|Hin]; [by left|].
    apply list_elem_of_singleton in Hin. by right. }
  destruct (bool_decide (t0 = le_memoryType e)) eqn:E0.
  - apply bool_decide_eq_true in E0. injection Heq as -> ->. subst t0.
    rewrite bool_decide_eq_true_2 by reflexivity.
    destruct Hcase as [Hm|[Hnew [= ->]]].
    + left. by exists cs0.
    + right. done.
  - apply bool_decide_eq_false in E0. injection Heq as -> ->.
    rewrite bool_decide_eq_false_2 by congruence.
    destruct Hcase as [Hm|[_ [= Ht _]]]; [|congruence].
    left. exists cs0. by rewrite app_nil_r.
Qed.

Lemma evolution_invariant (es : list LearningEvent) :
  let m := fold_left pushChange es [] in
  NoDup (map fst m) /\
  (forall t, t ∈ map fst m <-> exists e, e ∈ es /\ le_memoryType e = t) /\
  (forall t cs, (t, cs) ∈ m -> cs = changesOf t es).
Proof.
  cbv zeta. induction es as [|e es IH] using rev_ind.
  - simpl. split; [constructor|]. split.
    + intros t. split; [intros H; by apply not_elem_of_nil in H|].
      intros (e & H & _). by apply not_elem_of_nil in H.
    + intros t cs H. by apply not_elem_of_nil in H.
  - rewrite fold_left_app. simpl.
    set (m := fold_left pushChange es []) in *.
    destruct IH as (Hnd & Hkeys & Hchanges).
    split; [|split].
    + rewrite pushChange_keys.
      destruct (bool_decide (le_memoryType e ∈ map fst m)) eqn:E; [exact Hnd|].
      apply bool_decide_eq_false in E. apply NoDup_app. split; [exact Hnd|].
      split; [|apply NoDup_singleton].
      intros t Ht Hin. apply list_elem_of_singleton in Hin. by subst t.
    + intros t. rewrite pushChange_keys.
      assert (Hiff : t ∈ map fst m ++ [le_memoryType e] <->
                     exists e0, e0 ∈ es ++ [e] /\ le_memoryType e0 = t).
      { rewrite elem_of_app, list_elem_of_singleton, Hkeys. split.
        - intros [(e0 & H0 & Ht)|Heq].
          + exists e0. split; [apply elem_of_app; by left | exact Ht].
          + subst t. exists e. split; [apply elem_of_app; right; by apply list_elem_of_singleton|].
            reflexivity.
        - intros (e0 & H0 & Ht). apply elem_of_app in H0 as [H0|H0].
          + left. by exists e0.
          + apply list_elem_of_singleton in H0. subst e0. by right. }
      destruct (bool_decide (le_memoryType e ∈ map fst m)) eqn:E; [|exact Hiff].
      apply bool_decide_eq_true in E. rewrite <- Hiff, elem_of_app, list_elem_of_singleton.
      split; [by left|]. intros [H|H]; [exact H | by subst t].
    + intros t cs H. rewrite changesOf_snoc.
      apply elem_of_pushChange in H as [(cs0 & Hm & ->)|(-> & Hnew & ->)].
      * by rewrite (Hchanges t cs0 Hm).
      * rewrite bool_decide_eq_true_2 by reflexivity.
        assert (Hnone : changesOf (le_memoryType e) es = []).
        { unfold changesOf. rewrite filter_none_in; [reflexivity|].
          intros e0 H0. apply bool_decide_eq_false. intros Ht.
          apply Hnew, Hkeys. by exists e0. }
        by rewrite Hnone.
Qed.

Lemma events_partition (es : list LearningEvent) :
  length es =
  (length (List.filter (fun e => bool_decide (le_eventType e = PositiveReinforcement)) es) +
   length (List.filter (fun e => bool_decide (le_eventType e = NegativeReinforcement)) es) +
   length (List.filter (fun e => bool_decide (le_eventType e = NewPattern)) es) +
   length (List.filter (fun e => bool_decide (le_eventType e = PatternConsolidation)) es))%nat.
Proof.
  induction es as [|e es IH]; simpl; [reflexivity|].
  destruct (le_eventType e); repeat case_bool_decide; try congruence; simpl; lia.
Qed.

(** X23. The statistics of the learning engine: the events are the
    positive and negative reinforcements, the new patterns and the
    consolidations; the confidence evolution has one entry per memory type
    that occurs among the events, and none else, whose average is the sum
    of the changes of the events of that type divided by their number. *)
Theorem getLearningStatistics_consistent (this : LearningEngine) :
  let stats := getLearningStatistics this in
  totalLearningEvents stats =
    (positiveReinforcements stats + negativeReinforcements stats + newPatterns stats +
     length (List.filter (fun e => bool_decide (le_eventType e = PatternConsolidation))
                         (learningEvents this)))%nat /\
  NoDup (map fst (confidenceEvolution stats)) /\
  forall t avg,
    (t, avg) ∈ confidenceEvolution stats <->
    (exists e, e ∈ learningEvents this /\ le_memoryType e = t) /\
    avg = averageChange (changesOf t (learningEvents this)).
Proof.
  cbv zeta. unfold getLearningStatistics, calculateConfidenceEvolution. simpl.
  destruct (evolution_invariant (learningEvents this)) as (Hnd & Hkeys & Hchanges).
  cbv zeta in Hnd, Hkeys, Hchanges.
  set (m := fold_left pushChange (learningEvents this) []) in *.
  split; [|split].
  - apply events_partition.
  - by rewrite map_map.
  - intros t avg. rewrite list_elem_of_fmap. split.
    + intros ([t0 cs] & [= -> ->] & Hin). simpl. split.
      * apply Hkeys. apply list_elem_of_fmap. by exists (t0, cs).
      * by rewrite (Hchanges t0 cs Hin).
    + intros [He ->]. apply Hkeys, list_elem_of_fmap in He as ([t0 cs] & Ht & Hin).
      simpl in Ht. subst t0. exists (t, cs). split; [|exact Hin].
      simpl. by rewrite (Hchanges t cs Hin).
Qed.

(** ** The proposals of the pipeline *)

Lemma elem_of_objectEntries {V} (o : list (string * V)) (kv : string * V) :
  kv ∈ objectEntries o <-> kv ∈ o.
Proof.
  unfold objectEntries. rewrite elem_of_app, elem_of_orderBy, !elem_of_filter_bool.
  destruct (bool_decide (is_Some (arrayIndex (fst kv)))); simpl; split;
    try (intros [[H _]|[H _]]; done); intros H; [left | right]; done.
Qed.

Lemma objSet_keys {V} (o : list (string * V)) (k k' : string) (v : V) :
  k ∈ map fst (objSet o k' v) <-> k = k' \/ k ∈ map fst o.
Proof.
  induction o as [|[k0 v0] o IH]; simpl.
  - rewrite list_elem_of_singleton. split; [by left | intros [?|H]; [done|]].
    by apply not_elem_of_nil in H.
  - destruct (bool_decide (k0 = k')) eqn:E; simpl.
    + apply bool_decide_eq_true in E. subst k0. rewrite !elem_of_cons. tauto.
    + rewrite !elem_of_cons, IH. tauto.
Qed.

Lemma fieldsToCheck_keys (invoice : Invoice) (k : string) :
  k ∈ map fst (fieldsToCheck invoice) ->
  k ∈ ["invoiceNumber"; "amount"; "date"; "vendorName"] \/
  k ∈ map fst (inv_rawFields invoice).
Proof.
  unfold fieldsToCheck.
  assert (Hfold : forall (l o : list (string * any)),
            k ∈ map fst (fold_left (fun o kv => objSet o (fst kv) (snd kv)) l o) ->
            k ∈ map fst o \/ k ∈ map fst l).
  { induction l as [|[k0 v0] l IH]; intros o; simpl; [by left|].
    intros H. apply IH in H as [H|H].
    - apply objSet_keys in H as [->|H]; [right; by left | by left].
    - right. by right. }
  intros H. apply Hfold in H as [H|H]; [by left|]. right.
  apply list_elem_of_fmap in H as (kv & -> & H). rewrite elem_of_objectEntries in H.
  apply list_elem_of_fmap. exists kv. split; [reflexivity | exact H].
Qed.

Lemma proposeCorrections_no_field `{rt : JsRuntime} (toLowerCase : string -> string)
    (invoice : Invoice) (correctionMemory : list CorrectionMemory) :
  (forall c, c ∈ correctionMemory ->
             cm_fieldName c ∉ map fst (objectEntries (fieldsToCheck invoice))) ->
  proposeCorrections toLowerCase invoice correctionMemory = [].
Proof.
  intros Hnone. unfold proposeCorrections.
  apply (fold_left_invariant (proposeForField toLowerCase correctionMemory)
           (fun ps => ps = [])); [|reflexivity].
  intros ps [f v] -> Hentry. unfold proposeForField.
  assert (Hfilter : List.filter
            (fun correction =>
               bool_decide (cm_fieldName correction = f) &&
               isValueSimilar toLowerCase (cm_originalValue correction) (toStringAny v))
            correctionMemory = []).
  { apply filter_none_in. intros c Hc. apply andb_false_iff. left.
    apply bool_decide_eq_false. intros Hf. apply (Hnone c Hc). rewrite Hf.
    apply list_elem_of_fmap. by exists (f, v). }
  rewrite Hfilter. by destruct v.
Qed.

(** X24. The fourth step of [processInvoice] asks the recall engine for
    the corrections of the empty field name and hands them to
    [proposeCorrections].  On a connected store, unless the invoice has a
    raw field whose name is the empty string, no correction is proposed,
    whatever the correction table holds. *)
Theorem processInvoice_proposes_nothing `{rt : JsRuntime}
    (toLowerCase : string -> string) (invoice : Invoice) (w : World) :
  pool w = true ->
  "" ∉ map fst (inv_rawFields invoice) ->
  exists w' correctionMemory row,
    RecallEngine.getCorrectionMemory "" (Some (inv_vendorName invoice)) w =
      (w', Ok correctionMemory) /\
    Forall (fun c => cm_fieldName c = "") correctionMemory /\
    proposeCorrections toLowerCase invoice correctionMemory = [] /\
    audited w w' [row].
Proof.
  intros Hpool Hraw.
  destruct (RecallEngine_getCorrectionMemory_run "" (Some (inv_vendorName invoice)) w Hpool)
    as (w' & row & Hrun & Haud).
  exists w', (recalledCorrections "" (Some (inv_vendorName invoice)) (db w)), row.
  split; [exact Hrun|].
  assert (Hempty : Forall (fun c => cm_fieldName c = "")
                          (recalledCorrections "" (Some (inv_vendorName invoice)) (db w))).
  { apply List.Forall_forall. intros c Hc.
    apply list_elem_of_In, elem_of_recalledCorrections in Hc as (r & _ & -> & Hsel & _).
    unfold correctionSelected in Hsel. apply andb_true_iff in Hsel as [Hf _].
    by apply bool_decide_eq_true in Hf. }
  split; [exact Hempty|]. split; [|exact Haud].
  apply proposeCorrections_no_field. intros c Hc Hin.
  rewrite List.Forall_forall in Hempty.
  rewrite (Hempty c (proj1 (list_elem_of_In _ _) Hc)) in Hin.
  apply list_elem_of_fmap in Hin as (kv & Hk & Hin). rewrite elem_of_objectEntries in Hin.
  assert (Hkey : "" ∈ map fst (fieldsToCheck invoice))
    by (apply list_elem_of_fmap; by exists kv).
  apply fieldsToCheck_keys in Hkey as [Hstd|Hrawkey]; [|contradiction].
  repeat (apply elem_of_cons in Hstd as [Hstd|Hstd]; [discriminate|]).
  by apply not_elem_of_nil in Hstd.
Qed.

Lemma processInvoice_proposes_nothing_witness :
  exists w' correctionMemory row,
    RecallEngine.getCorrectionMemory "" (Some (inv_vendorName sample_invoice))
      (sample_world [sample_correction_row 90]) = (w', Ok correctionMemory) /\
    Forall (fun c => cm_fieldName c = "") correctionMemory /\
    proposeCorrections (rt := example_runtime) (fun s => s) sample_invoice correctionMemory
      = [] /\
    audited (sample_world [sample_correction_row 90]) w' [row].
Proof.
  apply (processInvoice_proposes_nothing (rt := example_runtime) (fun s => s)
           sample_invoice (sample_world [sample_correction_row 90])).
  - reflexivity.
  - apply not_elem_of_nil.
Defined.

(** The same pattern, handed to [proposeCorrections] directly, is proposed. *)
Example proposeCorrections_sample :
  map (fun p => (field p, correctedValue p, confidence p))
      (proposeCorrections (rt := example_runtime) (fun s => s) sample_invoice
         [correctionOfRow (sample_correction_row 90)]) =
  [("vendorName", AStr "ACME Corporation", scoreOfRow 90)].
Proof. reflexivity. Qed.

(** ** Normalized fields *)







Section NormalizedFields.
Context {rt : JsRuntime}.
Variable invoice : Invoice.
Variable vendorMemory : list VendorMemory.





End NormalizedFields.


(** A mapping from a name the invoice does not have but [Object.prototype]
    has copies the inherited member. *)
Example normalized_inherited_member :
  normalizedValues (rt := example_runtime) sample_invoice
    [sample_mapping_vendor [("toString", "printed")] (Fin 0.9) (Fin 1)] =
  Some ([("printed", PrototypeMember "toString")], None).
Proof. reflexivity. Qed.

(** A mapping onto a name of [Object.prototype] finds the inherited member
    in [normalizedFields] and is applied only with a positive weight; onto
    another name it is applied with weight 0 as well. *)
Example normalized_onto_inherited_name :
  normalizedValues (rt := example_runtime) sample_invoice
    [sample_mapping_vendor [("vendorName", "toString")] (Fin 0) (Fin 0)] =
  Some ([], None) /\
  normalizedValues (rt := example_runtime) sample_invoice
    [sample_mapping_vendor [("vendorName", "supplier")] (Fin 0) (Fin 0)] =
  Some ([("supplier", Plain (AStr "Acme Corp"))], None) /\
  normalizedValues (rt := example_runtime) sample_invoice
    [sample_mapping_vendor [("vendorName", "toString")] (Fin 0.9) (Fin 1)] =
  Some ([("toString", Plain (AStr "Acme Corp"))], None).
Proof. repeat split. Qed.

(** A mapping onto [__proto__] adds no property and replaces the prototype. *)
Example normalized_onto_proto :
  normalizedValues (rt := example_runtime) sample_invoice
    [sample_mapping_vendor [("vendorName", "__proto__")] (Fin 0.9) (Fin 1)] =
  Some ([], Some (Plain (AStr "Acme Corp"))) /\
  normalizedValues (rt := example_runtime) sample_invoice
    [sample_mapping_vendor [("vendorName", "__proto__"); ("amount", "value")]
                           (Fin 0.9) (Fin 1)] =
  Some ([("value", Plain (ANum (Fin 1250)))], Some (Plain (AStr "Acme Corp"))).
Proof. repeat split. Qed.

(** The mappings are visited in the order of [Object.entries]: the array
    index [7] comes before [vendorName], and at equal weight the first
    mapping onto a name stays. *)
Example normalized_entries_order :
  normalizedValues (rt := example_runtime)
    (set_rawFields [("7", AStr "seven")] sample_invoice)
    [sample_mapping_vendor [("vendorName", "x"); ("7", "x")] (Fin 0.9) (Fin 1)] =
  Some ([("x", Plain (AStr "seven"))], None).
Proof. reflexivity. Qed.

(** ** The overall confidence of valid memory *)








(** ** The audit row of a feedback *)




(** A rejection that brings the confidence to 0 is audited without a score. *)
Example rejection_to_zero_audited_without_score :
  map ar_confidence_score
      (audit_logs (db (fst (updateCorrectionMemoryFeedback "cm-1" false
                              (sample_world [sample_correction_row 10]))))) = [None].
Proof. reflexivity. Qed.
